(** * Egress IP, packet marks and the CNI request broker of openshift-sdn

    A shallow embedding of the node watcher ([pkg/network/node/egressip.go]),
    the master allocator ([pkg/network/master/egressip.go]) and the CNI
    server ([pkg/network/node/cniserver]) together with the properties the
    specification states about them.

    Conventions: a Go [uint32] is a [Z] in [0, 2^32); Go strings are
    [string]; a Go [map[string]T] is a [gmap string T]; a [sets.String] is
    a [gset string]; calls into collaborators that live outside these files
    (netlink, iptables, OVS, the tracker, the HTTP response writer) are
    recorded as events of an explicit trace. *)

From Stdlib Require Import ZArith Lia String Ascii List Bool DecimalString.
From stdpp Require Import base option gmap strings list.
Import ListNotations.

(** ** Go values shared by the packages below *)

Module Go.
Local Open Scope string_scope.

(** Go's [(value, error)] results; an [error] is its text. *)
Inductive result (A : Type) : Type :=
| Ok (a : A)
| Err (e : string).
Arguments Ok {A} a.
Arguments Err {A} e.

Definition bind {A B} (r : result A) (k : A -> result B) : result B :=
  match r with
  | Ok a => k a
  | Err e => Err e
  end.

Notation "'do' x <- r ; k" := (bind r (fun x => k))
  (at level 10, x name, r at level 100, k at level 200).

(** [v, ok := m[key]; if !ok { return nil, err }] *)
Definition lookupOr {A} (o : option A) (e : string) : result A :=
  match o with
  | Some a => Ok a
  | None => Err e
  end.

Definition dquote : string := String "034"%char "".

(** [%q] of a string without characters that need escaping. *)
Definition quoted (s : string) : string := dquote +:+ s +:+ dquote.

End Go.

(** ** Packet marks: [getMarkForVNID] *)

Module Mark.
Local Open Scope Z_scope.

(** *** [fmt.Sprintf("0x%08x", u)] for a [uint32]

    Go's integer formatter emits the hexadecimal digits of [u] from the
    least significant one ([for u >= 16 { digit (u & 0xF); u >>= 4 }] and
    then the last digit) and, for the [0] flag with width 8, fills up with
    ['0'] on the left until eight digits are there. *)

Definition ldigits : list ascii :=
  list_ascii_of_string "0123456789abcdef".

Definition hexDigit (d : Z) : ascii := nth (Z.to_nat d) ldigits "0"%char.

(** Little-endian digits; [fuel] bounds the number of digits (a [uint32]
    has at most eight). *)
Fixpoint fmtInteger16 (fuel : nat) (u : Z) : list Z :=
  match fuel with
  | O => []
  | S fuel' =>
      if 16 <=? u then Z.land u 15 :: fmtInteger16 fuel' (Z.shiftr u 4)
      else [u]
  end.

Definition zeroPad (width : nat) (ds : list Z) : list Z :=
  ds ++ repeat 0 (width - length ds).

Definition fmt_08x (u : Z) : list ascii :=
  map hexDigit (rev (zeroPad 8 (fmtInteger16 8 u))).

Definition Sprintf_0x08x (u : Z) : string :=
  String "0" (String "x" (string_of_list_ascii (fmt_08x u))).

(** *** The mark itself

    [markValue] is the value of the local [vnid] when [getMarkForVNID]
    reaches its [Sprintf]. *)

Definition markValue (vnid masqueradeBit : Z) : Z :=
  let vnid := if vnid =? 0 then 0xff000000 else vnid in
  let vnid :=
    if negb (Z.land vnid masqueradeBit =? 0)
    then Z.lxor (Z.lor vnid 0x01000000) masqueradeBit
    else vnid in
  vnid.

Definition getMarkForVNID (vnid masqueradeBit : Z) : string :=
  Sprintf_0x08x (markValue vnid masqueradeBit).

(** [newEgressIPWatcher]: [eip.masqueradeBit = 1 << uint32( *masqueradeBit)]
    computed in [uint32], and [0] when no bit is configured. *)
Definition newMasqueradeBit (masqueradeBit : option Z) : Z :=
  match masqueradeBit with
  | None => 0
  | Some b => Z.shiftl 1 (b mod 2 ^ 32) mod 2 ^ 32
  end.

Definition uint32 (u : Z) : Prop := 0 <= u < 2 ^ 32.

(** A single-bit mask of a 32-bit word. *)
Definition singleBit (m : Z) : Prop := exists k, 0 <= k < 32 /\ m = 2 ^ k.

(** VNIDs are 24-bit VXLAN network identifiers. *)
Definition validVNID (v : Z) : Prop := 0 <= v < 2 ^ 24.

Definition isNibble (d : Z) : Prop := 0 <= d < 16.

(** Reading a mark back: the inverse of [Sprintf_0x08x]. *)
Definition hexValue (c : ascii) : Z :=
  let n := Z.of_nat (nat_of_ascii c) in
  if (48 <=? n) && (n <=? 57) then n - 48
  else if (97 <=? n) && (n <=? 102) then n - 87
  else 0.

Definition leValue (ds : list Z) : Z :=
  fold_right (fun d acc => d + 16 * acc) 0 ds.

Definition parseMark (s : string) : option Z :=
  match s with
  | String "0" (String "x" rest) =>
      Some (leValue (rev (map hexValue (list_ascii_of_string rest))))
  | _ => None
  end.

(** What the specification calls injectivity of the mark on VNIDs below
    [bound]. *)
Definition markInjectiveBelow (bound : Z) : Prop :=
  forall m v1 v2,
    singleBit m -> 0 <= v1 < bound -> 0 <= v2 < bound ->
    getMarkForVNID v1 m = getMarkForVNID v2 m -> v1 = v2.

(** The specification's wording of the mark: substitute, then flip. *)
Definition specMark (vnid masqueradeBit : Z) : Z :=
  let value := if decide (vnid = 0) then 0xff000000 else vnid in
  if decide (Z.land value masqueradeBit = 0) then value
  else Z.lxor (Z.lor value 0x01000000) masqueradeBit.

(** *** Facts about the formatter *)

Lemma hexValue_hexDigit d : 0 <= d < 16 -> hexValue (hexDigit d) = d.
Proof.
  intros Hd.
  assert (Hn : exists n : nat, (n < 16)%nat /\ d = Z.of_nat n).
  { exists (Z.to_nat d). split; lia. }
  destruct Hn as (n & Hn & ->).
  do 16 (destruct n as [|n]; [reflexivity|]). lia.
Qed.

Lemma land_15_mod u : Z.land u 15 = u mod 16.
Proof. change 15 with (Z.ones 4). rewrite Z.land_ones by lia. reflexivity. Qed.

Lemma shiftr_4_div u : Z.shiftr u 4 = u / 16.
Proof. rewrite Z.shiftr_div_pow2 by lia. reflexivity. Qed.

Lemma fmtInteger16_spec fuel u :
  0 <= u < 16 ^ Z.of_nat fuel ->
  leValue (fmtInteger16 fuel u) = u /\
  Forall isNibble (fmtInteger16 fuel u) /\
  (length (fmtInteger16 fuel u) <= fuel)%nat.
Proof.
  revert u. induction fuel as [|fuel IH]; intros u Hu.
  - simpl in *. repeat split; [lia | constructor | lia].
  - cbn [fmtInteger16]. destruct (Z.leb_spec 16 u) as [Hge|Hlt].
    + rewrite land_15_mod, shiftr_4_div.
      assert (Hq : 0 <= u / 16 < 16 ^ Z.of_nat fuel).
      { rewrite Nat2Z.inj_succ, Z.pow_succ_r in Hu by lia.
        split; [apply Z.div_pos; lia | apply Z.div_lt_upper_bound; lia]. }
      destruct (IH _ Hq) as (Hv & Hf & Hl).
      cbn [leValue fold_right length]. fold (leValue (fmtInteger16 fuel (u / 16))).
      rewrite Hv. repeat split.
      * pose proof (Z.div_mod u 16). lia.
      * constructor; [|exact Hf]. unfold isNibble.
        pose proof (Z.mod_pos_bound u 16). lia.
      * lia.
    + cbn. repeat split; try lia.
      repeat constructor; unfold isNibble; lia.
Qed.

Lemma leValue_zeroPad w ds : leValue (zeroPad w ds) = leValue ds.
Proof.
  unfold zeroPad. generalize (w - length ds)%nat as k. intros k.
  induction ds as [|d ds IH]; cbn.
  - induction k as [|k IHk]; cbn; [reflexivity|].
    fold (leValue (repeat 0 k)). change (leValue [] ) with 0 in IHk.
    unfold leValue in *. cbn in *. lia.
  - fold (leValue (ds ++ repeat 0 k)). fold (leValue ds). lia.
Qed.

Lemma zeroPad_nibbles w ds : Forall isNibble ds -> Forall isNibble (zeroPad w ds).
Proof.
  intros H. unfold zeroPad. apply Forall_app. split; [exact H|].
  apply Forall_forall. intros x Hx%list_elem_of_In%repeat_spec.
  subst. unfold isNibble. lia.
Qed.

Lemma map_hexValue_hexDigit ds :
  Forall isNibble ds -> map hexValue (map hexDigit ds) = ds.
Proof.
  induction 1 as [|d ds Hd _ IH]; cbn [map]; [reflexivity|].
  rewrite hexValue_hexDigit, IH by exact Hd. reflexivity.
Qed.

(** The formatted mark can be read back: the rendering loses nothing. *)
Lemma parseMark_Sprintf u : uint32 u -> parseMark (Sprintf_0x08x u) = Some u.
Proof.
  intros Hu. unfold Sprintf_0x08x, parseMark, fmt_08x.
  destruct (fmtInteger16_spec 8 u Hu) as (Hv & Hf & _).
  rewrite list_ascii_of_string_of_list_ascii.
  rewrite map_hexValue_hexDigit.
  - rewrite rev_involutive, leValue_zeroPad, Hv. reflexivity.
  - apply Forall_rev, zeroPad_nibbles, Hf.
Qed.

Lemma Sprintf_0x08x_inj u1 u2 :
  uint32 u1 -> uint32 u2 -> Sprintf_0x08x u1 = Sprintf_0x08x u2 -> u1 = u2.
Proof.
  intros H1 H2 Heq.
  apply (f_equal parseMark) in Heq.
  rewrite !parseMark_Sprintf in Heq by assumption. congruence.
Qed.

(** *** Bit-level facts about a single-bit mask *)

Lemma land_pow2 x k :
  0 <= k -> Z.land x (2 ^ k) = if Z.testbit x k then 2 ^ k else 0.
Proof.
  intros Hk. apply Z.bits_inj'. intros i Hi.
  rewrite Z.land_spec, Z.pow2_bits_eqb by lia.
  destruct (Z.eqb_spec k i) as [->|Hne].
  - destruct (Z.testbit x i); cbn.
    + rewrite Z.pow2_bits_true by lia. reflexivity.
    + rewrite Z.bits_0. reflexivity.
  - rewrite andb_false_r. destruct (Z.testbit x k).
    + rewrite Z.pow2_bits_false by lia. reflexivity.
    + rewrite Z.bits_0. reflexivity.
Qed.

Lemma land_pow2_eqb x k :
  0 <= k -> (Z.land x (2 ^ k) =? 0) = negb (Z.testbit x k).
Proof.
  intros Hk. rewrite land_pow2 by lia.
  destruct (Z.testbit x k); cbn; [|reflexivity].
  apply Z.eqb_neq. pose proof (Z.pow_pos_nonneg 2 k). lia.
Qed.

Lemma lxor_pow2_set x k :
  0 <= k -> Z.testbit x k = true -> Z.lxor x (2 ^ k) = x - 2 ^ k.
Proof.
  intros Hk Hb.
  assert (Hc : Z.land (Z.lxor x (2 ^ k)) (2 ^ k) = 0).
  { rewrite land_pow2, Z.lxor_spec, Hb, Z.pow2_bits_true by lia. reflexivity. }
  apply Z.add_nocarry_lxor in Hc.
  rewrite Z.lxor_assoc, Z.lxor_nilpotent, Z.lxor_0_r in Hc. lia.
Qed.

Lemma lor_pow2_clear x k :
  0 <= k -> Z.testbit x k = false -> Z.lor x (2 ^ k) = x + 2 ^ k.
Proof.
  intros Hk Hb. symmetry. apply Z.add_nocarry_lor.
  rewrite land_pow2, Hb by lia. reflexivity.
Qed.

Lemma testbit_true_ge x k : 0 <= x -> 0 <= k -> Z.testbit x k = true -> 2 ^ k <= x.
Proof.
  intros Hx Hk Hb. destruct (Z.lt_ge_cases x (2 ^ k)) as [Hlt|]; [|assumption].
  rewrite Z.testbit_eqb, Z.div_small in Hb by lia. discriminate.
Qed.

Lemma lor_uint32 a b : uint32 a -> uint32 b -> uint32 (Z.lor a b).
Proof.
  unfold uint32. intros Ha Hb. split; [apply Z.lor_nonneg; lia|].
  destruct (Z.eq_dec (Z.lor a b) 0) as [->|Hne]; [lia|].
  apply Z.log2_lt_pow2; [pose proof (proj2 (Z.lor_nonneg a b)); lia|].
  rewrite Z.log2_lor by lia.
  destruct (Z.eq_dec a 0) as [->|]; destruct (Z.eq_dec b 0) as [->|];
    cbn [Z.log2]; try lia;
    apply Z.max_lub_lt; try lia; try (apply Z.log2_lt_pow2; lia).
Qed.

Lemma lxor_uint32 a b : uint32 a -> uint32 b -> uint32 (Z.lxor a b).
Proof.
  unfold uint32. intros Ha Hb. split; [apply Z.lxor_nonneg; lia|].
  destruct (Z.eq_dec (Z.lxor a b) 0) as [->|Hne]; [lia|].
  apply Z.log2_lt_pow2; [pose proof (proj2 (Z.lxor_nonneg a b)); lia|].
  eapply Z.le_lt_trans; [apply Z.log2_lxor; lia|].
  destruct (Z.eq_dec a 0) as [->|]; destruct (Z.eq_dec b 0) as [->|];
    cbn [Z.log2]; try lia;
    apply Z.max_lub_lt; try lia; try (apply Z.log2_lt_pow2; lia).
Qed.

Lemma singleBit_uint32 m : singleBit m -> uint32 m.
Proof.
  intros (k & Hk & ->). unfold uint32. split.
  - apply Z.pow_nonneg. lia.
  - apply Z.pow_lt_mono_r; lia.
Qed.

(** A [uint32] mark stays a [uint32]: the or and the xor cannot carry. *)
Lemma markValue_uint32 v m : uint32 v -> uint32 m -> uint32 (markValue v m).
Proof.
  intros Hv Hm. unfold markValue.
  assert (Hv' : uint32 (if v =? 0 then 4278190080 else v)).
  { destruct (v =? 0); [unfold uint32; lia | exact Hv]. }
  destruct (negb _); [|exact Hv'].
  apply lxor_uint32; [|exact Hm]. apply lor_uint32; [exact Hv'|].
  unfold uint32. lia.
Qed.

(** [newEgressIPWatcher] turns a bit number in [0, 32) into a single-bit
    mask. *)
Lemma newMasqueradeBit_singleBit b :
  0 <= b < 32 -> singleBit (newMasqueradeBit (Some b)).
Proof.
  intros Hb. exists b. split; [exact Hb|]. unfold newMasqueradeBit.
  rewrite (Z.mod_small b) by lia.
  rewrite Z.shiftl_1_l. apply Z.mod_small. split.
  - apply Z.pow_nonneg. lia.
  - apply Z.pow_lt_mono_r; lia.
Qed.

(** The masquerade bit is never set in a mark. *)
Lemma markValue_masq_clear v m :
  singleBit m -> Z.land (markValue v m) m = 0.
Proof.
  intros (k & Hk & ->). unfold markValue.
  set (value := if v =? 0 then 4278190080 else v).
  rewrite land_pow2_eqb, negb_involutive by lia.
  destruct (Z.testbit value k) eqn:Hb.
  - rewrite land_pow2 by lia.
    rewrite Z.lxor_spec, Z.lor_spec, Hb, Z.pow2_bits_true by lia. reflexivity.
  - rewrite land_pow2, Hb by lia. reflexivity.
Qed.

(** The three shapes of the mark of a valid VNID: VNID 0 lands at or
    above [2^25]; a VNID that avoids the masquerade bit is its own mark; a
    VNID that has the masquerade bit moves into [[2^24, 2^25)]. *)
Lemma markValue_cases v m :
  singleBit m -> validVNID v ->
  (v = 0 /\ 2 ^ 25 <= markValue v m < 2 ^ 32) \/
  (v <> 0 /\ markValue v m = v) \/
  (v <> 0 /\ markValue v m = v + 2 ^ 24 - m /\ m <= v).
Proof.
  intros (k & Hk & ->) Hv. unfold validVNID in Hv.
  destruct (Z.eq_dec v 0) as [->|Hne].
  - left. split; [reflexivity|].
    assert (Hn : exists n : nat, (n < 32)%nat /\ k = Z.of_nat n).
    { exists (Z.to_nat k). lia. }
    destruct Hn as (n & Hn & ->).
    do 32 (destruct n as [|n]; [vm_compute; split; [discriminate|reflexivity]|]).
    lia.
  - right. unfold markValue.
    destruct (Z.eqb_spec v 0) as [|_]; [contradiction|].
    rewrite land_pow2_eqb, negb_involutive by lia.
    destruct (Z.testbit v k) eqn:Hb; [right | left; split; [assumption|reflexivity]].
    pose proof (testbit_true_ge v k ltac:(lia) ltac:(lia) Hb) as Hge.
    assert (Hk24 : k < 24).
    { destruct (Z.lt_ge_cases k 24) as [|Hk24]; [assumption|].
      pose proof (Z.pow_le_mono_r 2 24 k ltac:(lia) Hk24). lia. }
    assert (H24 : Z.testbit v 24 = false).
    { rewrite Z.testbit_eqb, Z.div_small by lia. reflexivity. }
    change 16777216 with (2 ^ 24).
    rewrite lor_pow2_clear by (lia || assumption).
    rewrite lxor_pow2_set; [repeat split; try assumption; lia | lia |].
    rewrite Z.add_pow2_spec_low by lia. exact Hb.
Qed.

Lemma length_string_of_list_ascii l :
  String.length (string_of_list_ascii l) = length l.
Proof. induction l as [|c l IH]; cbn; [reflexivity | now rewrite IH]. Qed.

Lemma Sprintf_0x08x_length u : uint32 u -> String.length (Sprintf_0x08x u) = 10%nat.
Proof.
  intros Hu. destruct (fmtInteger16_spec 8 u Hu) as (_ & _ & Hl).
  unfold Sprintf_0x08x, fmt_08x, zeroPad. cbn [String.length].
  rewrite length_string_of_list_ascii, length_map, length_rev, length_app,
    repeat_length.
  lia.
Qed.

Lemma markValue_specMark v m : markValue v m = specMark v m.
Proof.
  unfold markValue, specMark.
  destruct (Z.eqb_spec v 0) as [->|Hne]; destruct (decide _) as [He|He];
    try contradiction; try discriminate;
    match goal with
    | |- context [Z.land ?x m =? 0] =>
        destruct (Z.eqb_spec (Z.land x m) 0); destruct (decide _);
          cbn [negb]; try contradiction; reflexivity
    end.
Qed.

(** C1, as the code has it. For every single-bit masquerade mask the mark
    of any 32-bit VNID has the masquerade bit clear and is what the
    rendered string spells, and two valid (24-bit) VNIDs with the same
    rendered mark are the same VNID. *)
Theorem getMarkForVNID_determinism m v v1 v2 :
  singleBit m -> uint32 v -> validVNID v1 -> validVNID v2 ->
  Z.land (markValue v m) m = 0 /\
  parseMark (getMarkForVNID v m) = Some (markValue v m) /\
  (getMarkForVNID v1 m = getMarkForVNID v2 m -> v1 = v2).
Proof.
  intros Hm Hv H1 H2.
  pose proof (singleBit_uint32 m Hm) as Hmr.
  assert (Hu : forall v, validVNID v -> uint32 (markValue v m)).
  { intros w Hw. apply markValue_uint32; [|exact Hmr].
    unfold validVNID, uint32 in *. lia. }
  split; [apply markValue_masq_clear, Hm|].
  split; [apply parseMark_Sprintf, markValue_uint32; assumption|].
  intros Heq. apply Sprintf_0x08x_inj in Heq; [|apply Hu; assumption ..].
  unfold uint32 in Hmr.
  assert (0 < m) by (destruct Hm as (k & Hk & ->); apply Z.pow_pos_nonneg; lia).
  unfold validVNID in *.
  destruct (markValue_cases v1 m Hm H1) as [(?&?)|[(?&?)|(?&?&?)]];
    destruct (markValue_cases v2 m Hm H2) as [(?&?)|[(?&?)|(?&?&?)]]; lia.
Qed.

Lemma getMarkForVNID_determinism_witness :
  singleBit (2 ^ 24) /\ uint32 0xff000000 /\ validVNID 42 /\ validVNID 43 /\
  Z.land (markValue 0xff000000 (2 ^ 24)) (2 ^ 24) = 0 /\
  parseMark (getMarkForVNID 0xff000000 (2 ^ 24)) = Some (markValue 0xff000000 (2 ^ 24)) /\
  (getMarkForVNID 42 (2 ^ 24) = getMarkForVNID 43 (2 ^ 24) -> 42 = 43).
Proof.
  assert (Hm : singleBit (2 ^ 24)) by (exists 24; lia).
  assert (Hv : uint32 0xff000000) by (unfold uint32; lia).
  assert (H1 : validVNID 42) by (unfold validVNID; lia).
  assert (H2 : validVNID 43) by (unfold validVNID; lia).
  split; [exact Hm|]. split; [exact Hv|]. split; [exact H1|]. split; [exact H2|].
  exact (getMarkForVNID_determinism (2 ^ 24) 0xff000000 42 43 Hm Hv H1 H2).
Defined.

(** C1, as the specification states it, fails: over the full 32-bit range
    VNID [1] and VNID [0x01000000] get the same mark under masquerade bit
    0, and so do VNID [0] and VNID [0xff000000]. The first collision is
    there as soon as the range goes beyond 24 bits. *)
Lemma getMarkForVNID_collision :
  singleBit 1 /\
  getMarkForVNID 1 1 = "0x01000000"%string /\
  getMarkForVNID 0x01000000 1 = "0x01000000"%string /\
  getMarkForVNID 0 1 = getMarkForVNID 0xff000000 1 /\
  ~ markInjectiveBelow (2 ^ 32) /\
  ~ markInjectiveBelow (2 ^ 24 + 1).
Proof.
  assert (Hm : singleBit 1) by (exists 0; lia).
  split; [exact Hm|]. split; [reflexivity|]. split; [reflexivity|].
  split; [reflexivity|].
  split; intros Hinj;
    specialize (Hinj 1 1 0x01000000 Hm ltac:(lia) ltac:(lia) eq_refl);
    discriminate Hinj.
Qed.

(** C2. The mark is the VNID, with [0xff000000] substituted for VNID 0 and
    then, when it meets the masquerade bit, or-ed with [0x01000000] and
    xor-ed with the masquerade bit; it is rendered as ["0x"] and eight
    lower-case hexadecimal digits that spell that value. VNID 42 under a
    masquerade bit it does not meet is ["0x0000002a"]. *)
Theorem getMarkForVNID_spec vnid m :
  uint32 vnid -> uint32 m ->
  getMarkForVNID vnid m = Sprintf_0x08x (specMark vnid m) /\
  String.length (getMarkForVNID vnid m) = 10%nat /\
  parseMark (getMarkForVNID vnid m) = Some (specMark vnid m) /\
  (vnid = 42 -> Z.land 42 m = 0 -> getMarkForVNID vnid m = "0x0000002a"%string).
Proof.
  intros Hv Hm. unfold getMarkForVNID. rewrite markValue_specMark.
  assert (Hu : uint32 (specMark vnid m)).
  { rewrite <- markValue_specMark. apply markValue_uint32; assumption. }
  split; [reflexivity|]. split; [apply Sprintf_0x08x_length, Hu|].
  split; [apply parseMark_Sprintf, Hu|].
  intros -> H42. rewrite <- markValue_specMark. unfold markValue.
  cbn [Z.eqb]. rewrite H42. reflexivity.
Qed.

Lemma getMarkForVNID_spec_witness :
  uint32 42 /\ uint32 (2 ^ 24) /\
  getMarkForVNID 42 (2 ^ 24) = Sprintf_0x08x (specMark 42 (2 ^ 24)) /\
  String.length (getMarkForVNID 42 (2 ^ 24)) = 10%nat /\
  parseMark (getMarkForVNID 42 (2 ^ 24)) = Some (specMark 42 (2 ^ 24)) /\
  (42 = 42 -> Z.land 42 (2 ^ 24) = 0 ->
   getMarkForVNID 42 (2 ^ 24) = "0x0000002a"%string).
Proof.
  assert (H1 : uint32 42) by (unfold uint32; lia).
  assert (H2 : uint32 (2 ^ 24)) by (unfold uint32; lia).
  split; [exact H1|]. split; [exact H2|].
  exact (getMarkForVNID_spec 42 (2 ^ 24) H1 H2).
Defined.

End Mark.


(** ** The CNI request broker: [cniserver] *)

Module CNIServer.
Import Go.
Local Open Scope string_scope.

Definition CNIServerSocketName : string := "socket".
Definition CNIServerConfigFileName : string := "config.json".

Record Config := {
  MTU : Z;
  ServiceNetworkCIDR : string
}.

Abbreviation CNICommand := string.
Definition CNI_ADD : CNICommand := "ADD".
Definition CNI_UPDATE : CNICommand := "UPDATE".
Definition CNI_DEL : CNICommand := "DEL".

Record CNIRequest := {
  Env : gmap string string;
  ConfigBytes : string;
  HostVeth : string
}.

(** The [Result] channel of the Go struct is a fresh channel made for each
    request and carries no data of the request; it is left out. *)
Record PodRequest := {
  Command : CNICommand;
  PodNamespace : string;
  PodName : string;
  SandboxID : string;
  Netns : string;
  PodHostVeth : string;
  AssignedIP : string
}.

(** What the broker takes from the Go libraries and from the process it
    runs in. *)
Class Platform := {
  (** [json.Unmarshal(b, &cr)]: the decoded request, or the decoder's error *)
  json_Unmarshal : string -> result CNIRequest;
  (** [json.Marshal(s.config)]; encoding a number and a string cannot fail *)
  json_Marshal : Config -> string;
  (** [strings.TrimSpace] *)
  strings_TrimSpace : string -> string;
  (** how [%s] prints a [map[string]string] *)
  fmt_map : gmap string string -> string;
  (** the file mode creation mask of the process *)
  umask : Z
}.

(** [strings.Split(s, sep)] for a one-byte separator. *)
Fixpoint Split (s : string) (sep : ascii) : list string :=
  match s with
  | EmptyString => [""]
  | String c s' =>
      if Ascii.eqb c sep then "" :: Split s' sep
      else match Split s' sep with
           | [] => [String c ""]
           | x :: xs => String c x :: xs
           end
  end.

(** [CNI_ARGS] as the runtime writes it: [key=value] arguments joined by
    [';'], keys and values free of both separators. *)
Fixpoint hasByte (c : ascii) (s : string) : bool :=
  match s with
  | EmptyString => false
  | String c' s' => Ascii.eqb c' c || hasByte c s'
  end.

Fixpoint Join (l : list string) (sep : ascii) : string :=
  match l with
  | [] => ""
  | [x] => x
  | x :: l' => x +:+ String sep (Join l' sep)
  end.

Definition cniArg (kv : string * string) : string := fst kv +:+ "=" +:+ snd kv.

Definition plainArg (kv : string * string) : Prop :=
  hasByte ";" (fst kv) = false /\ hasByte "=" (fst kv) = false /\
  hasByte ";" (snd kv) = false /\ hasByte "=" (snd kv) = false.

Section Requests.
Context `{Platform}.

Fixpoint gatherCNIArgs_loop (args : list string) (mapArgs : gmap string string)
  : result (gmap string string) :=
  match args with
  | [] => Ok mapArgs
  | arg :: args' =>
      match Split arg "=" with
      | [k; v] =>
          gatherCNIArgs_loop args'
            (<[strings_TrimSpace k := strings_TrimSpace v]> mapArgs)
      | _ => Err ("invalid CNI_ARG '" +:+ arg +:+ "'")
      end
  end.

Definition gatherCNIArgs (env : gmap string string) : result (gmap string string) :=
  do cniArgs <- lookupOr (env !! "CNI_ARGS")
                  ("missing CNI_ARGS: '" +:+ fmt_map env +:+ "'");
  gatherCNIArgs_loop (Split cniArgs ";") ∅.

Definition cniRequestToPodRequest (body : string) : result PodRequest :=
  match json_Unmarshal body with
  | Err e => Err ("JSON unmarshal error: " +:+ e)
  | Ok cr =>
      do cmd <- lookupOr (Env cr !! "CNI_COMMAND") "unexpected or missing CNI_COMMAND";
      do sandboxID <- lookupOr (Env cr !! "CNI_CONTAINERID") "missing CNI_CONTAINERID";
      do netns <- lookupOr (Env cr !! "CNI_NETNS") "missing CNI_NETNS";
      if String.eqb (HostVeth cr) "" && String.eqb cmd CNI_ADD
      then Err "missing HostVeth"
      else
        do cniArgs <- gatherCNIArgs (Env cr);
        do podNamespace <- lookupOr (cniArgs !! "K8S_POD_NAMESPACE") "missing K8S_POD_NAMESPACE";
        do podName <- lookupOr (cniArgs !! "K8S_POD_NAME") "missing K8S_POD_NAME";
        Ok {| Command := cmd;
              PodNamespace := podNamespace;
              PodName := podName;
              SandboxID := sandboxID;
              Netns := netns;
              PodHostVeth := HostVeth cr;
              AssignedIP := "" |}
  end.

End Requests.

(** *** The HTTP side *)

Record Response := {
  StatusCode : Z;
  Header : gmap string string;
  Body : string
}.

Definition StatusOK : Z := 200.
Definition StatusBadRequest : Z := 400.

Definition newline : string := String "010"%char "".

(** [http.Error(w, error, code)]: plain-text headers, the status line and
    the error followed by a newline. *)
Definition http_Error (error : string) (code : Z) : Response :=
  {| StatusCode := code;
     Header := <["X-Content-Type-Options" := "nosniff"]>
                 (<["Content-Type" := "text/plain; charset=utf-8"]> ∅);
     Body := error +:+ newline |}.

(** [w.Header().Set("Content-Type", "application/json"); w.Write(result)]:
    the first write sends status 200. *)
Definition writeJSON (result : string) : Response :=
  {| StatusCode := StatusOK;
     Header := <["Content-Type" := "application/json"]> ∅;
     Body := result |}.

Section Server.
Context `{Platform}.
(** The state the request handler works on (the node's pod manager). *)
Variable World : Type.

Definition cniRequestFunc := PodRequest -> World -> result string * World.

Record CNIServer := {
  requestFunc : option cniRequestFunc;
  rundir : string;
  config : Config;
  (** [http.Server]: keep-alives are on unless switched off *)
  keepAlivesEnabled : bool;
  (** the socket [Serve] runs on, once started *)
  serving : option string
}.

Definition NewCNIServer (rundir : string) (config : Config) : CNIServer :=
  {| requestFunc := None; rundir := rundir; config := config;
     keepAlivesEnabled := true; serving := None |}.

(** The server, the world behind the handler, and the requests the handler
    has been called with so far. *)
Record state := {
  server : CNIServer;
  world : World;
  invoked : list PodRequest
}.

(** [None] is the panic of calling a nil [requestFunc]. *)
Definition handleCNIRequest (st : state) (body : string) : option (Response * state) :=
  match cniRequestToPodRequest body with
  | Err e => Some (http_Error e StatusBadRequest, st)
  | Ok req =>
      match requestFunc (server st) with
      | None => None
      | Some f =>
          let '(res, w') := f req (world st) in
          let st' := {| server := server st; world := w';
                        invoked := invoked st ++ [req] |} in
          match res with
          | Err e => Some (http_Error e StatusBadRequest, st')
          | Ok result => Some (writeJSON result, st')
          end
      end
  end.

(** *** The run directory

    The file system as far as [Start] looks at it: the node at [s.rundir]
    and, when that is a directory, what it holds. Permissions are the nine
    permission bits ([info.Mode().Perm()]). The process runs as root on a
    working file system, so a call fails only for what is at the path. *)

Inductive dirent :=
| RegularFile (perm : Z) (data : string)
| SocketFile (perm : Z)
| SubDir (perm : Z) (empty : bool).

Inductive fsnode :=
| Missing
| NotDirectory (perm : Z)
| Directory (perm : Z) (entries : gmap string dirent).

Inductive Errno := ENOENT | ENOTEMPTY | ENOTDIR | EISDIR | ENXIO | EADDRINUSE.

Definition strerror (e : Errno) : string :=
  match e with
  | ENOENT => "no such file or directory"
  | ENOTEMPTY => "directory not empty"
  | ENOTDIR => "not a directory"
  | EISDIR => "is a directory"
  | ENXIO => "no such device or address"
  | EADDRINUSE => "address already in use"
  end.

(** [*os.PathError] *)
Record PathError := { Op : string; Path : string; Errno_ : Errno }.

Definition PathError_Error (e : PathError) : string :=
  Op e +:+ " " +:+ Path e +:+ ": " +:+ strerror (Errno_ e).

Definition os_IsNotExist (e : PathError) : bool :=
  match Errno_ e with ENOENT => true | _ => false end.

(** Octal file modes. *)
Definition mode (u g o : Z) : Z := (u * 64 + g * 8 + o)%Z.

(** The mode a newly created file or directory gets. *)
Definition created (perm : Z) : Z := Z.ldiff perm umask.

(** [filepath.Join(rundir, name)] for a clean [rundir]. *)
Definition filepath_Join (dir name : string) : string := dir +:+ "/" +:+ name.

Record FileInfo := { IsDir : bool; Perm : Z }.

Definition os_Stat (path : string) (fs : fsnode) : PathError + FileInfo :=
  match fs with
  | Missing => inl {| Op := "stat"; Path := path; Errno_ := ENOENT |}
  | NotDirectory p => inr {| IsDir := false; Perm := p |}
  | Directory p _ => inr {| IsDir := true; Perm := p |}
  end.

(** [os.Remove] of [dir/name]: a file, a socket or an empty directory goes
    away. *)
Definition os_Remove (dir name : string) (fs : fsnode) : option PathError * fsnode :=
  let err e := Some {| Op := "remove"; Path := filepath_Join dir name; Errno_ := e |} in
  match fs with
  | Missing => (err ENOENT, fs)
  | NotDirectory _ => (err ENOTDIR, fs)
  | Directory p entries =>
      match entries !! name with
      | None => (err ENOENT, fs)
      | Some (SubDir _ false) => (err ENOTEMPTY, fs)
      | Some _ => (None, Directory p (delete name entries))
      end
  end.

Definition os_RemoveAll (dir : string) (fs : fsnode) : option PathError * fsnode :=
  (None, Missing).

Definition os_MkdirAll (dir : string) (perm : Z) (fs : fsnode) : option PathError * fsnode :=
  match fs with
  | Missing => (None, Directory (created perm) ∅)
  | NotDirectory _ => (Some {| Op := "mkdir"; Path := dir; Errno_ := ENOTDIR |}, fs)
  | Directory _ _ => (None, fs)
  end.

(** [ioutil.WriteFile]: create with [perm] or truncate what is there. *)
Definition ioutil_WriteFile (dir name : string) (data : string) (perm : Z)
    (fs : fsnode) : option PathError * fsnode :=
  let err e := Some {| Op := "open"; Path := filepath_Join dir name; Errno_ := e |} in
  match fs with
  | Missing => (err ENOENT, fs)
  | NotDirectory _ => (err ENOTDIR, fs)
  | Directory p entries =>
      match entries !! name with
      | None => (None, Directory p (<[name := RegularFile (created perm) data]> entries))
      | Some (RegularFile q _) => (None, Directory p (<[name := RegularFile q data]> entries))
      | Some (SocketFile _) => (err ENXIO, fs)
      | Some (SubDir _ _) => (err EISDIR, fs)
      end
  end.

(** [net.Listen("unix", path)]: [bind] creates the socket file and refuses
    a path that is taken. Its [*net.OpError] reads
    [listen unix <path>: bind: <error>]. *)
Definition net_Listen (dir name : string) (fs : fsnode) : option PathError * fsnode :=
  let err e := Some {| Op := "listen unix";
                       Path := filepath_Join dir name +:+ ": bind"; Errno_ := e |} in
  match fs with
  | Missing => (err ENOENT, fs)
  | NotDirectory _ => (err ENOTDIR, fs)
  | Directory p entries =>
      match entries !! name with
      | None => (None, Directory p (<[name := SocketFile (created (mode 7 7 7))]> entries))
      | Some _ => (err EADDRINUSE, fs)
      end
  end.

Definition chmodEntry (perm : Z) (e : dirent) : dirent :=
  match e with
  | RegularFile _ d => RegularFile perm d
  | SocketFile _ => SocketFile perm
  | SubDir _ b => SubDir perm b
  end.

Definition os_Chmod (dir name : string) (perm : Z) (fs : fsnode) : option PathError * fsnode :=
  let err e := Some {| Op := "chmod"; Path := filepath_Join dir name; Errno_ := e |} in
  match fs with
  | Missing => (err ENOENT, fs)
  | NotDirectory _ => (err ENOTDIR, fs)
  | Directory p entries =>
      match entries !! name with
      | None => (err ENOENT, fs)
      | Some e => (None, Directory p (<[name := chmodEntry perm e]> entries))
      end
  end.

(** [Start] works on the server and on the file system; an early return
    leaves both as they are at that point. *)
Definition Start (f : option cniRequestFunc) (s : CNIServer) (fs : fsnode)
  : result unit * CNIServer * fsnode :=
  match f with
  | None => (Err "no pod request handler", s, fs)
  | Some _ =>
  let s := {| requestFunc := f; rundir := rundir s; config := config s;
              keepAlivesEnabled := keepAlivesEnabled s; serving := serving s |} in
  let socketName := CNIServerSocketName in
  let configName := CNIServerConfigFileName in
  let fail msg (e : PathError) fs := (Err (msg +:+ PathError_Error e), s, fs) in
  (* [if err := os.Remove(path); err != nil && !os.IsNotExist(err)] *)
  let removeOld name msg fs : (string * PathError * fsnode) + fsnode :=
    match os_Remove (rundir s) name fs with
    | (Some err, fs') => if negb (os_IsNotExist err) then inl (msg, err, fs') else inr fs'
    | (None, fs') => inr fs'
    end in
  (* If our socket directory exists, make sure it is private and empty *)
  let cleaned : (string * PathError * fsnode) + fsnode :=
    match os_Stat (rundir s) fs with
    | inl err =>
        if negb (os_IsNotExist err)
        then inl ("could not read CNIServer directory: ", err, fs)
        else inr fs
    | inr info =>
        if IsDir info && (Perm info =? mode 7 0 0)%Z then
          match removeOld socketName "failed to remove old CNIServer socket: " fs with
          | inl e => inl e
          | inr fs => removeOld configName "failed to remove old CNIServer config: " fs
          end
        else
          match os_RemoveAll (rundir s) fs with
          | (Some err, fs) => inl ("failed to remove old CNIServer directory: ", err, fs)
          | (None, fs) => inr fs
          end
    end in
  match cleaned with
  | inl (msg, err, fs) => fail msg err fs
  | inr fs =>
  match os_MkdirAll (rundir s) (mode 7 0 0) fs with
  | (Some err, fs) => fail "failed to create CNIServer directory: " err fs
  | (None, fs) =>
  (* Write config file *)
  let configData := json_Marshal (config s) in
  match ioutil_WriteFile (rundir s) configName configData (mode 4 4 4) fs with
  | (Some err, fs) =>
      fail ("could not write config file " +:+
            quoted (filepath_Join (rundir s) configName) +:+ ": ") err fs
  | (None, fs) =>
  match net_Listen (rundir s) socketName fs with
  | (Some err, fs) => fail "failed to listen on pod info socket: " err fs
  | (None, fs) =>
  match os_Chmod (rundir s) socketName (mode 6 0 0) fs with
  | (Some err, fs) =>
      (* l.Close() unlinks the socket again *)
      fail "failed to set pod info socket mode: " err
        (snd (os_Remove (rundir s) socketName fs))
  | (None, fs) =>
      (* s.SetKeepAlivesEnabled(false); go utilwait.Forever(s.Serve(l)) *)
      (Ok (), {| requestFunc := f; rundir := rundir s; config := config s;
                 keepAlivesEnabled := false;
                 serving := Some (filepath_Join (rundir s) socketName) |}, fs)
  end end end end end
  end.

End Server.

Arguments requestFunc {World} _.
Arguments rundir {World} _.
Arguments config {World} _.
Arguments keepAlivesEnabled {World} _.
Arguments serving {World} _.
Arguments server {World} _.
Arguments world {World} _.
Arguments invoked {World} _.
Arguments handleCNIRequest {_ World} st body.
Arguments Start {_ World} f s fs.
Arguments NewCNIServer {World} rundir config.

(** *** What the specification calls a malformed and a well-formed request *)

Section Wellformedness.
Context `{Platform}.

(** A required key is missing: one of the three environment variables,
    the host veth of an [ADD], or a pod namespace and name that
    [CNI_ARGS] does not deliver. *)
Definition missingRequired (cr : CNIRequest) : Prop :=
  Env cr !! "CNI_COMMAND" = None \/
  Env cr !! "CNI_CONTAINERID" = None \/
  Env cr !! "CNI_NETNS" = None \/
  (Env cr !! "CNI_COMMAND" = Some CNI_ADD /\ HostVeth cr = "") \/
  (forall args, gatherCNIArgs (Env cr) = Ok args ->
     args !! "K8S_POD_NAMESPACE" = None \/ args !! "K8S_POD_NAME" = None).

Definition malformed (body : string) : Prop :=
  (exists e, json_Unmarshal body = Err e) \/
  (exists cr, json_Unmarshal body = Ok cr /\ missingRequired cr).

End Wellformedness.

(** *** What [Start] leaves behind *)

Section StartOutcome.
Context `{Platform}.
Context {World : Type}.


(** Nothing stands at the socket or config path that [os.Remove] refuses:
    in a run directory of mode [0700] neither is a non-empty directory. *)
Definition removable (fs : fsnode) : Prop :=
  match fs with
  | Directory p entries =>
      p = mode 7 0 0 ->
      forall name q, name = CNIServerSocketName \/ name = CNIServerConfigFileName ->
        entries !! name <> Some (SubDir q false)
  | _ => True
  end.

(** What survives the cleaning: in a private run directory everything but
    the socket and the config file, otherwise nothing. *)
Definition kept (fs : fsnode) : gmap string dirent :=
  match fs with
  | Directory p entries =>
      if (p =? mode 7 0 0)%Z
      then delete CNIServerConfigFileName (delete CNIServerSocketName entries)
      else ∅
  | _ => ∅
  end.

Definition startedServer (f : cniRequestFunc World) (s : CNIServer World) : CNIServer World :=
  {| requestFunc := Some f; rundir := rundir s; config := config s;
     keepAlivesEnabled := false;
     serving := Some (filepath_Join (rundir s) CNIServerSocketName) |}.

(** The run directory a start from [fs] ends with, whatever the mask: a
    private directory keeps its mode, a new one and the config file get
    theirs through the mask, the socket's is set by [os.Chmod]. *)
Definition startedFrom (cfg : Config) (fs : fsnode) : fsnode :=
  let p := match fs with
           | Directory p _ => if (p =? mode 7 0 0)%Z then p else created (mode 7 0 0)
           | _ => created (mode 7 0 0)
           end in
  Directory p
    (<[CNIServerSocketName := SocketFile (mode 6 0 0)]>
       (<[CNIServerConfigFileName := RegularFile (created (mode 4 4 4)) (json_Marshal cfg)]>
          (kept fs))).

End StartOutcome.


(** *** An instance to run the scenarios on

    White space is ASCII white space and the decoder knows the bodies of
    the two scenarios S5 and S6. *)

Definition isSpace (c : ascii) : bool :=
  let n := nat_of_ascii c in
  ((9 <=? n) && (n <=? 13))%nat || (n =? 32)%nat.

Fixpoint trimLeft (s : string) : string :=
  match s with
  | String c s' => if isSpace c then trimLeft s' else s
  | EmptyString => s
  end.

Fixpoint trimRight (s : string) : string :=
  match s with
  | String c s' =>
      match trimRight s' with
      | EmptyString => if isSpace c then "" else String c ""
      | t => String c t
      end
  | EmptyString => ""
  end.

Definition asciiTrimSpace (s : string) : string := trimRight (trimLeft s).

Definition q (s : string) : string := quoted s.

Definition envS5 : gmap string string :=
  <["CNI_COMMAND" := "ADD"]>
    (<["CNI_CONTAINERID" := "abc"]>
       (<["CNI_NETNS" := "/proc/1/ns/net"]>
          (<["CNI_ARGS" := "K8S_POD_NAMESPACE=default;K8S_POD_NAME=p"]> ∅))).

Definition requestS5 : CNIRequest :=
  {| Env := envS5; ConfigBytes := ""; HostVeth := "veth0" |}.

Definition requestS6 : CNIRequest :=
  {| Env := delete "CNI_CONTAINERID" envS5; ConfigBytes := ""; HostVeth := "veth0" |}.

Definition bodyS5 : string :=
  "{" +:+ q "env" +:+ ":{" +:+
    q "CNI_COMMAND" +:+ ":" +:+ q "ADD" +:+ "," +:+
    q "CNI_CONTAINERID" +:+ ":" +:+ q "abc" +:+ "," +:+
    q "CNI_NETNS" +:+ ":" +:+ q "/proc/1/ns/net" +:+ "," +:+
    q "CNI_ARGS" +:+ ":" +:+ q "K8S_POD_NAMESPACE=default;K8S_POD_NAME=p" +:+ "}," +:+
    q "hostVeth" +:+ ":" +:+ q "veth0" +:+ "}".

Definition bodyS6 : string :=
  "{" +:+ q "env" +:+ ":{" +:+
    q "CNI_COMMAND" +:+ ":" +:+ q "ADD" +:+ "," +:+
    q "CNI_NETNS" +:+ ":" +:+ q "/proc/1/ns/net" +:+ "," +:+
    q "CNI_ARGS" +:+ ":" +:+ q "K8S_POD_NAMESPACE=default;K8S_POD_NAME=p" +:+ "}," +:+
    q "hostVeth" +:+ ":" +:+ q "veth0" +:+ "}".

Definition scenarioDecoder (body : string) : result CNIRequest :=
  if String.eqb body bodyS5 then Ok requestS5
  else if String.eqb body bodyS6 then Ok requestS6
  else Err "invalid character".

Definition scenarioPlatform : Platform :=
  {| json_Unmarshal := scenarioDecoder;
     json_Marshal := fun c => "{}";
     strings_TrimSpace := asciiTrimSpace;
     fmt_map := fun _ => "map[]";
     umask := 18 |}.


(** A handler that counts its calls and answers with the sandbox id. *)
Definition echoHandler : cniRequestFunc nat :=
  fun req n => (Ok (SandboxID req), S n).

Definition failingHandler : cniRequestFunc nat :=
  fun req n => (Err "pod setup failed", S n).

Definition scenarioState (f : option (cniRequestFunc nat)) : state nat :=
  {| server := {| requestFunc := f; rundir := "/var/run/openshift-sdn/cniserver";
                  config := {| MTU := 1450; ServiceNetworkCIDR := "172.30.0.0/16" |};
                  keepAlivesEnabled := false; serving := None |};
     world := 0%nat; invoked := [] |}.

Definition argsS5 : gmap string string :=
  <["K8S_POD_NAME" := "p"]> (<["K8S_POD_NAMESPACE" := "default"]> ∅).

Definition podRequestS5 : PodRequest :=
  {| Command := CNI_ADD; PodNamespace := "default"; PodName := "p";
     SandboxID := "abc"; Netns := "/proc/1/ns/net"; PodHostVeth := "veth0";
     AssignedIP := "" |}.

(** *** Requests: theorems *)

Section RequestFacts.
Context `{Platform}.
Context {World : Type}.

(** A rejected request is answered from [cniRequestToPodRequest] alone:
    the handler is not reached, whatever it is, and the state is the one
    before. *)
Lemma handleCNIRequest_rejected (st : state World) body msg :
  cniRequestToPodRequest body = Err msg ->
  handleCNIRequest st body = Some (http_Error msg StatusBadRequest, st).
Proof. intros Hreq. unfold handleCNIRequest. rewrite Hreq. reflexivity. Qed.

Lemma malformed_rejected body :
  malformed body -> exists msg, cniRequestToPodRequest body = Err msg.
Proof.
  unfold malformed, cniRequestToPodRequest.
  intros [(e & ->)|(cr & -> & Hmiss)]; [eauto|].
  destruct (Env cr !! "CNI_COMMAND") as [cmd|] eqn:Hcmd; cbn; [|eauto].
  destruct (Env cr !! "CNI_CONTAINERID") as [id|] eqn:Hid; cbn; [|eauto].
  destruct (Env cr !! "CNI_NETNS") as [ns|] eqn:Hns; cbn; [|eauto].
  destruct (String.eqb (HostVeth cr) "" && String.eqb cmd CNI_ADD) eqn:Hveth; [eauto|].
  destruct (gatherCNIArgs (Env cr)) as [args|e] eqn:Hargs; cbn; [|eauto].
  destruct (args !! "K8S_POD_NAMESPACE") as [pns|] eqn:Hpns; cbn; [|eauto].
  destruct (args !! "K8S_POD_NAME") as [pn|] eqn:Hpn; cbn; [|eauto].
  exfalso. unfold missingRequired in Hmiss.
  destruct Hmiss as [?|[?|[?|[(Hadd & Hv)|Hk]]]]; try congruence.
  - rewrite Hadd in Hcmd. injection Hcmd as <-. rewrite Hv in Hveth. discriminate.
  - destruct (Hk args Hargs); congruence.
Qed.

Lemma hasByte_app c s t : hasByte c (s +:+ t) = hasByte c s || hasByte c t.
Proof.
  induction s as [|c' s IH]; [reflexivity|].
  change (hasByte c (String c' s +:+ t)) with (Ascii.eqb c' c || hasByte c (s +:+ t)).
  rewrite IH, orb_assoc. reflexivity.
Qed.

Lemma Split_plain s sep : hasByte sep s = false -> Split s sep = [s].
Proof.
  induction s as [|c s IH]; cbn [hasByte Split]; [reflexivity|].
  intros [Hc Hs]%orb_false_iff. rewrite Hc, (IH Hs). reflexivity.
Qed.

Lemma Split_app s t sep :
  hasByte sep s = false -> Split (s +:+ String sep t) sep = s :: Split t sep.
Proof.
  induction s as [|c s IH].
  - intros _. change ("" +:+ String sep t) with (String sep t).
    cbn [Split]. rewrite Ascii.eqb_refl. reflexivity.
  - change (String c s +:+ String sep t) with (String c (s +:+ String sep t)).
    cbn [hasByte Split].
    intros [Hc Hs]%orb_false_iff. rewrite Hc, (IH Hs). reflexivity.
Qed.

Lemma Split_Join l sep :
  l <> [] -> Forall (fun x => hasByte sep x = false) l -> Split (Join l sep) sep = l.
Proof.
  intros Hne Hl. induction Hl as [|x l Hx Hl IH]; [contradiction|].
  destruct l as [|y l].
  - apply Split_plain, Hx.
  - change (Join (x :: y :: l) sep) with (x +:+ String sep (Join (y :: l) sep)).
    rewrite (Split_app _ _ _ Hx), IH by discriminate. reflexivity.
Qed.

Lemma Split_cniArg kv : plainArg kv -> Split (cniArg kv) "=" = [fst kv; snd kv].
Proof.
  intros (_ & Hk & _ & Hv). unfold cniArg.
  change ("=" +:+ snd kv) with (String "=" (snd kv)).
  rewrite (Split_app _ _ _ Hk), (Split_plain _ _ Hv). reflexivity.
Qed.

Lemma gatherCNIArgs_loop_plain kvs : forall mapArgs,
  Forall plainArg kvs ->
  gatherCNIArgs_loop (map cniArg kvs) mapArgs =
    Ok (fold_left (fun m kv => <[strings_TrimSpace (fst kv) := strings_TrimSpace (snd kv)]> m)
          kvs mapArgs).
Proof.
  induction kvs as [|kv kvs IH]; intros mapArgs Hkvs; [reflexivity|].
  apply Forall_cons in Hkvs. destruct Hkvs as [Hkv Hkvs].
  cbn [map gatherCNIArgs_loop fold_left].
  rewrite (Split_cniArg kv Hkv). apply IH, Hkvs.
Qed.

(** Arguments written the usual way are gathered one by one, trimmed, a
    later one for the same key replacing an earlier one. *)
Lemma gatherCNIArgs_plain env kvs :
  env !! "CNI_ARGS" = Some (Join (map cniArg kvs) ";") ->
  kvs <> [] -> Forall plainArg kvs ->
  gatherCNIArgs env =
    Ok (fold_left (fun m kv => <[strings_TrimSpace (fst kv) := strings_TrimSpace (snd kv)]> m)
          kvs ∅).
Proof.
  intros Henv Hne Hkvs. unfold gatherCNIArgs. rewrite Henv. cbn [lookupOr bind].
  rewrite Split_Join.
  - apply gatherCNIArgs_loop_plain, Hkvs.
  - destruct kvs; [contradiction|discriminate].
  - apply Forall_map. eapply Forall_impl; [exact Hkvs|].
    intros kv (Hk & _ & Hv & _). unfold cniArg.
    rewrite !hasByte_app, Hk, Hv. reflexivity.
Qed.

(** C3. A POST whose body does not decode, or whose decoded request lacks
    a required key, is answered with status 400 and the error text (and a
    newline) as body; the handler is not called and server, world and call
    log are what they were. Without [CNI_CONTAINERID] (and with
    [CNI_COMMAND]) the text is [missing CNI_CONTAINERID]. *)
Theorem handleCNIRequest_malformed (st : state World) body :
  malformed body ->
  exists msg,
    cniRequestToPodRequest body = Err msg /\
    handleCNIRequest st body =
      Some ({| StatusCode := 400;
               Header := <["X-Content-Type-Options" := "nosniff"]>
                           (<["Content-Type" := "text/plain; charset=utf-8"]> ∅);
               Body := msg +:+ newline |}, st) /\
    (forall cr cmd,
       json_Unmarshal body = Ok cr ->
       Env cr !! "CNI_COMMAND" = Some cmd ->
       Env cr !! "CNI_CONTAINERID" = None ->
       msg = "missing CNI_CONTAINERID").
Proof.
  intros Hbad. destruct (malformed_rejected body Hbad) as (msg & Hmsg).
  exists msg. split; [exact Hmsg|]. split.
  - apply handleCNIRequest_rejected, Hmsg.
  - intros cr cmd Hcr Hcmd Hid. unfold cniRequestToPodRequest in Hmsg.
    rewrite Hcr, Hcmd, Hid in Hmsg. cbn in Hmsg. congruence.
Qed.

(** C4. A well-formed [ADD] request reaches the handler once, as the
    [PodRequest] made of its fields, pod namespace and name being what
    [CNI_ARGS] gives for [K8S_POD_NAMESPACE] and [K8S_POD_NAME] (for
    arguments written [key=value;key=value]: the trimmed value of the last
    argument with that trimmed key); the handler's bytes come back with
    status 200 and [Content-Type: application/json] as the whole body,
    the handler's error with status 400 and, as plain text, the error text
    followed by a newline as body. *)
Theorem handleCNIRequest_wellformed (st : state World) body cr f
    sandboxID netns args podNamespace podName :
  json_Unmarshal body = Ok cr ->
  Env cr !! "CNI_COMMAND" = Some CNI_ADD ->
  Env cr !! "CNI_CONTAINERID" = Some sandboxID ->
  Env cr !! "CNI_NETNS" = Some netns ->
  HostVeth cr <> "" ->
  gatherCNIArgs (Env cr) = Ok args ->
  args !! "K8S_POD_NAMESPACE" = Some podNamespace ->
  args !! "K8S_POD_NAME" = Some podName ->
  requestFunc (server st) = Some f ->
  let req := {| Command := CNI_ADD; PodNamespace := podNamespace;
                PodName := podName; SandboxID := sandboxID; Netns := netns;
                PodHostVeth := HostVeth cr; AssignedIP := "" |} in
  let after w := {| server := server st; world := w;
                    invoked := invoked st ++ [req] |} in
  cniRequestToPodRequest body = Ok req /\
  (forall kvs,
     Env cr !! "CNI_ARGS" = Some (Join (map cniArg kvs) ";") ->
     kvs <> [] -> Forall plainArg kvs ->
     args = fold_left
              (fun m kv => <[strings_TrimSpace (fst kv) := strings_TrimSpace (snd kv)]> m)
              kvs ∅) /\
  (forall responseBytes w,
     f req (world st) = (Ok responseBytes, w) ->
     handleCNIRequest st body =
       Some ({| StatusCode := 200;
                Header := <["Content-Type" := "application/json"]> ∅;
                Body := responseBytes |}, after w)) /\
  (forall e w,
     f req (world st) = (Err e, w) ->
     handleCNIRequest st body =
       Some ({| StatusCode := 400;
                Header := <["X-Content-Type-Options" := "nosniff"]>
                            (<["Content-Type" := "text/plain; charset=utf-8"]> ∅);
                Body := e +:+ newline |}, after w)).
Proof.
  intros Hcr Hcmd Hid Hns Hveth Hargs Hpns Hpn Hf req after.
  assert (Hreq : cniRequestToPodRequest body = Ok req).
  { unfold cniRequestToPodRequest. rewrite Hcr, Hcmd, Hid, Hns. cbn.
    destruct (String.eqb_spec (HostVeth cr) "") as [|_]; [contradiction|].
    cbn. rewrite Hargs. cbn. rewrite Hpns, Hpn. reflexivity. }
  split; [exact Hreq|]. split.
  { intros kvs Henv Hne Hkvs.
    rewrite (gatherCNIArgs_plain _ kvs Henv Hne Hkvs) in Hargs. congruence. }
  unfold handleCNIRequest. rewrite Hreq, Hf.
  split; intros r w Hres; rewrite Hres; reflexivity.
Qed.

End RequestFacts.

Lemma handleCNIRequest_malformed_witness :
  @malformed scenarioPlatform bodyS6 /\
  exists msg,
    @cniRequestToPodRequest scenarioPlatform bodyS6 = Err msg /\
    @handleCNIRequest scenarioPlatform nat (scenarioState (Some echoHandler)) bodyS6 =
      Some ({| StatusCode := 400;
               Header := <["X-Content-Type-Options" := "nosniff"]>
                           (<["Content-Type" := "text/plain; charset=utf-8"]> ∅);
               Body := msg +:+ newline |}, scenarioState (Some echoHandler)) /\
    (forall cr cmd,
       @json_Unmarshal scenarioPlatform bodyS6 = Ok cr ->
       Env cr !! "CNI_COMMAND" = Some cmd ->
       Env cr !! "CNI_CONTAINERID" = None ->
       msg = "missing CNI_CONTAINERID").
Proof.
  assert (Hbad : @malformed scenarioPlatform bodyS6).
  { right. exists requestS6. split; [reflexivity|].
    right. left. vm_compute. reflexivity. }
  split; [exact Hbad|].
  exact (@handleCNIRequest_malformed scenarioPlatform nat
           (scenarioState (Some echoHandler)) bodyS6 Hbad).
Defined.

Lemma handleCNIRequest_wellformed_witness :
  @json_Unmarshal scenarioPlatform bodyS5 = Ok requestS5 /\
  @gatherCNIArgs scenarioPlatform (Env requestS5) = Ok argsS5 /\
  @cniRequestToPodRequest scenarioPlatform bodyS5 = Ok podRequestS5 /\
  @handleCNIRequest scenarioPlatform nat (scenarioState (Some echoHandler)) bodyS5 =
    Some ({| StatusCode := 200;
             Header := <["Content-Type" := "application/json"]> ∅;
             Body := "abc" |},
          {| server := server (scenarioState (Some echoHandler));
             world := 1%nat; invoked := [podRequestS5] |}) /\
  @handleCNIRequest scenarioPlatform nat (scenarioState (Some failingHandler)) bodyS5 =
    Some ({| StatusCode := 400;
             Header := <["X-Content-Type-Options" := "nosniff"]>
                         (<["Content-Type" := "text/plain; charset=utf-8"]> ∅);
             Body := "pod setup failed" +:+ newline |},
          {| server := server (scenarioState (Some failingHandler));
             world := 1%nat; invoked := [podRequestS5] |}).
Proof.
  assert (Hcr : @json_Unmarshal scenarioPlatform bodyS5 = Ok requestS5)
    by reflexivity.
  assert (Hargs : @gatherCNIArgs scenarioPlatform (Env requestS5) = Ok argsS5)
    by (vm_compute; reflexivity).
  assert (Hveth : HostVeth requestS5 <> "") by discriminate.
  pose proof (fun f Hf =>
    @handleCNIRequest_wellformed scenarioPlatform nat (scenarioState (Some f))
      bodyS5 requestS5 f "abc" "/proc/1/ns/net" argsS5 "default" "p"
      Hcr eq_refl eq_refl eq_refl Hveth Hargs eq_refl eq_refl Hf) as Hthm.
  split; [exact Hcr|]. split; [exact Hargs|].
  split; [exact (proj1 (Hthm echoHandler eq_refl))|].
  split.
  - exact (proj1 (proj2 (proj2 (Hthm echoHandler eq_refl))) "abc" 1%nat eq_refl).
  - exact (proj2 (proj2 (proj2 (Hthm failingHandler eq_refl)))
             "pod setup failed" 1%nat eq_refl).
Defined.

(** *** Startup: theorems *)

Section StartFacts.
Context `{Platform}.
Context {World : Type}.


Lemma names_differ : CNIServerSocketName <> CNIServerConfigFileName.
Proof. discriminate. Qed.

(** [os.Remove] of an old socket or config file inside a run directory,
    as [Start] uses it: what is there goes away, what is missing is
    tolerated. *)
Lemma remove_old dir name p (E : gmap string dirent) :
  (forall q, E !! name <> Some (SubDir q false)) ->
  match os_Remove dir name (Directory p E) with
  | (Some err, fs') => os_IsNotExist err = true /\ fs' = Directory p (delete name E)
  | (None, fs') => fs' = Directory p (delete name E)
  end.
Proof.
  intros Hok. unfold os_Remove.
  destruct (E !! name) as [[q d|q|q [|]]|] eqn:HE; cbn; try reflexivity.
  - exfalso. exact (Hok q eq_refl).
  - split; [reflexivity|]. rewrite delete_id by exact HE. reflexivity.
Qed.

(** Writing the config file, listening and setting the socket's mode in
    a directory that has neither name. *)
Lemma write_listen_chmod dir data p (E : gmap string dirent) :
  E !! CNIServerSocketName = None -> E !! CNIServerConfigFileName = None ->
  match ioutil_WriteFile dir CNIServerConfigFileName data (mode 4 4 4) (Directory p E) with
  | (None, fs1) =>
      match net_Listen dir CNIServerSocketName fs1 with
      | (None, fs2) =>
          os_Chmod dir CNIServerSocketName (mode 6 0 0) fs2 =
            (None, Directory p (<[CNIServerSocketName := SocketFile (mode 6 0 0)]>
               (<[CNIServerConfigFileName := RegularFile (created (mode 4 4 4)) data]> E)))
      | _ => False
      end
  | _ => False
  end.
Proof.
  intros Hs Hc. pose proof names_differ as Hne. cbn. rewrite Hc. cbn.
  rewrite lookup_insert_ne, Hs by congruence. cbn.
  rewrite lookup_insert_eq. cbn. rewrite insert_insert_eq. reflexivity.
Qed.





(** Without a handler [Start] gives up before it touches anything. *)
Lemma Start_no_handler (s : CNIServer World) fs :
  Start None s fs = (Err "no pod request handler", s, fs).
Proof. reflexivity. Qed.


End StartFacts.

(** A directory with something in it at the socket path stops [Start]:
    nothing is written and nothing listens. *)
Example Start_blocked :
  let fs := Directory (mode 7 0 0) (<["socket" := SubDir (mode 7 5 5) false]> ∅) in
  let s := server (scenarioState None) in
  @Start scenarioPlatform nat (Some echoHandler) s fs =
    (Err ("failed to remove old CNIServer socket: " +:+
          "remove /var/run/openshift-sdn/cniserver/socket: directory not empty"),
     {| requestFunc := Some echoHandler; rundir := rundir s; config := config s;
        keepAlivesEnabled := keepAlivesEnabled s; serving := None |}, fs).
Proof. vm_compute. reflexivity. Qed.



End CNIServer.

(** ** The master allocator: [master/egressip.go] *)

Module Master.
Local Open Scope Z_scope.

(** [time.Duration] counts nanoseconds. *)
Definition Second : Z := 1000000000.

Definition pollInterval : Z := 5 * Second.
Definition repollInterval : Z := Second.
Definition maxRetries : Z := 2.

(** *** Coalescing [UpdateEgressCIDRs]

    The two flags of [egressIPManager] that [UpdateEgressCIDRs] and
    [maybeDoUpdateEgressCIDRs] work on, both under the manager's lock. *)
Record updateFlags := {
  updatePending : bool;
  updatedAgain : bool
}.

(** The boolean tells whether [go utilwait.PollInfinite(time.Second, ...)]
    was started. *)
Definition UpdateEgressCIDRs (eim : updateFlags) : updateFlags * bool :=
  if updatePending eim
  then ({| updatePending := updatePending eim; updatedAgain := true |}, false)
  else ({| updatePending := true; updatedAgain := updatedAgain eim |}, true).

(** The boolean is the [done] that [PollInfinite] looks at. When it is
    [true] the call went on to [ReallocateEgressIPs] and the writeback of
    the HostSubnets, which touch neither flag. *)
Definition maybeDoUpdateEgressCIDRs (eim : updateFlags) : updateFlags * bool :=
  if updatedAgain eim
  then ({| updatePending := updatePending eim; updatedAgain := false |}, false)
  else ({| updatePending := false; updatedAgain := updatedAgain eim |}, true).

(** What happens to the manager: a notification from the tracker at time
    [t], or a poller started by [PollInfinite] calling its condition at
    time [t]. *)
Inductive event :=
| Notify (t : Z)
| Tick (t : Z).

(** The manager with the pollers that are alive (each with the time of
    its next call) and a record of what has happened: the time of the
    latest event, the time of the latest notification, and for every call
    of the condition its time and the latest notification before it,
    sorted into calls that ran the reallocation and calls that put it
    off. *)
Record timeline := {
  flags : updateFlags;
  pollers : list Z;
  now : Z;
  lastNotify : Z;
  writebacks : list (Z * Z);
  deferrals : list (Z * Z)
}.

Definition quantum : Z := Second.

(** Before the first notification: the Go zero value and no poller. *)
Definition idle (t0 : Z) : timeline :=
  {| flags := {| updatePending := false; updatedAgain := false |};
     pollers := []; now := t0; lastNotify := t0;
     writebacks := []; deferrals := [] |}.

(** Time does not run backwards and no poller is late: an event at time
    [t] happens only when every live poller is due at [t] or after. *)
Definition onTime (tl : timeline) (t : Z) : bool :=
  (now tl <=? t) && forallb (fun due => t <=? due) (pollers tl).

Fixpoint removeFirst (t : Z) (l : list Z) : list Z :=
  match l with
  | [] => []
  | x :: l' => if x =? t then l' else x :: removeFirst t l'
  end.

Definition step (tl : timeline) (e : event) : option timeline :=
  match e with
  | Notify t =>
      if onTime tl t then
        let '(eim, started) := UpdateEgressCIDRs (flags tl) in
        Some {| flags := eim;
                pollers := if started then pollers tl ++ [t + quantum] else pollers tl;
                now := t; lastNotify := t;
                writebacks := writebacks tl; deferrals := deferrals tl |}
      else None
  | Tick t =>
      if onTime tl t && existsb (Z.eqb t) (pollers tl) then
        let '(eim, done) := maybeDoUpdateEgressCIDRs (flags tl) in
        Some {| flags := eim;
                pollers := if done then removeFirst t (pollers tl)
                           else removeFirst t (pollers tl) ++ [t + quantum];
                now := t; lastNotify := lastNotify tl;
                writebacks := if done then writebacks tl ++ [(t, lastNotify tl)]
                              else writebacks tl;
                deferrals := if done then deferrals tl
                             else deferrals tl ++ [(t, lastNotify tl)] |}
      else None
  end.

Fixpoint run (tl : timeline) (es : list event) : option timeline :=
  match es with
  | [] => Some tl
  | e :: es' =>
      match step tl e with
      | Some tl' => run tl' es'
      | None => None
      end
  end.

(** A timeline that starts with a notification. *)
Definition startsWithNotify (es : list event) : Prop :=
  match es with
  | Notify _ :: _ => True
  | _ => False
  end.

(** What holds of every timeline the manager can be in. *)
Definition coalescing (tl : timeline) : Prop :=
  lastNotify tl <= now tl /\
  (forall T ln, (T, ln) ∈ writebacks tl -> ln + quantum <= T <= now tl) /\
  (forall d ln, (d, ln) ∈ deferrals tl -> d - quantum <= ln <= d) /\
  match pollers tl with
  | [] => updatePending (flags tl) = false /\ updatedAgain (flags tl) = false
  | [due] =>
      updatePending (flags tl) = true /\
      due - quantum <= now tl <= due /\
      (if updatedAgain (flags tl)
       then due - quantum <= lastNotify tl
       else lastNotify tl <= due - quantum)
  | _ => False
  end.

(** *** The liveness check *)

Record egressNode := {
  ip : string;
  name : string;
  offline : bool;
  retries : Z
}.

(** [corev1.NodeCondition], as far as [nodeIsReady] reads it. *)
Record NodeCondition := {
  Type_ : string;
  Status : string
}.

Definition NodeReady : string := "Ready".
Definition ConditionTrue : string := "True".
Definition ConditionFalse : string := "False".
Definition ConditionUnknown : string := "Unknown".

(** [node.Status.Conditions] *)
Definition Node := list NodeCondition.

Definition nodeIsReady (node : Node) : bool :=
  fold_left
    (fun nodeReady cond =>
       if String.eqb (Type_ cond) NodeReady then
         if String.eqb (Status cond) ConditionFalse
            || String.eqb (Status cond) ConditionUnknown
         then false else nodeReady
       else nodeReady)
    node true.

(** Calls that leave the manager. *)
Inductive call :=
| PingCall (ip : string) (timeout : Z)
| SetNodeOffline (ip : string) (offline : bool).

Inductive checkError :=
| NotFound (name : string).

Section Check.
(** [eim.nodeInformer.Lister().Get] and [eim.tracker.Ping] during one
    pass. *)
Variable Get : string -> option Node.
Variable Ping : string -> Z -> bool.

Definition setOffline (node : egressNode) (b : bool) : egressNode :=
  {| ip := ip node; name := name node; offline := b; retries := retries node |}.

Definition setRetries (node : egressNode) (r : Z) : egressNode :=
  {| ip := ip node; name := name node; offline := offline node; retries := r |}.

(** The body of the loop over [eim.monitorNodes] for a node that is
    [Ready]: the node afterwards, the calls made, and [needRetry]. *)
Definition probe (timeout : Z) (node : egressNode) (needRetry : bool)
  : egressNode * list call * bool :=
  let online := Ping (ip node) timeout in
  if offline node && online then
    (setOffline node false,
     [PingCall (ip node) timeout; SetNodeOffline (ip node) false], needRetry)
  else if negb (offline node) && negb online then
    let node := setRetries node (retries node + 1) in
    if maxRetries <? retries node then
      (setOffline (setRetries node 0) true,
       [PingCall (ip node) timeout; SetNodeOffline (ip node) true], needRetry)
    else (node, [PingCall (ip node) timeout], true)
  else (node, [PingCall (ip node) timeout], needRetry).

(** The loop of [check] over the monitored nodes in the order the map
    hands them out. The nodes are shared records, so what the loop writes
    stays written also when it returns early. *)
Fixpoint checkLoop (retrying : bool) (timeout : Z) (nodes : list egressNode)
    (needRetry : bool) : list egressNode * list call * (bool * option checkError) :=
  match nodes with
  | [] => ([], [], (needRetry, None))
  | node :: rest =>
      if retrying && (retries node =? 0) then
        let '(rest', calls, r) := checkLoop retrying timeout rest needRetry in
        (node :: rest', calls, r)
      else
        match Get (name node) with
        | None => (node :: rest, [], (false, Some (NotFound (name node))))
        | Some nn =>
            if negb (nodeIsReady nn) then
              (* Return when there's a not Ready node *)
              (setOffline node true :: rest,
               [SetNodeOffline (ip node) true], (false, None))
            else
              let '(node', calls, needRetry') := probe timeout node needRetry in
              let '(rest', calls', r) := checkLoop retrying timeout rest needRetry' in
              (node' :: rest', calls ++ calls', r)
        end
  end.

Definition check (retrying : bool) (nodes : list egressNode)
  : list egressNode * list call * (bool * option checkError) :=
  let timeout := if retrying then repollInterval else pollInterval in
  checkLoop retrying timeout nodes false.

(** One trip through the loop of [poll] when [stop] is open. The [retry]
    that [check] is called with is the one declared before the loop; the
    [retry, err := eim.check(retry)] inside the loop declares a new one,
    so the outer one stays [false]. The last component tells whether the
    trip ends with the sleep up to [pollInterval]. *)
Definition pollTrip (nodes : list egressNode) : list egressNode * list call * bool :=
  let retry := false in
  let '(nodes', calls, (retry', _)) := check retry nodes in
  (nodes', calls, negb retry').



End Check.

Definition callIP (c : call) : string :=
  match c with
  | PingCall ip _ => ip
  | SetNodeOffline ip _ => ip
  end.


(** A condition that makes a node not ready. *)
Definition readyFalseOrUnknown (cond : NodeCondition) : bool :=
  String.eqb (Type_ cond) NodeReady &&
  (String.eqb (Status cond) ConditionFalse || String.eqb (Status cond) ConditionUnknown).

(** Trips through the loop of [poll], one after the other, each with what
    the lister and [Ping] answer during that trip. *)
Fixpoint pollTrips (answers : list ((string -> option Node) * (string -> Z -> bool)))
    (nodes : list egressNode) : list egressNode * list (list call) :=
  match answers with
  | [] => (nodes, [])
  | (get, ping) :: answers' =>
      let '(nodes', calls, _) := pollTrip get ping nodes in
      let '(nodes'', later) := pollTrips answers' nodes' in
      (nodes'', calls :: later)
  end.

(** Two monitored nodes, the first of them not ready. *)
Definition nodeA : egressNode :=
  {| ip := "10.0.0.2"; name := "nodeA"; offline := false; retries := 0 |}.
Definition nodeB : egressNode :=
  {| ip := "10.0.0.3"; name := "nodeB"; offline := false; retries := 0 |}.

Definition readyIs (status : string) : Node :=
  [{| Type_ := "MemoryPressure"; Status := "False" |};
   {| Type_ := NodeReady; Status := status |}].

Definition getAdown (name : string) : option Node :=
  if String.eqb name "nodeA" then Some (readyIs ConditionFalse)
  else Some (readyIs ConditionTrue).

Definition getAllReady (name : string) : option Node := Some (readyIs ConditionTrue).

Definition pingFails (ip : string) (timeout : Z) : bool := false.
Definition pingAnswers (ip : string) (timeout : Z) : bool := true.

(** Five trips in which node B is ready throughout and its ping fails,
    answers, fails, answers, fails. *)
Definition flaky : list ((string -> option Node) * (string -> Z -> bool)) :=
  [(getAllReady, pingFails); (getAllReady, pingAnswers);
   (getAllReady, pingFails); (getAllReady, pingAnswers);
   (getAllReady, pingFails)].


(** *** Coalescing: theorems *)

Lemma quantum_pos : 0 < quantum.
Proof. reflexivity. Qed.

Lemma onTime_spec tl t :
  onTime tl t = true <-> now tl <= t /\ forall due, due ∈ pollers tl -> t <= due.
Proof.
  unfold onTime. rewrite andb_true_iff, Z.leb_le, forallb_forall.
  split; intros [Hn Hd]; (split; [exact Hn|]); intros due Hin.
  - apply Z.leb_le, Hd, list_elem_of_In, Hin.
  - apply Z.leb_le, Hd, list_elem_of_In, Hin.
Qed.

(** A bound on all recorded calls follows from the bound on the old ones
    and, for a call that was just added, from the facts at hand. *)
Ltac recorded Hold :=
  let Hin := fresh "Hin" in
  intros ? ? Hin;
  first
    [ specialize (Hold _ _ Hin); lia
    | apply elem_of_app in Hin;
      destruct Hin as [Hin|Hin%list_elem_of_singleton];
      [ specialize (Hold _ _ Hin); lia
      | injection Hin as -> ->; lia ] ].

Lemma step_coalescing tl e tl' :
  coalescing tl -> step tl e = Some tl' -> coalescing tl'.
Proof.
  pose proof quantum_pos as Hq.
  intros (Hln & Hwb & Hdf & Hp) Hstep. destruct e as [t|t]; cbn [step] in Hstep.
  - (* a notification *)
    destruct (onTime tl t) eqn:Hon; [|discriminate].
    apply onTime_spec in Hon. destruct Hon as [Hnow Hdue].
    destruct (flags tl) as [pending again] eqn:Hfl. cbn in Hp.
    destruct (pollers tl) as [|due [|due' ps]] eqn:Hps; [| |contradiction].
    + destruct Hp as [-> ->]. cbn in Hstep. injection Hstep as <-.
      unfold coalescing. cbn.
      split; [lia|split; [recorded Hwb|split; [recorded Hdf|]]].
      repeat split; lia.
    + destruct Hp as (-> & Hnd & Hag). cbn in Hstep. injection Hstep as <-.
      specialize (Hdue due ltac:(left)).
      unfold coalescing. cbn.
      split; [lia|split; [recorded Hwb|split; [recorded Hdf|]]].
      repeat split; lia.
  - (* a poller calls its condition *)
    destruct (onTime tl t) eqn:Hon; [|discriminate].
    apply onTime_spec in Hon. destruct Hon as [Hnow Hdue].
    destruct (existsb (Z.eqb t) (pollers tl)) eqn:Hex; [|discriminate].
    cbn [andb] in Hstep.
    destruct (flags tl) as [pending again] eqn:Hfl. cbn in Hp.
    destruct (pollers tl) as [|due [|due' ps]] eqn:Hps; [discriminate| |contradiction].
    cbn in Hex. rewrite orb_false_r in Hex. apply Z.eqb_eq in Hex. subst due.
    destruct Hp as (-> & Hnd & Hag).
    unfold maybeDoUpdateEgressCIDRs in Hstep. cbn in Hstep.
    rewrite Z.eqb_refl in Hstep.
    destruct again; cbn in Hstep; injection Hstep as <-;
      unfold coalescing; cbn;
      (split; [lia|split; [recorded Hwb|split; [recorded Hdf|]]]);
      repeat split; lia.
Qed.

Lemma idle_coalescing t0 : coalescing (idle t0).
Proof.
  unfold coalescing, idle. cbn.
  split; [lia|]. split; [intros ? ? Hin; inversion Hin|].
  split; [intros ? ? Hin; inversion Hin|]. split; reflexivity.
Qed.

Lemma run_coalescing es : forall tl tl',
  coalescing tl -> run tl es = Some tl' -> coalescing tl'.
Proof.
  induction es as [|e es IH]; intros tl tl' Hinv Hrun; cbn in Hrun.
  - injection Hrun as <-. exact Hinv.
  - destruct (step tl e) as [tl1|] eqn:Hstep; [|discriminate].
    eapply IH; [eapply step_coalescing; eassumption | exact Hrun].
Qed.

(** What the next event does to a manager without a poller and to one
    with a poller. *)
Lemma step_first_notify tl t :
  pollers tl = [] -> updatePending (flags tl) = false -> now tl <= t ->
  exists tl', step tl (Notify t) = Some tl' /\
    pollers tl' = [t + quantum] /\ updatePending (flags tl') = true /\
    updatedAgain (flags tl') = updatedAgain (flags tl) /\
    writebacks tl' = writebacks tl.
Proof.
  intros Hps Hpend Hnow. unfold step, UpdateEgressCIDRs.
  rewrite (proj2 (onTime_spec tl t)), Hpend, Hps.
  - eexists. split; [reflexivity|]. cbn. auto.
  - split; [exact Hnow|]. rewrite Hps. intros due Hin. inversion Hin.
Qed.

Lemma step_next_notify tl due t :
  pollers tl = [due] -> updatePending (flags tl) = true -> now tl <= t <= due ->
  exists tl', step tl (Notify t) = Some tl' /\
    pollers tl' = [due] /\ updatePending (flags tl') = true /\
    updatedAgain (flags tl') = true /\
    writebacks tl' = writebacks tl.
Proof.
  intros Hps Hpend Hnow. unfold step, UpdateEgressCIDRs.
  rewrite (proj2 (onTime_spec tl t)), Hpend, Hps.
  - eexists. split; [reflexivity|]. cbn. auto.
  - split; [lia|]. rewrite Hps. intros d ->%list_elem_of_singleton. lia.
Qed.

Lemma step_tick tl due :
  pollers tl = [due] -> now tl <= due ->
  exists tl', step tl (Tick due) = Some tl' /\
    if updatedAgain (flags tl)
    then pollers tl' = [due + quantum] /\ updatedAgain (flags tl') = false /\
         updatePending (flags tl') = updatePending (flags tl) /\
         writebacks tl' = writebacks tl
    else pollers tl' = [] /\ updatePending (flags tl') = false /\
         writebacks tl' = writebacks tl ++ [(due, lastNotify tl)].
Proof.
  intros Hps Hnow. unfold step, maybeDoUpdateEgressCIDRs.
  rewrite (proj2 (onTime_spec tl due)), Hps.
  - destruct (updatedAgain (flags tl)); eexists; cbn; rewrite !Z.eqb_refl; cbn;
      (split; [reflexivity|]); cbn; auto.
  - split; [lia|]. rewrite Hps. intros d ->%list_elem_of_singleton. lia.
Qed.

(** C5. From the first notification on there is at most one poller, and
    there is one exactly while an update is pending. The first
    notification starts it with its first call one quantum later; a
    notification while it waits only raises [updatedAgain], and the call
    that finds the flag raised lowers it and comes back one quantum later.
    The call that finds it lowered runs the reallocation and the writeback
    and ends the poller. Hence every writeback comes a full quantum or more
    after the latest notification, every call that put the work off had a
    notification in the quantum before it, and once no notification is
    waiting the work is at most one quantum away. *)
Theorem UpdateEgressCIDRs_coalesced t0 es tl :
  run (idle t0) es = Some tl ->
  (length (pollers tl) <= 1)%nat /\
  (updatePending (flags tl) = true <-> pollers tl <> []) /\
  (forall T ln, (T, ln) ∈ writebacks tl -> ln + quantum <= T) /\
  (forall d ln, (d, ln) ∈ deferrals tl -> d - quantum <= ln <= d) /\
  (pollers tl = [] ->
   forall t, now tl <= t ->
     exists tl', step tl (Notify t) = Some tl' /\
       pollers tl' = [t + quantum] /\ updatedAgain (flags tl') = false /\
       writebacks tl' = writebacks tl) /\
  (forall due, pollers tl = [due] ->
     now tl <= due <= now tl + quantum /\
     (forall t, now tl <= t <= due ->
        exists tl', step tl (Notify t) = Some tl' /\
          pollers tl' = [due] /\ updatedAgain (flags tl') = true /\
          writebacks tl' = writebacks tl) /\
     (updatedAgain (flags tl) = true ->
        exists tl', step tl (Tick due) = Some tl' /\
          pollers tl' = [due + quantum] /\ updatedAgain (flags tl') = false /\
          writebacks tl' = writebacks tl) /\
     (updatedAgain (flags tl) = false ->
        lastNotify tl + quantum <= due /\
        exists tl', step tl (Tick due) = Some tl' /\
          pollers tl' = [] /\ updatePending (flags tl') = false /\
          writebacks tl' = writebacks tl ++ [(due, lastNotify tl)])).
Proof.
  intros Hrun.
  pose proof (run_coalescing es _ _ (idle_coalescing t0) Hrun) as Hinv.
  destruct Hinv as (Hln & Hwb & Hdf & Hp).
  destruct (pollers tl) as [|due [|due' ps]] eqn:Hps; [| |contradiction].
  - destruct Hp as [Hpend Hag].
    split; [cbn; lia|]. split; [rewrite Hpend; split; [discriminate|congruence]|].
    split; [intros T ln Hin; specialize (Hwb T ln Hin); lia|].
    split; [exact Hdf|]. split; [|intros due [=]].
    intros _ t Ht.
    destruct (step_first_notify tl t Hps Hpend Ht) as (tl' & Hs & Hp' & _ & Ha' & Hw').
    exists tl'. rewrite Ha', Hag. auto.
  - destruct Hp as (Hpend & Hnd & Hag).
    split; [cbn; lia|]. split; [rewrite Hpend; split; [discriminate|reflexivity]|].
    split; [intros T ln Hin; specialize (Hwb T ln Hin); lia|].
    split; [exact Hdf|]. split; [intros [=]|].
    intros due' [= <-]. split; [lia|]. split; [|split].
    + intros t Ht.
      destruct (step_next_notify tl due t Hps Hpend Ht) as (tl' & Hs & Hp' & _ & Ha' & Hw').
      exists tl'. auto.
    + intros Ha. destruct (step_tick tl due Hps ltac:(lia)) as (tl' & Hs & Hres).
      rewrite Ha in Hres. destruct Hres as (? & ? & ? & ?). exists tl'. auto.
    + intros Ha. rewrite Ha in Hag. split; [lia|].
      destruct (step_tick tl due Hps ltac:(lia)) as (tl' & Hs & Hres).
      rewrite Ha in Hres. destruct Hres as (? & ? & ?). exists tl'. auto.
Qed.

(** Two notifications half a second apart: the call after one second puts
    the work off, the call after two seconds runs it. *)
Definition burst : list event :=
  [Notify 0; Notify 500000000; Tick 1000000000; Tick 2000000000].

Lemma UpdateEgressCIDRs_coalesced_witness :
  exists tl,
    run (idle 0) burst = Some tl /\
    writebacks tl = [(2000000000, 500000000)] /\
    deferrals tl = [(1000000000, 500000000)] /\
    pollers tl = [] /\
    (forall T ln, (T, ln) ∈ writebacks tl -> ln + quantum <= T).
Proof.
  eexists. split; [vm_compute; reflexivity|].
  split; [reflexivity|]. split; [reflexivity|]. split; [reflexivity|].
  exact (proj1 (proj2 (proj2
           (UpdateEgressCIDRs_coalesced 0 burst _ eq_refl)))).
Defined.

(** *** The liveness check: theorems *)

Lemma nodeIsReady_fold (node : Node) (acc : bool) :
  fold_left
    (fun nodeReady cond =>
       if String.eqb (Type_ cond) NodeReady then
         if String.eqb (Status cond) ConditionFalse
            || String.eqb (Status cond) ConditionUnknown
         then false else nodeReady
       else nodeReady)
    node acc
  = acc && negb (existsb readyFalseOrUnknown node).
Proof.
  revert acc. induction node as [|cond node IH]; intros acc; cbn [fold_left existsb].
  - rewrite andb_true_r. reflexivity.
  - rewrite IH. unfold readyFalseOrUnknown at 2.
    destruct (String.eqb (Type_ cond) NodeReady); cbn [andb orb];
      [|reflexivity].
    destruct (String.eqb (Status cond) ConditionFalse || String.eqb (Status cond) ConditionUnknown);
      cbn [andb orb negb]; [rewrite andb_false_r|]; reflexivity.
Qed.


Section CheckFacts.
Variable Get : string -> option Node.
Variable Ping : string -> Z -> bool.

(** What [probe] writes and calls. *)
Lemma probe_calls timeout node needRetry :
  forall c, c ∈ (probe Ping timeout node needRetry).1.2 -> callIP c = ip node.
Proof.
  intros c. unfold probe.
  destruct (offline node && Ping (ip node) timeout); cbn.
  { intros [->|[->|[]%elem_of_nil]%elem_of_cons]%elem_of_cons; reflexivity. }
  destruct (negb (offline node) && negb (Ping (ip node) timeout)); cbn.
  - destruct (maxRetries <? retries node + 1); cbn.
    + intros [->|[->|[]%elem_of_nil]%elem_of_cons]%elem_of_cons; reflexivity.
    + intros [->|[]%elem_of_nil]%elem_of_cons; reflexivity.
  - intros [->|[]%elem_of_nil]%elem_of_cons; reflexivity.
Qed.


Lemma probe_ip timeout node needRetry :
  ip (probe Ping timeout node needRetry).1.1 = ip node.
Proof.
  unfold probe.
  destruct (offline node && Ping (ip node) timeout); [reflexivity|].
  destruct (negb (offline node) && negb (Ping (ip node) timeout)); [|reflexivity].
  cbn. destruct (maxRetries <? retries node + 1); reflexivity.
Qed.

(** The calls of a pass are about the nodes of the pass. *)
Lemma checkLoop_calls retrying timeout nodes : forall needRetry c,
  c ∈ (checkLoop Get Ping retrying timeout nodes needRetry).1.2 ->
  callIP c ∈ map ip nodes.
Proof.
  induction nodes as [|node rest IH]; intros needRetry c; cbn [checkLoop].
  - cbn. intros []%elem_of_nil.
  - destruct (retrying && (retries node =? 0)).
    { specialize (IH needRetry c).
      destruct (checkLoop Get Ping retrying timeout rest needRetry) as [[rest' calls] r].
      cbn in *. intros Hin. right. exact (IH Hin). }
    destruct (Get (name node)) as [nn|]; [|cbn; intros []%elem_of_nil].
    destruct (negb (nodeIsReady nn)).
    { cbn. intros [->|[]%elem_of_nil]%elem_of_cons. left. }
    pose proof (probe_calls timeout node needRetry c) as Hp.
    destruct (probe Ping timeout node needRetry) as [[node' calls] needRetry'].
    specialize (IH needRetry' c).
    destruct (checkLoop Get Ping retrying timeout rest needRetry') as [[rest' calls'] r].
    cbn in *. intros [Hin|Hin]%elem_of_app.
    + rewrite (Hp Hin). left.
    + right. exact (IH Hin).
Qed.









End CheckFacts.





Lemma monitored_NoDup : NoDup (map ip ([] ++ nodeA :: [nodeB])).
Proof.
  cbn. apply NoDup_cons. split; [|apply NoDup_singleton].
  intros [=]%list_elem_of_singleton.
Qed.



End Master.

(** ** The node watcher: [node/egressip.go] *)

Module NodeWatcher.
Import Go.
Local Open Scope string_scope.

Record egressNode := {
  nodeIP : string;
  offline : bool;
  egressIPs : gset string;
  retries : Z
}.

Record egressIPMetaData := {
  metaNodeIP : string;
  packetMark : string
}.

(** [common.EgressIPAssignment] *)
Record EgressIPAssignment := {
  NodeIP : string;
  EgressIP : string
}.

(** [netlink.Addr]: the address with its prefix length as text, the
    address alone, and the label. *)
Record Addr := {
  IPNet : string;
  IP : string;
  Label : string
}.

Inductive Errno := EEXIST | EADDRNOTAVAIL.

(** What the watcher takes from the host's network stack and from the
    components next to it. *)
Class HostNet := {
  (** [*net.IPNet] *)
  Net : Type;
  (** [GetLinkDetails(ip)]: the name of the link that carries [ip] and the
      network [ip] is in *)
  GetLinkDetails : string -> result (string * Net);
  Net_MaskSize : Net -> Z;
  Net_String : Net -> string;
  Net_Contains : Net -> string -> bool;
  (** [netlink.ParseAddr]; the address comes back without a label *)
  netlink_ParseAddr : string -> result Addr;
  (** the error, if any, of the iptables and OVS components *)
  iptables_AddEgressIPRules : string -> string -> option string;
  iptables_DeleteEgressIPRules : string -> string -> option string;
  oc_SetNamespaceEgressViaEgressIPs : Z -> list egressIPMetaData -> option string
}.

(** What the watcher does to the world around it. *)
Inductive effect :=
| AddrAdd (link : string) (addr : Addr)
| AddrDel (link : string) (addr : Addr)
| Arping (link egressIP : string)
| AddEgressIPRules (egressIP mark : string)
| DeleteEgressIPRules (egressIP mark : string)
| SyncEgressIPRules
| OvsViaEgressIPs (vnid : Z) (egressIPsMetaData : list egressIPMetaData)
| PollUntil (stop : nat)
| Close (stop : nat)
| HandleError (msg : string)
| TestModeSend (msg : string).

(** The watcher, the addresses on the host's links, the number of
    channels made so far (a channel is known by its number), and the
    effects so far. *)
Record egressIPWatcher := {
  localIP : string;
  masqueradeBit : Z;
  iptablesMark : gmap string string;
  monitorNodes : gmap string egressNode;
  stop : option nat;
  testMode : bool;
  linkAddrs : list (string * Addr);
  chans : nat;
  effects : list effect
}.

Definition newEgressIPWatcher (localIP : string) (masqueradeBit : option Z)
    (linkAddrs : list (string * Addr)) : egressIPWatcher :=
  {| localIP := localIP;
     masqueradeBit := Mark.newMasqueradeBit masqueradeBit;
     iptablesMark := ∅; monitorNodes := ∅; stop := None; testMode := false;
     linkAddrs := linkAddrs; chans := 0; effects := [] |}.

Definition emit (e : effect) (eip : egressIPWatcher) : egressIPWatcher :=
  {| localIP := localIP eip; masqueradeBit := masqueradeBit eip;
     iptablesMark := iptablesMark eip; monitorNodes := monitorNodes eip;
     stop := stop eip; testMode := testMode eip; linkAddrs := linkAddrs eip;
     chans := chans eip; effects := effects eip ++ [e] |}.

Definition setIptablesMark (m : gmap string string) (eip : egressIPWatcher) :=
  {| localIP := localIP eip; masqueradeBit := masqueradeBit eip;
     iptablesMark := m; monitorNodes := monitorNodes eip;
     stop := stop eip; testMode := testMode eip; linkAddrs := linkAddrs eip;
     chans := chans eip; effects := effects eip |}.

Definition setMonitorNodes (m : gmap string egressNode) (eip : egressIPWatcher) :=
  {| localIP := localIP eip; masqueradeBit := masqueradeBit eip;
     iptablesMark := iptablesMark eip; monitorNodes := m;
     stop := stop eip; testMode := testMode eip; linkAddrs := linkAddrs eip;
     chans := chans eip; effects := effects eip |}.

Definition setLinkAddrs (l : list (string * Addr)) (eip : egressIPWatcher) :=
  {| localIP := localIP eip; masqueradeBit := masqueradeBit eip;
     iptablesMark := iptablesMark eip; monitorNodes := monitorNodes eip;
     stop := stop eip; testMode := testMode eip; linkAddrs := l;
     chans := chans eip; effects := effects eip |}.

(** [eip.stop = make(chan struct{})] *)
Definition makeStop (eip : egressIPWatcher) :=
  {| localIP := localIP eip; masqueradeBit := masqueradeBit eip;
     iptablesMark := iptablesMark eip; monitorNodes := monitorNodes eip;
     stop := Some (chans eip); testMode := testMode eip; linkAddrs := linkAddrs eip;
     chans := S (chans eip); effects := effects eip |}.

Definition clearStop (eip : egressIPWatcher) :=
  {| localIP := localIP eip; masqueradeBit := masqueradeBit eip;
     iptablesMark := iptablesMark eip; monitorNodes := monitorNodes eip;
     stop := None; testMode := testMode eip; linkAddrs := linkAddrs eip;
     chans := chans eip; effects := effects eip |}.

(** [%d] *)
Definition itoa (n : Z) : string := NilZero.string_of_int (Z.to_int n).

(** *** netlink on the host's address table *)

Definition sameAddr (link : string) (addr : Addr) (entry : string * Addr) : bool :=
  String.eqb (fst entry) link && String.eqb (IPNet (snd entry)) (IPNet addr).

Definition netlink_AddrAdd (link : string) (addr : Addr) (eip : egressIPWatcher)
  : option Errno * egressIPWatcher :=
  let eip := emit (AddrAdd link addr) eip in
  if existsb (sameAddr link addr) (linkAddrs eip) then (Some EEXIST, eip)
  else (None, setLinkAddrs (linkAddrs eip ++ [(link, addr)]) eip).

Definition netlink_AddrDel (link : string) (addr : Addr) (eip : egressIPWatcher)
  : option Errno * egressIPWatcher :=
  let eip := emit (AddrDel link addr) eip in
  if existsb (sameAddr link addr) (linkAddrs eip)
  then (None, setLinkAddrs (filter (fun e => negb (sameAddr link addr e)) (linkAddrs eip)) eip)
  else (Some EADDRNOTAVAIL, eip).

Definition netlink_AddrList (link : string) (eip : egressIPWatcher) : list Addr :=
  map snd (filter (fun e => String.eqb (fst e) link) (linkAddrs eip)).

Definition Errno_Error (e : Errno) : string :=
  match e with
  | EEXIST => "file exists"
  | EADDRNOTAVAIL => "cannot assign requested address"
  end.

(** *** The watcher *)

Definition egressIPLabel (linkName : string) : result string :=
  (* An address label must start with the link name plus ":", and must be
     at most 15 characters long. *)
  let label := linkName +:+ ":eip" in
  if (15 <? String.length label)%nat
  then Err ("link name " +:+ quoted linkName +:+ " is too long")
  else Ok label.

Section Watcher.
Context `{HostNet}.

Definition assignEgressIP (egressIP mark : string) (eip : egressIPWatcher)
  : option string * egressIPWatcher :=
  if String.eqb egressIP (localIP eip) then
    (Some ("desired egress IP " +:+ quoted egressIP +:+ " is the node IP"), eip)
  else if testMode eip then
    (None, emit (TestModeSend ("claim " +:+ egressIP)) eip)
  else
    match GetLinkDetails (localIP eip) with
    | Err err => (Some ("unable to get egress link details: " +:+ err), eip)
    | Ok (localEgressLink, localEgressNet) =>
    let localEgressIPMaskLen := Net_MaskSize localEgressNet in
    let egressIPNet := egressIP +:+ "/" +:+ itoa localEgressIPMaskLen in
    match netlink_ParseAddr egressIPNet with
    | Err err =>
        (Some ("could not parse egress IP " +:+ quoted egressIPNet +:+ ": " +:+ err), eip)
    | Ok addr =>
    if negb (Net_Contains localEgressNet (IP addr)) then
      (Some ("egress IP " +:+ quoted egressIP +:+ " is not in local network " +:+
             Net_String localEgressNet +:+ " of interface " +:+ localEgressLink), eip)
    else
    (* addr.Label, _ = egressIPLabel(localEgressLink) *)
    let label := match egressIPLabel localEgressLink with
                 | Ok label => label
                 | Err _ => ""
                 end in
    let addr := {| IPNet := IPNet addr; IP := IP addr; Label := label |} in
    match netlink_AddrAdd localEgressLink addr eip with
    | (Some EADDRNOTAVAIL as err, eip) =>
        (Some ("could not add egress IP " +:+ quoted egressIPNet +:+ " to " +:+
               localEgressLink +:+ ": " +:+ Errno_Error EADDRNOTAVAIL), eip)
    | (_, eip) =>
        (* the address is there now, or was there already (EEXIST) *)
        let eip := emit (Arping localEgressLink egressIP) eip in
        let eip := emit (AddEgressIPRules egressIP mark) eip in
        match iptables_AddEgressIPRules egressIP mark with
        | Some err => (Some ("could not add egress IP iptables rule: " +:+ err), eip)
        | None => (None, eip)
        end
    end end end.

Definition releaseEgressIP (egressIP mark : string) (eip : egressIPWatcher)
  : option string * egressIPWatcher :=
  if String.eqb egressIP (localIP eip) then (None, eip)
  else if testMode eip then
    (None, emit (TestModeSend ("release " +:+ egressIP)) eip)
  else
    match GetLinkDetails (localIP eip) with
    | Err err => (Some ("unable to get egress link details: " +:+ err), eip)
    | Ok (localEgressLink, localEgressNet) =>
    let localEgressIPMaskLen := Net_MaskSize localEgressNet in
    let egressIPNet := egressIP +:+ "/" +:+ itoa localEgressIPMaskLen in
    match netlink_ParseAddr egressIPNet with
    | Err err =>
        (Some ("could not parse egress IP " +:+ quoted egressIPNet +:+ ": " +:+ err), eip)
    | Ok addr =>
    match netlink_AddrDel localEgressLink addr eip with
    | (Some EEXIST, eip) =>
        (Some ("could not delete egress IP " +:+ quoted egressIPNet +:+ " from " +:+
               localEgressLink +:+ ": " +:+ Errno_Error EEXIST), eip)
    | (_, eip) =>
        (* the address is gone now, or was not there (EADDRNOTAVAIL) *)
        let eip := emit (DeleteEgressIPRules egressIP mark) eip in
        match iptables_DeleteEgressIPRules egressIP mark with
        | Some err => (Some ("could not delete egress IP iptables rule: " +:+ err), eip)
        | None => (None, eip)
        end
    end end end.

Definition addEgressIP (nodeIP egressIP : string) (eip : egressIPWatcher)
  : egressIPWatcher :=
  match monitorNodes eip !! nodeIP with
  | Some node =>
      setMonitorNodes
        (<[nodeIP := {| nodeIP := NodeWatcher.nodeIP node; offline := offline node;
                        egressIPs := egressIPs node ∪ {[egressIP]};
                        retries := retries node |}]> (monitorNodes eip)) eip
  | None =>
      let eip :=
        setMonitorNodes
          (<[nodeIP := {| nodeIP := nodeIP; offline := false;
                          egressIPs := {[egressIP]}; retries := 0 |}]>
             (monitorNodes eip)) eip in
      if (size (monitorNodes eip) =? 1)%nat then
        let eip := makeStop eip in
        match stop eip with
        | Some c => emit (PollUntil c) eip
        | None => eip
        end
      else eip
  end.

Definition removeEgressIP (nodeIP egressIP : string) (eip : egressIPWatcher)
  : egressIPWatcher :=
  match monitorNodes eip !! nodeIP with
  | None => eip
  | Some node =>
      let node := {| nodeIP := NodeWatcher.nodeIP node; offline := offline node;
                     egressIPs := egressIPs node ∖ {[egressIP]};
                     retries := retries node |} in
      let eip := setMonitorNodes (<[nodeIP := node]> (monitorNodes eip)) eip in
      if (size (egressIPs node) =? 0)%nat then
        let eip := setMonitorNodes (delete nodeIP (monitorNodes eip)) eip in
        match stop eip with
        | Some c =>
            if (size (monitorNodes eip) =? 0)%nat
            then clearStop (emit (Close c) eip)
            else eip
        | None => eip
        end
      else eip
  end.

Definition ClaimEgressIP (vnid : Z) (egressIP nodeIP : string) (eip : egressIPWatcher)
  : egressIPWatcher :=
  if String.eqb nodeIP (localIP eip) then
    let mark := Mark.getMarkForVNID vnid (masqueradeBit eip) in
    let eip := setIptablesMark (<[egressIP := mark]> (iptablesMark eip)) eip in
    match assignEgressIP egressIP mark eip with
    | (Some err, eip) =>
        emit (HandleError ("Error assigning Egress IP " +:+ quoted egressIP +:+ ": " +:+ err)) eip
    | (None, eip) => eip
    end
  else addEgressIP nodeIP egressIP eip.

Definition ReleaseEgressIP (egressIP nodeIP : string) (eip : egressIPWatcher)
  : egressIPWatcher :=
  if String.eqb nodeIP (localIP eip) then
    let mark := default "" (iptablesMark eip !! egressIP) in
    let eip := setIptablesMark (delete egressIP (iptablesMark eip)) eip in
    match releaseEgressIP egressIP mark eip with
    | (Some err, eip) =>
        emit (HandleError ("Error releasing Egress IP " +:+ quoted egressIP +:+ ": " +:+ err)) eip
    | (None, eip) => eip
    end
  else removeEgressIP nodeIP egressIP eip.

Definition SetNamespaceEgressViaEgressIPs (vnid : Z)
    (activeEgressIPs : list EgressIPAssignment) (eip : egressIPWatcher)
  : egressIPWatcher :=
  let egressIPsMetaData :=
    map (fun egressIPAssignment =>
           {| metaNodeIP := NodeIP egressIPAssignment;
              packetMark := default "" (iptablesMark eip !! EgressIP egressIPAssignment) |})
        activeEgressIPs in
  let eip := emit (OvsViaEgressIPs vnid egressIPsMetaData) eip in
  match oc_SetNamespaceEgressViaEgressIPs vnid egressIPsMetaData with
  | Some err =>
      emit (HandleError ("Error updating Namespace egress rules for VNID " +:+
                         itoa vnid +:+ ": " +:+ err)) eip
  | None => eip
  end.

(** The loop of [Synced] over the addresses of the link. *)
Definition cleanStale (link label : string) (eip : egressIPWatcher) (addr : Addr)
  : egressIPWatcher :=
  if String.eqb (Label addr) label
     && String.eqb (default "" (iptablesMark eip !! IP addr)) ""
  then
    match netlink_AddrDel link addr eip with
    | (Some err, eip) =>
        emit (HandleError ("Could not clean up stale egress IP: " +:+ Errno_Error err)) eip
    | (None, eip) => eip
    end
  else eip.

Definition Synced (eip : egressIPWatcher) : egressIPWatcher :=
  match GetLinkDetails (localIP eip) with
  | Err _ =>
      (* shouldn't happen, but obviously there's nothing to clean up... *)
      eip
  | Ok (link, _) =>
      match egressIPLabel link with
      | Err err =>
          emit (HandleError ("Could not check for stale egress IPs: " +:+ err)) eip
      | Ok label =>
          let addrs := netlink_AddrList link eip in
          let eip := fold_left (cleanStale link label) addrs eip in
          emit SyncEgressIPRules eip
      end
  end.

(** *** Callbacks from the tracker *)

Inductive callback :=
| Claim (vnid : Z) (egressIP nodeIP : string)
| Release (egressIP nodeIP : string)
| ViaEgressIPs (vnid : Z) (activeEgressIPs : list EgressIPAssignment)
| SyncedCallback.

Definition deliver (eip : egressIPWatcher) (cb : callback) : egressIPWatcher :=
  match cb with
  | Claim vnid egressIP nodeIP => ClaimEgressIP vnid egressIP nodeIP eip
  | Release egressIP nodeIP => ReleaseEgressIP egressIP nodeIP eip
  | ViaEgressIPs vnid ips => SetNamespaceEgressViaEgressIPs vnid ips eip
  | SyncedCallback => Synced eip
  end.

Definition deliverAll (eip : egressIPWatcher) (cbs : list callback) : egressIPWatcher :=
  fold_left deliver cbs eip.

End Watcher.

(** Modelled from the spec: which node holds an egress IP after a
    history of callbacks, by the account of the tracker
    ([common.EgressIPTracker], which is not among these files). *)
Definition track (claims : gmap string string) (cb : callback) : gmap string string :=
  match cb with
  | Claim _ egressIP nodeIP => <[egressIP := nodeIP]> claims
  | Release egressIP _ => delete egressIP claims
  | _ => claims
  end.

Definition claimedBy (cbs : list callback) : gmap string string :=
  fold_left track cbs ∅.

(** Modelled from the spec: the order of the callbacks of the tracker
    ([common.EgressIPTracker], which is not among these files). The
    tracker releases an egress IP before it claims it again, and releases
    it from the node that holds it. *)
Fixpoint releaseBeforeClaim (claims : gmap string string) (cbs : list callback) : Prop :=
  match cbs with
  | [] => True
  | Claim _ egressIP nodeIP :: cbs' =>
      claims !! egressIP = None /\
      releaseBeforeClaim (<[egressIP := nodeIP]> claims) cbs'
  | Release egressIP nodeIP :: cbs' =>
      claims !! egressIP = Some nodeIP /\
      releaseBeforeClaim (delete egressIP claims) cbs'
  | _ :: cbs' => releaseBeforeClaim claims cbs'
  end.

(** The pollers that are running: started and their channel not closed. *)
Definition running (effs : list effect) : list nat :=
  fold_left
    (fun live e =>
       match e with
       | PollUntil c => (live ++ [c])%list
       | Close c => filter (fun c' => negb (Nat.eqb c' c)) live
       | _ => live
       end)
    effs [].

(** Effects that neither start nor stop a poller. *)
Definition quiet (e : effect) : bool :=
  match e with
  | PollUntil _ | Close _ => false
  | _ => true
  end.

(** [eip'] is [eip] but for the host's addresses and some quiet effects. *)
Definition frame (eip eip' : egressIPWatcher) : Prop :=
  localIP eip' = localIP eip /\
  masqueradeBit eip' = masqueradeBit eip /\
  iptablesMark eip' = iptablesMark eip /\
  monitorNodes eip' = monitorNodes eip /\
  stop eip' = stop eip /\
  testMode eip' = testMode eip /\
  chans eip' = chans eip /\
  exists es, effects eip' = (effects eip ++ es)%list /\ forallb quiet es = true.

(** A step that touches neither the monitored set nor the channel. *)
Definition localOnly (eip eip' : egressIPWatcher) : Prop :=
  monitorNodes eip' = monitorNodes eip /\ stop eip' = stop eip /\
  chans eip' = chans eip /\
  exists es, effects eip' = (effects eip ++ es)%list /\ forallb quiet es = true.

(** The stop channel is there exactly while a node is monitored; every
    monitored node has an egress IP; the one running poller is the one
    that listens on the stop channel. *)
Definition monitoring (eip : egressIPWatcher) : Prop :=
  (stop eip = None <-> monitorNodes eip = ∅) /\
  (forall ip node, monitorNodes eip !! ip = Some node -> egressIPs node <> ∅) /\
  running (effects eip) = match stop eip with Some c => [c] | None => [] end /\
  (forall c, stop eip = Some c -> (c < chans eip)%nat).

(** What one callback does to the poller: it starts one when the first
    node comes to be monitored, it closes the stop channel when the last
    node goes, and otherwise it leaves the channel and the poller alone. *)
Definition transition (eip eip' : egressIPWatcher) : Prop :=
  (monitorNodes eip = ∅ -> monitorNodes eip' <> ∅ ->
   exists c, stop eip' = Some c /\
     effects eip' = (effects eip ++ [PollUntil c])%list /\
     running (effects eip) = [] /\ running (effects eip') = [c]) /\
  (monitorNodes eip <> ∅ -> monitorNodes eip' = ∅ ->
   exists c, stop eip = Some c /\ stop eip' = None /\
     effects eip' = (effects eip ++ [Close c])%list /\
     running (effects eip) = [c] /\ running (effects eip') = []) /\
  ((monitorNodes eip = ∅ <-> monitorNodes eip' = ∅) ->
   stop eip' = stop eip /\
   running (effects eip') = running (effects eip) /\
   exists es, effects eip' = (effects eip ++ es)%list /\ forallb quiet es = true).

(** Every egress IP with a mark is one the local node holds. *)
Definition marksLocal (eip : egressIPWatcher) (claims : gmap string string) : Prop :=
  forall egressIP, is_Some (iptablesMark eip !! egressIP) ->
    claims !! egressIP = Some (localIP eip).

(** The operations of a local claim: address assignment, gratuitous ARP,
    iptables mark rule. *)
Definition localClaimOperation (e : effect) : bool :=
  match e with
  | AddrAdd _ _ | Arping _ _ | AddEgressIPRules _ _ => true
  | _ => false
  end.

(** *** A host to run the scenarios on *)

Definition scenarioNet (linkName : string) : HostNet :=
  {| Net := unit;
     GetLinkDetails := fun ip => Ok (linkName, ());
     Net_MaskSize := fun _ => 24%Z;
     Net_String := fun _ => "192.168.1.0/24";
     Net_Contains := fun _ ip => String.prefix "192.168.1." ip;
     netlink_ParseAddr := fun s =>
       Ok {| IPNet := s; IP := String.substring 0 (String.length s - 3) s; Label := "" |};
     iptables_AddEgressIPRules := fun _ _ => None;
     iptables_DeleteEgressIPRules := fun _ _ => None;
     oc_SetNamespaceEgressViaEgressIPs := fun _ _ => None |}.

Definition scenarioWatcher : egressIPWatcher :=
  newEgressIPWatcher "192.168.1.2" (Some 0%Z) [].

(** A link whose name leaves no room for [":eip"]. *)
Definition longLink : string := "bond0.vlan100".

(** Node [192.168.1.3] claims the egress IP of namespace 42. *)
Definition remoteClaim : list callback :=
  [Claim 42 "192.168.1.100" "192.168.1.3"].

(** *** Theorems *)

Lemma frame_refl eip : frame eip eip.
Proof.
  unfold frame. repeat split; try reflexivity.
  exists []. rewrite app_nil_r. split; reflexivity.
Qed.

Lemma frame_trans eip1 eip2 eip3 : frame eip1 eip2 -> frame eip2 eip3 -> frame eip1 eip3.
Proof.
  intros (A1 & A2 & A3 & A4 & A5 & A6 & A7 & es1 & E1 & Q1)
         (B1 & B2 & B3 & B4 & B5 & B6 & B7 & es2 & E2 & Q2).
  unfold frame. repeat split; try congruence.
  exists (es1 ++ es2)%list. split.
  - rewrite E2, E1, app_assoc. reflexivity.
  - rewrite forallb_app, Q1, Q2. reflexivity.
Qed.

Lemma frame_emit e eip : quiet e = true -> frame eip (emit e eip).
Proof.
  intros Hq. unfold frame. cbn. repeat split; try reflexivity.
  exists [e]. split; [reflexivity|]. cbn. rewrite Hq. reflexivity.
Qed.

Lemma frame_setLinkAddrs l eip : frame eip (setLinkAddrs l eip).
Proof.
  unfold frame. cbn. repeat split; try reflexivity.
  exists []. rewrite app_nil_r. split; reflexivity.
Qed.

Lemma frame_AddrAdd link addr eip : frame eip (netlink_AddrAdd link addr eip).2.
Proof.
  unfold netlink_AddrAdd. destruct (existsb _ _); cbn [snd].
  - apply frame_emit. reflexivity.
  - eapply frame_trans; [|apply frame_setLinkAddrs]. apply frame_emit. reflexivity.
Qed.

Lemma frame_AddrDel link addr eip : frame eip (netlink_AddrDel link addr eip).2.
Proof.
  unfold netlink_AddrDel. destruct (existsb _ _); cbn [snd].
  - eapply frame_trans; [|apply frame_setLinkAddrs]. apply frame_emit. reflexivity.
  - apply frame_emit. reflexivity.
Qed.

Section WatcherFacts.
Context `{HostNet}.

Lemma frame_assignEgressIP egressIP mark eip :
  frame eip (assignEgressIP egressIP mark eip).2.
Proof.
  unfold assignEgressIP.
  destruct (String.eqb egressIP (localIP eip)); [apply frame_refl|].
  destruct (testMode eip); [apply frame_emit; reflexivity|].
  destruct (GetLinkDetails (localIP eip)) as [[link net]|err]; [|apply frame_refl].
  destruct (netlink_ParseAddr _) as [addr|err]; [|apply frame_refl].
  destruct (negb _); [apply frame_refl|].
  match goal with |- context [netlink_AddrAdd ?l ?a eip] =>
    pose proof (frame_AddrAdd l a eip) as Hadd;
    destruct (netlink_AddrAdd l a eip) as [[[|]|] eip1] end; cbn [snd] in *.
  - destruct (iptables_AddEgressIPRules egressIP mark); cbn [snd];
      (eapply frame_trans; [exact Hadd|]);
      (eapply frame_trans; [|apply frame_emit; reflexivity]);
      apply frame_emit; reflexivity.
  - exact Hadd.
  - destruct (iptables_AddEgressIPRules egressIP mark); cbn [snd];
      (eapply frame_trans; [exact Hadd|]);
      (eapply frame_trans; [|apply frame_emit; reflexivity]);
      apply frame_emit; reflexivity.
Qed.

Lemma frame_releaseEgressIP egressIP mark eip :
  frame eip (releaseEgressIP egressIP mark eip).2.
Proof.
  unfold releaseEgressIP.
  destruct (String.eqb egressIP (localIP eip)); [apply frame_refl|].
  destruct (testMode eip); [apply frame_emit; reflexivity|].
  destruct (GetLinkDetails (localIP eip)) as [[link net]|err]; [|apply frame_refl].
  destruct (netlink_ParseAddr _) as [addr|err]; [|apply frame_refl].
  pose proof (frame_AddrDel link addr eip) as Hdel.
  destruct (netlink_AddrDel link addr eip) as [[[|]|] eip1]; cbn [snd] in *.
  - exact Hdel.
  - destruct (iptables_DeleteEgressIPRules egressIP mark); cbn [snd];
      (eapply frame_trans; [exact Hdel|]); apply frame_emit; reflexivity.
  - destruct (iptables_DeleteEgressIPRules egressIP mark); cbn [snd];
      (eapply frame_trans; [exact Hdel|]); apply frame_emit; reflexivity.
Qed.

Lemma frame_cleanStale link label eip addr : frame eip (cleanStale link label eip addr).
Proof.
  unfold cleanStale. destruct (_ && _); [|apply frame_refl].
  pose proof (frame_AddrDel link addr eip) as Hdel.
  destruct (netlink_AddrDel link addr eip) as [[err|] eip1]; cbn [snd] in *.
  - eapply frame_trans; [exact Hdel | apply frame_emit; reflexivity].
  - exact Hdel.
Qed.

Lemma frame_Synced eip : frame eip (Synced eip).
Proof.
  unfold Synced.
  destruct (GetLinkDetails (localIP eip)) as [[link net]|err]; [|apply frame_refl].
  destruct (egressIPLabel link) as [label|err]; [|apply frame_emit; reflexivity].
  eapply frame_trans; [|apply frame_emit; reflexivity].
  generalize (netlink_AddrList link eip) as addrs. intros addrs.
  assert (Hfold : forall eip0, frame eip eip0 ->
            frame eip (fold_left (cleanStale link label) addrs eip0)).
  { induction addrs as [|addr addrs IH]; intros eip0 H0; cbn [fold_left].
    - exact H0.
    - apply IH. eapply frame_trans; [exact H0 | apply frame_cleanStale]. }
  apply Hfold, frame_refl.
Qed.

Lemma frame_SetNamespaceEgressViaEgressIPs vnid ips eip :
  frame eip (SetNamespaceEgressViaEgressIPs vnid ips eip).
Proof.
  unfold SetNamespaceEgressViaEgressIPs.
  destruct (oc_SetNamespaceEgressViaEgressIPs _ _).
  - eapply frame_trans; [|apply frame_emit; reflexivity].
    apply frame_emit. reflexivity.
  - apply frame_emit. reflexivity.
Qed.

(** *** The poller follows the monitored set *)

Lemma running_snoc effs e :
  running (effs ++ [e]) =
  match e with
  | PollUntil c => (running effs ++ [c])%list
  | Close c => filter (fun c' => negb (Nat.eqb c' c)) (running effs)
  | _ => running effs
  end.
Proof. unfold running. rewrite fold_left_app. reflexivity. Qed.

Lemma running_quiet es : forall effs,
  forallb quiet es = true -> running (effs ++ es) = running effs.
Proof.
  induction es as [|e es IH] using rev_ind; intros effs Hq.
  - rewrite app_nil_r. reflexivity.
  - rewrite forallb_app in Hq. apply andb_true_iff in Hq. destruct Hq as [Hes He].
    cbn in He. rewrite andb_true_r in He.
    rewrite app_assoc, running_snoc, IH by exact Hes.
    destruct e; try reflexivity; discriminate.
Qed.

(** No node, no channel, no poller: the watcher as it is made. *)
Lemma monitoring_new localIP mb addrs : monitoring (newEgressIPWatcher localIP mb addrs).
Proof.
  unfold monitoring. cbn. split; [split; reflexivity|].
  split; [intros ip node []%lookup_empty_Some|]. split; [reflexivity|].
  intros c [=].
Qed.

Lemma frame_localOnly eip eip' : frame eip eip' -> localOnly eip eip'.
Proof. intros (_ & _ & _ & ? & ? & _ & ? & ?). unfold localOnly. auto. Qed.

Lemma localOnly_monitoring eip eip' :
  localOnly eip eip' -> monitoring eip -> monitoring eip'.
Proof.
  intros (Hm & Hs & Hc & es & He & Hq) (I1 & I2 & I3 & I4). unfold monitoring.
  rewrite Hm, Hs, Hc, He, running_quiet by exact Hq. auto.
Qed.

Lemma localOnly_transition eip eip' : localOnly eip eip' -> transition eip eip'.
Proof.
  intros (Hm & Hs & Hc & es & He & Hq). unfold transition. rewrite Hm.
  split; [intros ? ?; contradiction|]. split; [intros ? ?; contradiction|].
  intros _. split; [exact Hs|]. split; [|eauto].
  rewrite He. apply running_quiet, Hq.
Qed.

Lemma gset_size_0 (X : gset string) : size X = 0%nat <-> X = ∅.
Proof. rewrite size_empty_iff. apply leibniz_equiv_iff. Qed.

Lemma egressIPs_nonempty (X : gset string) e : X ∪ {[e]} <> ∅.
Proof. set_solver. Qed.

Lemma egressIP_nonempty (e : string) : ({[e]} : gset string) <> ∅.
Proof. set_solver. Qed.

Lemma addEgressIP_monitoring nodeIP egressIP eip :
  monitoring eip ->
  monitoring (addEgressIP nodeIP egressIP eip) /\
  transition eip (addEgressIP nodeIP egressIP eip).
Proof.
  intros (I1 & I2 & I3 & I4). unfold addEgressIP.
  destruct (monitorNodes eip !! nodeIP) as [node|] eqn:Hnode.
  - (* one more egress IP on a node that is monitored already *)
    assert (Hne : monitorNodes eip <> ∅).
    { intros Hm. rewrite Hm in Hnode. discriminate. }
    split.
    + unfold monitoring. cbn -[running]. split.
      { split; [intros Hs; exfalso; apply Hne, I1, Hs|].
        intros Hm. destruct (insert_non_empty _ _ _ Hm). }
      split; [|auto].
      intros ip n. rewrite lookup_insert. case_decide.
      * intros [= <-]. cbn -[running]. first [apply egressIPs_nonempty | apply egressIP_nonempty].
      * apply I2.
    + unfold transition. cbn -[running].
      split; [intros ? ?; contradiction|].
      split; [intros _ Hm; destruct (insert_non_empty _ _ _ Hm)|].
      intros _. split; [reflexivity|]. split; [reflexivity|].
      exists []. rewrite app_nil_r. auto.
  - (* a node that was not monitored *)
    cbn [monitorNodes setMonitorNodes].
    rewrite map_size_insert_None by exact Hnode.
    destruct (Nat.eqb_spec (S (size (monitorNodes eip))) 1) as [H1|H1].
    + (* the first one: make the channel and start the poller *)
      assert (Hm : monitorNodes eip = ∅) by (apply map_size_empty_iff; lia).
      assert (Hs : stop eip = None) by (apply I1, Hm).
      cbn -[running]. rewrite Hs in I3. split.
      * unfold monitoring. cbn -[running]. split.
        { split; [discriminate|]. intros Hi. destruct (insert_non_empty _ _ _ Hi). }
        split.
        { intros ip n. rewrite lookup_insert. case_decide.
          - intros [= <-]. cbn -[running]. first [apply egressIPs_nonempty | apply egressIP_nonempty].
          - apply I2. }
        split; [rewrite running_snoc, I3; reflexivity|].
        intros c [= <-]. lia.
      * unfold transition. cbn -[running]. split.
        { intros _ _. exists (chans eip). rewrite running_snoc, I3. auto. }
        split; [intros Hne; destruct (Hne Hm)|].
        intros [Hi _]. destruct (insert_non_empty _ _ _ (Hi Hm)).
    + (* others are monitored: the poller is running *)
      assert (Hne : monitorNodes eip <> ∅).
      { intros Hm. rewrite Hm, map_size_empty in H1. lia. }
      split.
      * unfold monitoring. cbn -[running]. split.
        { split; [intros Hs; exfalso; apply Hne, I1, Hs|].
          intros Hi. destruct (insert_non_empty _ _ _ Hi). }
        split; [|auto].
        intros ip n. rewrite lookup_insert. case_decide.
        -- intros [= <-]. cbn -[running]. first [apply egressIPs_nonempty | apply egressIP_nonempty].
        -- apply I2.
      * unfold transition. cbn -[running].
        split; [intros ? ?; contradiction|].
        split; [intros _ Hi; destruct (insert_non_empty _ _ _ Hi)|].
        intros _. split; [reflexivity|]. split; [reflexivity|].
        exists []. rewrite app_nil_r. auto.
Qed.

Lemma removeEgressIP_monitoring nodeIP egressIP eip :
  monitoring eip ->
  monitoring (removeEgressIP nodeIP egressIP eip) /\
  transition eip (removeEgressIP nodeIP egressIP eip).
Proof.
  intros Hinv. pose proof Hinv as (I1 & I2 & I3 & I4). unfold removeEgressIP.
  destruct (monitorNodes eip !! nodeIP) as [node|] eqn:Hnode.
  2:{ split; [exact Hinv|]. apply localOnly_transition, frame_localOnly, frame_refl. }
  assert (Hne : monitorNodes eip <> ∅).
  { intros Hm. rewrite Hm in Hnode. discriminate. }
  cbn [egressIPs monitorNodes setMonitorNodes stop].
  destruct (Nat.eqb_spec (size (egressIPs node ∖ {[egressIP]})) 0) as [H0|H0].
  - (* the node has no egress IP left and goes *)
    rewrite delete_insert_eq.
    destruct (stop eip) as [c|] eqn:Hstop; [|destruct (Hne (proj1 I1 eq_refl))].
    destruct (Nat.eqb_spec (size (delete nodeIP (monitorNodes eip))) 0) as [Hd|Hd].
    + (* it was the last one: close the channel *)
      apply map_size_empty_iff in Hd. split.
      * unfold monitoring. cbn -[running]. rewrite ?delete_insert_eq, Hd.
        split; [split; reflexivity|].
        split; [intros ip n []%lookup_empty_Some|].
        split; [|intros c' [=]].
        rewrite running_snoc, I3. cbn. rewrite Nat.eqb_refl. reflexivity.
      * unfold transition. cbn -[running]. rewrite ?delete_insert_eq, Hd.
        split; [intros ? ?; contradiction|]. split.
        { intros _ _. exists c. rewrite running_snoc, I3. cbn.
          rewrite Nat.eqb_refl. auto. }
        intros [_ Hback]. destruct (Hne (Hback eq_refl)).
    + (* others stay monitored *)
      assert (Hne' : delete nodeIP (monitorNodes eip) <> ∅).
      { intros Hm. rewrite Hm, map_size_empty in Hd. lia. }
      split.
      * unfold monitoring. cbn -[running]. rewrite ?delete_insert_eq, Hstop.
        split; [split; [discriminate|intros Hm; destruct (Hne' Hm)]|].
        split; [|split; [exact I3|exact I4]].
        intros ip n Hl. apply lookup_delete_Some in Hl. destruct Hl as [_ Hl].
        exact (I2 ip n Hl).
      * unfold transition. cbn -[running]. rewrite ?delete_insert_eq.
        split; [intros ? ?; contradiction|].
        split; [intros _ Hm; destruct (Hne' Hm)|].
        intros _. split; [reflexivity|]. split; [reflexivity|].
        exists []. rewrite app_nil_r. auto.
  - (* the node keeps other egress IPs *)
    split.
    + unfold monitoring. cbn -[running].
      split; [split; [intros Hs; exfalso; apply Hne, I1, Hs
                     |intros Hm; destruct (insert_non_empty _ _ _ Hm)]|].
      split; [|auto].
      intros ip n. rewrite lookup_insert. case_decide.
      * intros [= <-]. cbn. intros Hempty. apply H0, gset_size_0, Hempty.
      * apply I2.
    + unfold transition. cbn -[running].
      split; [intros ? ?; contradiction|].
      split; [intros _ Hm; destruct (insert_non_empty _ _ _ Hm)|].
      intros _. split; [reflexivity|]. split; [reflexivity|].
      exists []. rewrite app_nil_r. auto.
Qed.

Lemma localOnly_setIptablesMark m eip : localOnly eip (setIptablesMark m eip).
Proof.
  unfold localOnly. cbn. repeat split.
  exists []. rewrite app_nil_r. auto.
Qed.

Lemma localOnly_trans eip1 eip2 eip3 :
  localOnly eip1 eip2 -> localOnly eip2 eip3 -> localOnly eip1 eip3.
Proof.
  intros (A1 & A2 & A3 & es1 & E1 & Q1) (B1 & B2 & B3 & es2 & E2 & Q2).
  unfold localOnly. repeat split; try congruence.
  exists (es1 ++ es2)%list. split.
  - rewrite E2, E1, app_assoc. reflexivity.
  - rewrite forallb_app, Q1, Q2. reflexivity.
Qed.

(** A claim or release for the local node only touches the mark table,
    the host's addresses and the iptables rules. *)
Lemma localOnly_ClaimEgressIP vnid egressIP eip :
  localOnly eip (ClaimEgressIP vnid egressIP (localIP eip) eip).
Proof.
  unfold ClaimEgressIP. rewrite String.eqb_refl.
  set (mark := Mark.getMarkForVNID vnid (masqueradeBit eip)).
  set (eip1 := setIptablesMark _ eip).
  pose proof (frame_assignEgressIP egressIP mark eip1) as Hf.
  destruct (assignEgressIP egressIP mark eip1) as [[err|] eip2]; cbn [snd] in Hf.
  - eapply localOnly_trans; [apply localOnly_setIptablesMark|].
    apply frame_localOnly. eapply frame_trans; [exact Hf|].
    apply frame_emit. reflexivity.
  - eapply localOnly_trans; [apply localOnly_setIptablesMark|].
    apply frame_localOnly, Hf.
Qed.

Lemma localOnly_ReleaseEgressIP egressIP eip :
  localOnly eip (ReleaseEgressIP egressIP (localIP eip) eip).
Proof.
  unfold ReleaseEgressIP. rewrite String.eqb_refl.
  set (mark := default "" (iptablesMark eip !! egressIP)).
  set (eip1 := setIptablesMark _ eip).
  pose proof (frame_releaseEgressIP egressIP mark eip1) as Hf.
  destruct (releaseEgressIP egressIP mark eip1) as [[err|] eip2]; cbn [snd] in Hf.
  - eapply localOnly_trans; [apply localOnly_setIptablesMark|].
    apply frame_localOnly. eapply frame_trans; [exact Hf|].
    apply frame_emit. reflexivity.
  - eapply localOnly_trans; [apply localOnly_setIptablesMark|].
    apply frame_localOnly, Hf.
Qed.

Lemma deliver_monitoring eip cb :
  monitoring eip -> monitoring (deliver eip cb) /\ transition eip (deliver eip cb).
Proof.
  intros Hinv.
  assert (Hlocal : forall eip', localOnly eip eip' ->
            monitoring eip' /\ transition eip eip').
  { intros eip' Hl. split; [eapply localOnly_monitoring; eassumption|].
    apply localOnly_transition, Hl. }
  destruct cb as [vnid egressIP nodeIP|egressIP nodeIP|vnid ips|]; cbn [deliver].
  - destruct (String.eqb_spec nodeIP (localIP eip)) as [->|Hremote].
    + apply Hlocal, localOnly_ClaimEgressIP.
    + unfold ClaimEgressIP. rewrite (proj2 (String.eqb_neq _ _) Hremote).
      apply addEgressIP_monitoring, Hinv.
  - destruct (String.eqb_spec nodeIP (localIP eip)) as [->|Hremote].
    + apply Hlocal, localOnly_ReleaseEgressIP.
    + unfold ReleaseEgressIP. rewrite (proj2 (String.eqb_neq _ _) Hremote).
      apply removeEgressIP_monitoring, Hinv.
  - apply Hlocal, frame_localOnly, frame_SetNamespaceEgressViaEgressIPs.
  - apply Hlocal, frame_localOnly, frame_Synced.
Qed.

Lemma deliverAll_monitoring cbs : forall eip,
  monitoring eip -> monitoring (deliverAll eip cbs).
Proof.
  induction cbs as [|cb cbs IH]; intros eip Hinv; cbn [deliverAll fold_left].
  - exact Hinv.
  - apply IH, deliver_monitoring, Hinv.
Qed.

(** C9. After any callbacks from the tracker the stop channel is there
    exactly when a node is monitored, and the one poller that runs is the
    one that listens on it. The next callback starts a poller on a new
    channel exactly when it makes the monitored set non-empty, closes the
    channel exactly when it makes the set empty, and otherwise leaves the
    channel as it is and neither starts nor stops a poller. *)
Theorem stop_follows_monitorNodes localIP mb addrs cbs cb :
  let eip := deliverAll (newEgressIPWatcher localIP mb addrs) cbs in
  let eip' := deliver eip cb in
  (stop eip <> None <-> monitorNodes eip <> ∅) /\
  running (effects eip) = match stop eip with Some c => [c] | None => [] end /\
  (monitorNodes eip = ∅ -> monitorNodes eip' <> ∅ ->
   exists c, stop eip' = Some c /\
     effects eip' = (effects eip ++ [PollUntil c])%list /\
     running (effects eip) = [] /\ running (effects eip') = [c]) /\
  (monitorNodes eip <> ∅ -> monitorNodes eip' = ∅ ->
   exists c, stop eip = Some c /\ stop eip' = None /\
     effects eip' = (effects eip ++ [Close c])%list /\
     running (effects eip) = [c] /\ running (effects eip') = []) /\
  ((monitorNodes eip = ∅ <-> monitorNodes eip' = ∅) ->
   stop eip' = stop eip /\
   running (effects eip') = running (effects eip) /\
   exists es, effects eip' = (effects eip ++ es)%list /\ forallb quiet es = true).
Proof.
  intros eip eip'.
  pose proof (deliverAll_monitoring cbs _ (monitoring_new localIP mb addrs)) as Hinv.
  fold eip in Hinv.
  destruct (deliver_monitoring eip cb Hinv) as [_ Htr]. fold eip' in Htr.
  destruct Hinv as (I1 & _ & I3 & _).
  split; [rewrite I1; reflexivity|]. split; [exact I3|]. exact Htr.
Qed.

(** *** Marks are for local claims *)

Lemma addEgressIP_marks nodeIP egressIP eip :
  localIP (addEgressIP nodeIP egressIP eip) = localIP eip /\
  iptablesMark (addEgressIP nodeIP egressIP eip) = iptablesMark eip.
Proof.
  unfold addEgressIP. destruct (monitorNodes eip !! nodeIP); [split; reflexivity|].
  destruct (_ =? _)%nat; split; reflexivity.
Qed.

Lemma removeEgressIP_marks nodeIP egressIP eip :
  localIP (removeEgressIP nodeIP egressIP eip) = localIP eip /\
  iptablesMark (removeEgressIP nodeIP egressIP eip) = iptablesMark eip.
Proof.
  unfold removeEgressIP. destruct (monitorNodes eip !! nodeIP); [|split; reflexivity].
  destruct (_ =? _)%nat; [|split; reflexivity]. cbn [stop setMonitorNodes].
  destruct (stop eip); [|split; reflexivity].
  destruct (_ =? _)%nat; split; reflexivity.
Qed.

(** What a callback does to the mark table. *)
Lemma deliver_marks eip cb :
  localIP (deliver eip cb) = localIP eip /\
  iptablesMark (deliver eip cb) =
    match cb with
    | Claim vnid egressIP nodeIP =>
        if String.eqb nodeIP (localIP eip)
        then <[egressIP := Mark.getMarkForVNID vnid (masqueradeBit eip)]> (iptablesMark eip)
        else iptablesMark eip
    | Release egressIP nodeIP =>
        if String.eqb nodeIP (localIP eip)
        then delete egressIP (iptablesMark eip)
        else iptablesMark eip
    | _ => iptablesMark eip
    end.
Proof.
  destruct cb as [vnid egressIP nodeIP|egressIP nodeIP|vnid ips|]; cbn [deliver].
  - unfold ClaimEgressIP. destruct (String.eqb nodeIP (localIP eip));
      [|apply addEgressIP_marks].
    set (mark := Mark.getMarkForVNID vnid (masqueradeBit eip)).
    set (eip1 := setIptablesMark _ eip).
    pose proof (frame_assignEgressIP egressIP mark eip1) as (F1 & _ & F3 & _).
    destruct (assignEgressIP egressIP mark eip1) as [[err|] eip2]; cbn [snd] in *;
      cbn; rewrite F1, F3; split; reflexivity.
  - unfold ReleaseEgressIP. destruct (String.eqb nodeIP (localIP eip));
      [|apply removeEgressIP_marks].
    set (mark := default "" (iptablesMark eip !! egressIP)).
    set (eip1 := setIptablesMark _ eip).
    pose proof (frame_releaseEgressIP egressIP mark eip1) as (F1 & _ & F3 & _).
    destruct (releaseEgressIP egressIP mark eip1) as [[err|] eip2]; cbn [snd] in *;
      cbn; rewrite F1, F3; split; reflexivity.
  - destruct (frame_SetNamespaceEgressViaEgressIPs vnid ips eip) as (F1 & _ & F3 & _).
    auto.
  - destruct (frame_Synced eip) as (F1 & _ & F3 & _). auto.
Qed.

Lemma deliver_marksLocal eip claims cb :
  marksLocal eip claims -> releaseBeforeClaim claims [cb] ->
  marksLocal (deliver eip cb) (track claims cb).
Proof.
  intros Hinv Hcb. destruct (deliver_marks eip cb) as [Hl Hm].
  unfold marksLocal. rewrite Hl, Hm. clear Hl Hm.
  destruct cb as [vnid egressIP nodeIP|egressIP nodeIP|vnid ips|]; cbn [track];
    cbn in Hcb; try exact Hinv.
  - destruct Hcb as [Hfree _].
    destruct (String.eqb_spec nodeIP (localIP eip)) as [->|Hremote]; intros e He.
    + destruct (decide (egressIP = e)) as [->|Hne].
      * rewrite lookup_insert_eq. reflexivity.
      * rewrite lookup_insert_ne in He |- * by exact Hne. exact (Hinv e He).
    + destruct (decide (egressIP = e)) as [->|Hne].
      * specialize (Hinv e He). congruence.
      * rewrite lookup_insert_ne by exact Hne. exact (Hinv e He).
  - destruct Hcb as [Hheld _].
    destruct (String.eqb_spec nodeIP (localIP eip)) as [->|Hremote]; intros e He.
    + destruct (decide (egressIP = e)) as [->|Hne].
      * rewrite lookup_delete_eq in He. destruct He as [? [=]].
      * rewrite lookup_delete_ne in He |- * by exact Hne. exact (Hinv e He).
    + destruct (decide (egressIP = e)) as [->|Hne].
      * specialize (Hinv e He). congruence.
      * rewrite lookup_delete_ne by exact Hne. exact (Hinv e He).
Qed.

Lemma releaseBeforeClaim_cons claims cb cbs :
  releaseBeforeClaim claims (cb :: cbs) <->
  releaseBeforeClaim claims [cb] /\ releaseBeforeClaim (track claims cb) cbs.
Proof. destruct cb; cbn; tauto. Qed.

Lemma deliverAll_marksLocal cbs : forall eip claims,
  marksLocal eip claims -> releaseBeforeClaim claims cbs ->
  marksLocal (deliverAll eip cbs) (fold_left track cbs claims).
Proof.
  induction cbs as [|cb cbs IH]; intros eip claims Hinv Hcbs; [exact Hinv|].
  apply releaseBeforeClaim_cons in Hcbs. destruct Hcbs as [Hcb Hcbs].
  cbn [deliverAll fold_left]. apply IH; [|exact Hcbs].
  apply deliver_marksLocal; assumption.
Qed.

Lemma deliverAll_localIP cbs : forall eip, localIP (deliverAll eip cbs) = localIP eip.
Proof.
  induction cbs as [|cb cbs IH]; intros eip; [reflexivity|].
  cbn [deliverAll fold_left]. unfold deliverAll in IH. rewrite IH.
  apply deliver_marks.
Qed.

(** C10. The tracker releases an egress IP before it claims it again.
    Then only egress IPs that the local node holds have a mark, and for an
    egress IP that another node holds, [SetNamespaceEgressViaEgressIPs]
    hands the OVS controller an entry with that node's IP and the empty
    string as packet mark. *)
Theorem remote_claim_has_empty_mark localIP mb addrs cbs egressIP nodeIP vnid active :
  releaseBeforeClaim ∅ cbs ->
  claimedBy cbs !! egressIP = Some nodeIP ->
  nodeIP <> localIP ->
  let eip := deliverAll (newEgressIPWatcher localIP mb addrs) cbs in
  (forall e, is_Some (iptablesMark eip !! e) -> claimedBy cbs !! e = Some localIP) /\
  iptablesMark eip !! egressIP = None /\
  exists md tail,
    effects (SetNamespaceEgressViaEgressIPs vnid active eip) =
      (effects eip ++ OvsViaEgressIPs vnid md :: tail)%list /\
    forallb quiet tail = true /\
    length md = length active /\
    forall i a, active !! i = Some a ->
      exists m, md !! i = Some m /\ metaNodeIP m = NodeIP a /\
        (EgressIP a = egressIP -> packetMark m = "").
Proof.
  intros Hproto Hclaim Hremote eip.
  assert (Hinv : marksLocal eip (claimedBy cbs)).
  { apply deliverAll_marksLocal; [|exact Hproto].
    intros e [m Hm]. cbn in Hm. rewrite lookup_empty in Hm. discriminate. }
  assert (Hlocal : NodeWatcher.localIP eip = localIP).
  { unfold eip. rewrite deliverAll_localIP. reflexivity. }
  assert (Hnone : iptablesMark eip !! egressIP = None).
  { destruct (iptablesMark eip !! egressIP) as [m|] eqn:Hm; [|reflexivity].
    specialize (Hinv egressIP (ex_intro _ m Hm)). congruence. }
  split; [intros e He; rewrite <- Hlocal; exact (Hinv e He)|].
  split; [exact Hnone|].
  unfold SetNamespaceEgressViaEgressIPs.
  set (md := map _ active).
  exists md, (match oc_SetNamespaceEgressViaEgressIPs vnid md with
              | Some err => [HandleError ("Error updating Namespace egress rules for VNID " +:+
                                          itoa vnid +:+ ": " +:+ err)]
              | None => []
              end).
  split; [|split; [|split]].
  - destruct (oc_SetNamespaceEgressViaEgressIPs vnid md); cbn;
      rewrite <- ?app_assoc; reflexivity.
  - destruct (oc_SetNamespaceEgressViaEgressIPs vnid md); reflexivity.
  - unfold md. apply length_map.
  - intros i a Ha. unfold md. rewrite list_lookup_fmap_Some_2 with (x := a) by exact Ha.
    eexists. split; [reflexivity|]. split; [reflexivity|].
    cbn. intros ->. rewrite Hnone. reflexivity.
Qed.

(** *** A link name that is too long *)

Lemma egressIPLabel_long link :
  (15 < String.length (link +:+ ":eip"))%nat ->
  egressIPLabel link = Err ("link name " +:+ quoted link +:+ " is too long").
Proof.
  intros Hlen. unfold egressIPLabel.
  rewrite (proj2 (Nat.ltb_lt _ _) Hlen). reflexivity.
Qed.

(** C8, as the code has it. When the link name with [":eip"] is longer than
    15 characters, [egressIPLabel] fails. A local claim goes ahead all the
    same: the address is put on the link without a label, the ARP
    announcement is started, the iptables rule is added and the mark is
    remembered. What is given up, with a logged error, is the cleanup of
    stale addresses in [Synced], which removes nothing and does not
    resync the iptables rules. *)
Theorem egressIPLabel_too_long eip vnid egressIP link net addr :
  (15 < String.length (link +:+ ":eip"))%nat ->
  GetLinkDetails (localIP eip) = Ok (link, net) ->
  testMode eip = false ->
  egressIP <> localIP eip ->
  netlink_ParseAddr (egressIP +:+ "/" +:+ itoa (Net_MaskSize net)) = Ok addr ->
  Net_Contains net (IP addr) = true ->
  let mark := Mark.getMarkForVNID vnid (masqueradeBit eip) in
  let unlabelled := {| IPNet := IPNet addr; IP := IP addr; Label := "" |} in
  let eip' := ClaimEgressIP vnid egressIP (localIP eip) eip in
  egressIPLabel link = Err ("link name " +:+ quoted link +:+ " is too long") /\
  (exists tail,
     effects eip' =
       (effects eip ++ [AddrAdd link unlabelled; Arping link egressIP;
                        AddEgressIPRules egressIP mark] ++ tail)%list /\
     (tail = [] \/ exists msg, tail = [HandleError msg])) /\
  iptablesMark eip' !! egressIP = Some mark /\
  existsb (sameAddr link unlabelled) (linkAddrs eip') = true /\
  effects (Synced eip) =
    (effects eip ++
     [HandleError ("Could not check for stale egress IPs: link name " +:+
                   quoted link +:+ " is too long")])%list /\
  linkAddrs (Synced eip) = linkAddrs eip.
Proof.
  intros Hlen Hlink Htest Hne Hparse Hin mark unlabelled eip'.
  pose proof (egressIPLabel_long link Hlen) as Hlabel.
  split; [exact Hlabel|].
  assert (Hsynced : Synced eip =
    emit (HandleError ("Could not check for stale egress IPs: link name " +:+
                       quoted link +:+ " is too long")) eip).
  { unfold Synced. rewrite Hlink, Hlabel. reflexivity. }
  rewrite Hsynced. cbn [effects linkAddrs emit].
  assert (Hclaim : exists tail added,
    effects eip' =
      (effects eip ++ [AddrAdd link unlabelled; Arping link egressIP;
                       AddEgressIPRules egressIP mark] ++ tail)%list /\
    (tail = [] \/ exists msg, tail = [HandleError msg]) /\
    iptablesMark eip' = <[egressIP := mark]> (iptablesMark eip) /\
    linkAddrs eip' = (linkAddrs eip ++ added)%list /\
    existsb (sameAddr link unlabelled) (linkAddrs eip ++ added) = true).
  { unfold eip', ClaimEgressIP. rewrite String.eqb_refl. fold mark.
    unfold assignEgressIP. cbn [localIP testMode setIptablesMark].
    rewrite (proj2 (String.eqb_neq _ _) Hne), Htest, Hlink, Hparse, Hin, Hlabel.
    cbn [negb]. fold unlabelled. unfold netlink_AddrAdd.
    cbn [linkAddrs emit setIptablesMark setLinkAddrs].
    destruct (existsb (sameAddr link unlabelled) (linkAddrs eip)) eqn:Hex.
    - destruct (iptables_AddEgressIPRules egressIP mark) as [err|].
      + eexists _, []. cbn. rewrite <- !app_assoc, app_nil_r. cbn.
        split; [reflexivity|]. split; [right; eauto|]. split; [reflexivity|].
        split; [reflexivity|exact Hex].
      + exists [], []. cbn. rewrite <- !app_assoc, app_nil_r. cbn.
        split; [reflexivity|]. split; [left; reflexivity|]. split; [reflexivity|].
        split; [reflexivity|exact Hex].
    - assert (Hnew : existsb (sameAddr link unlabelled)
                       (linkAddrs eip ++ [(link, unlabelled)]) = true).
      { rewrite existsb_app. cbn. unfold sameAddr at 2. cbn.
        rewrite !String.eqb_refl. apply orb_true_r. }
      destruct (iptables_AddEgressIPRules egressIP mark) as [err|].
      + eexists _, [(link, unlabelled)]. cbn. rewrite <- !app_assoc. cbn.
        split; [reflexivity|]. split; [right; eauto|]. split; [reflexivity|].
        split; [reflexivity|exact Hnew].
      + exists [], [(link, unlabelled)]. cbn. rewrite <- !app_assoc. cbn.
        split; [reflexivity|]. split; [left; reflexivity|]. split; [reflexivity|].
        split; [reflexivity|exact Hnew]. }
  destruct Hclaim as (tail & added & Heff & Htail & Hmark & Haddrs & Hex).
  split; [exists tail; split; assumption|].
  rewrite Hmark, Haddrs.
  split; [apply lookup_insert_eq|]. split; [exact Hex|]. split; reflexivity.
Qed.

End WatcherFacts.

Lemma remote_claim_has_empty_mark_witness :
  releaseBeforeClaim ∅ remoteClaim /\
  claimedBy remoteClaim !! "192.168.1.100" = Some "192.168.1.3" /\
  "192.168.1.3" <> "192.168.1.2" /\
  iptablesMark
    (@deliverAll (scenarioNet "eth0") (newEgressIPWatcher "192.168.1.2" (Some 0%Z) [])
       remoteClaim) !! "192.168.1.100" = None.
Proof.
  assert (H1 : releaseBeforeClaim ∅ remoteClaim) by (split; [reflexivity|exact I]).
  assert (H2 : claimedBy remoteClaim !! "192.168.1.100" = Some "192.168.1.3")
    by reflexivity.
  assert (H3 : "192.168.1.3" <> "192.168.1.2") by discriminate.
  split; [exact H1|]. split; [exact H2|]. split; [exact H3|].
  exact (proj1 (proj2
    (@remote_claim_has_empty_mark (scenarioNet "eth0") "192.168.1.2" (Some 0%Z) []
       remoteClaim "192.168.1.100" "192.168.1.3" 42%Z
       [{| NodeIP := "192.168.1.3"; EgressIP := "192.168.1.100" |}] H1 H2 H3))).
Defined.

(** C8, as the specification states it, fails: on a link named
    [bond0.vlan100] the label cannot be made, and the local claim of
    [192.168.1.100] for namespace 42 still assigns the address (without
    a label), starts the ARP announcement and adds the iptables rule. *)
Lemma long_link_name_still_claims :
  egressIPLabel longLink = Err ("link name " +:+ quoted longLink +:+ " is too long") /\
  effects (@ClaimEgressIP (scenarioNet longLink) 42 "192.168.1.100" "192.168.1.2"
             scenarioWatcher) =
    [AddrAdd longLink {| IPNet := "192.168.1.100/24"; IP := "192.168.1.100"; Label := "" |};
     Arping longLink "192.168.1.100";
     AddEgressIPRules "192.168.1.100" "0x0000002a"] /\
  forallb (fun e => negb (localClaimOperation e))
    (effects (@ClaimEgressIP (scenarioNet longLink) 42 "192.168.1.100" "192.168.1.2"
                scenarioWatcher)) = false.
Proof. split; [reflexivity|]. split; vm_compute; reflexivity. Qed.

Lemma egressIPLabel_too_long_witness :
  (15 < String.length (longLink +:+ ":eip"))%nat /\
  iptablesMark (@ClaimEgressIP (scenarioNet longLink) 42 "192.168.1.100"
                  (localIP scenarioWatcher) scenarioWatcher) !! "192.168.1.100"
    = Some (Mark.getMarkForVNID 42 (masqueradeBit scenarioWatcher)) /\
  linkAddrs (@Synced (scenarioNet longLink) scenarioWatcher) = linkAddrs scenarioWatcher.
Proof.
  assert (Hlen : (15 < String.length (longLink +:+ ":eip"))%nat) by (vm_compute; lia).
  assert (Hne : "192.168.1.100" <> localIP scenarioWatcher) by discriminate.
  pose proof (@egressIPLabel_too_long (scenarioNet longLink) scenarioWatcher 42
                "192.168.1.100" longLink ()
                {| IPNet := "192.168.1.100/24"; IP := "192.168.1.100"; Label := "" |}
                Hlen eq_refl eq_refl Hne eq_refl eq_refl) as Hthm.
  split; [exact Hlen|].
  split; [exact (proj1 (proj2 (proj2 Hthm)))|].
  exact (proj2 (proj2 (proj2 (proj2 (proj2 Hthm))))).
Defined.

End NodeWatcher.

(** ** More on packet marks *)

Module MarkFacts.
Import Mark.
Local Open Scope Z_scope.

(** An [int32] as [newEgressIPWatcher] gets it. *)
Definition int32 (b : Z) : Prop := - 2 ^ 31 <= b < 2 ^ 31.

(** The masquerade bit of a watcher: none, or one bit. *)
Definition masqueradeMask (m : Z) : Prop := m = 0 \/ singleBit m.

Lemma pow2_mod_high k : 32 <= k -> 2 ^ k mod 2 ^ 32 = 0.
Proof.
  intros Hk. replace k with ((k - 32) + 32) by lia.
  rewrite Z.pow_add_r by lia. apply Z.mod_mul. lia.
Qed.

Lemma markValue_no_mask v : markValue v 0 = if v =? 0 then 0xff000000 else v.
Proof. unfold markValue. rewrite Z.land_0_r. reflexivity. Qed.

(** X1. The mark of a valid VNID is never 0 and its rendering never the empty
    string (the value [Synced] and the OVS controller read as "no mark"),
    with one masquerade bit or with none. *)
Theorem getMarkForVNID_not_zero v m :
  masqueradeMask m -> validVNID v ->
  0 < markValue v m < 2 ^ 32 /\
  getMarkForVNID v m <> ""%string /\
  parseMark (getMarkForVNID v m) <> Some 0.
Proof.
  intros Hm Hv.
  assert (Hpos : 0 < markValue v m < 2 ^ 32).
  { destruct Hm as [->|Hm].
    - rewrite markValue_no_mask. unfold validVNID in Hv.
      destruct (Z.eqb_spec v 0); lia.
    - pose proof (singleBit_uint32 m Hm) as Hmr. unfold uint32 in Hmr.
      unfold validVNID in Hv.
      destruct (markValue_cases v m Hm Hv) as [(?&?)|[(?&?)|(?&?&?)]]; lia. }
  split; [exact Hpos|]. split; [discriminate|].
  unfold getMarkForVNID. rewrite parseMark_Sprintf by (unfold uint32; lia).
  intros [= H0]. lia.
Qed.

Lemma getMarkForVNID_not_zero_witness :
  masqueradeMask 1 /\ validVNID 1 /\
  0 < markValue 1 1 < 2 ^ 32 /\
  getMarkForVNID 1 1 <> ""%string /\
  parseMark (getMarkForVNID 1 1) <> Some 0.
Proof.
  assert (Hm : masqueradeMask 1) by (right; exists 0; lia).
  assert (Hv : validVNID 1) by (unfold validVNID; lia).
  split; [exact Hm|]. split; [exact Hv|].
  exact (getMarkForVNID_not_zero 1 1 Hm Hv).
Defined.

(** X2. [1 << uint32(bit)] in [uint32]: bit numbers 0 to 31 give that bit,
    every other [int32] (negative ones wrap to large shift counts) gives
    0, and with 0 the mark is the VNID itself, [0xff000000] standing in
    for VNID 0. *)
Theorem newMasqueradeBit_of_int32 b :
  int32 b ->
  newMasqueradeBit (Some b) = (if (0 <=? b) && (b <? 32) then 2 ^ b else 0) /\
  masqueradeMask (newMasqueradeBit (Some b)) /\
  (b < 0 \/ 32 <= b ->
   forall v, markValue v (newMasqueradeBit (Some b)) = if v =? 0 then 0xff000000 else v).
Proof.
  intros Hb. unfold int32 in Hb.
  assert (Heq : newMasqueradeBit (Some b) = if (0 <=? b) && (b <? 32) then 2 ^ b else 0).
  { unfold newMasqueradeBit. rewrite Z.shiftl_1_l.
    destruct (Z.leb_spec 0 b) as [H0|H0]; cbn [andb].
    - rewrite (Z.mod_small b) by lia.
      destruct (Z.ltb_spec b 32) as [H32|H32].
      + apply Z.mod_small. split; [apply Z.pow_nonneg; lia|].
        apply Z.pow_lt_mono_r; lia.
      + apply pow2_mod_high, H32.
    - apply pow2_mod_high.
      assert (Hm : b mod 2 ^ 32 = b + 2 ^ 32).
      { symmetry. apply Z.mod_unique with (q := -1); lia. }
      rewrite Hm. lia. }
  split; [exact Heq|]. split.
  - rewrite Heq. destruct (Z.leb_spec 0 b), (Z.ltb_spec b 32); cbn [andb];
      try (left; reflexivity).
    right. exists b. split; [lia|reflexivity].
  - intros Hout v. rewrite Heq.
    destruct (Z.leb_spec 0 b), (Z.ltb_spec b 32); cbn [andb]; try lia;
      apply markValue_no_mask.
Qed.

Lemma newMasqueradeBit_of_int32_witness :
  int32 (-1) /\
  newMasqueradeBit (Some (-1)) = 0 /\
  masqueradeMask (newMasqueradeBit (Some (-1))).
Proof.
  assert (Hb : int32 (-1)) by (unfold int32; lia).
  split; [exact Hb|].
  split; [exact (proj1 (newMasqueradeBit_of_int32 (-1) Hb))|].
  exact (proj1 (proj2 (newMasqueradeBit_of_int32 (-1) Hb))).
Defined.

End MarkFacts.

(** ** More on the CNI request broker *)

Module CNIRequests.
Import Go CNIServer.
Local Open Scope string_scope.

Fixpoint countByte (c : ascii) (s : string) : nat :=
  match s with
  | EmptyString => 0
  | String c' s' => (if Ascii.eqb c' c then 1 else 0) + countByte c s'
  end.

(** An argument [gatherCNIArgs] accepts: exactly one ['=']. *)
Definition oneEquals (arg : string) : Prop := countByte "=" arg = 1%nat.

Section Gathered.
Context `{Platform}.

(** The value [gatherCNIArgs] ends up with for a key: that of the last
    argument with this key, both trimmed. *)
Definition lastValue (key : string) (kvs : list (string * string)) : option string :=
  (fun kv => strings_TrimSpace (snd kv)) <$>
    last (filter (fun kv => strings_TrimSpace (fst kv) = key) kvs).

End Gathered.

(** *** [ReadConfig] *)

(** [ioutil.ReadFile] of [dir/name]. *)
Definition ioutil_ReadFile (dir name : string) (fs : fsnode) : PathError + string :=
  let err op e := inl {| Op := op; Path := filepath_Join dir name; Errno_ := e |} in
  match fs with
  | Missing => err "open" ENOENT
  | NotDirectory _ => err "open" ENOTDIR
  | Directory _ entries =>
      match entries !! name with
      | None => err "open" ENOENT
      | Some (RegularFile _ data) => inr data
      | Some (SocketFile _) => err "open" ENXIO
      | Some (SubDir _ _) => err "read" EISDIR
      end
  end.

Section Config.
(** [json.Unmarshal(bytes, &config)] *)
Variable json_UnmarshalConfig : string -> result Config.

Definition ReadConfig (dir name : string) (fs : fsnode) : result Config :=
  let configPath := filepath_Join dir name in
  match ioutil_ReadFile dir name fs with
  | inl err =>
      if os_IsNotExist err
      then Err "OpenShift SDN network process is not (yet?) available"
      else Err ("could not read config file " +:+ quoted configPath +:+ ": " +:+
                PathError_Error err)
  | inr bytes =>
      match json_UnmarshalConfig bytes with
      | Err err =>
          Err ("could not parse config file " +:+ quoted configPath +:+ ": " +:+ err)
      | Ok config => Ok config
      end
  end.

End Config.

(** What stands in the way of [Start]: a directory that is not empty at
    the socket or the config path of a private run directory. *)
Definition nonEmptyDir (e : option dirent) : bool :=
  match e with
  | Some (SubDir _ false) => true
  | _ => false
  end.

Definition blockedAt (fs : fsnode) : option string :=
  match fs with
  | Directory p entries =>
      if (p =? mode 7 0 0)%Z then
        if nonEmptyDir (entries !! CNIServerSocketName) then Some CNIServerSocketName
        else if nonEmptyDir (entries !! CNIServerConfigFileName)
             then Some CNIServerConfigFileName
             else None
      else None
  | _ => None
  end.

(** Where a blocked [Start] stops: its error, and the directory it leaves
    (the old socket is gone when the config path is what blocks). *)
Definition blockedError {World} (s : CNIServer World) (name : string) : string :=
  (if String.eqb name CNIServerSocketName
   then "failed to remove old CNIServer socket: "
   else "failed to remove old CNIServer config: ") +:+
  PathError_Error {| Op := "remove"; Path := filepath_Join (rundir s) name;
                     Errno_ := ENOTEMPTY |}.

Definition blockedDir (name : string) (fs : fsnode) : fsnode :=
  match fs with
  | Directory p entries =>
      if String.eqb name CNIServerSocketName then fs
      else Directory p (delete CNIServerSocketName entries)
  | _ => fs
  end.

(** A request of the pod of scenario S5 with a command the broker does
    not know, and no host veth. *)
Definition requestOther : CNIRequest :=
  {| Env := <["CNI_COMMAND" := "CHECK"]> envS5; ConfigBytes := ""; HostVeth := "" |}.

Definition theConfig : Config := {| MTU := 1450; ServiceNetworkCIDR := "172.30.0.0/16" |}.

Definition otherPlatform : Platform :=
  {| json_Unmarshal := fun _ => Ok requestOther;
     json_Marshal := fun c => "{}";
     strings_TrimSpace := asciiTrimSpace;
     fmt_map := fun _ => "map[]";
     umask := 63 |}.

(** *** Theorems *)

Lemma length_Split s sep : length (Split s sep) = S (countByte sep s).
Proof.
  induction s as [|c s IH]; [reflexivity|]. cbn [Split countByte].
  destruct (Ascii.eqb c sep); cbn [length]; [rewrite IH; reflexivity|].
  destruct (Split s sep) as [|x xs]; cbn in *; lia.
Qed.

Lemma Split_two arg : oneEquals arg <-> exists k v, Split arg "=" = [k; v].
Proof.
  unfold oneEquals. pose proof (length_Split arg "=") as Hlen. split.
  - intros H1. rewrite H1 in Hlen.
    destruct (Split arg "=") as [|k [|v [|? ?]]]; try discriminate. eauto.
  - intros (k & v & Hs). rewrite Hs in Hlen. cbn in Hlen. lia.
Qed.

Section GatheredFacts.
Context `{Platform}.

Lemma gatherCNIArgs_loop_ok args : forall mapArgs,
  Forall oneEquals args -> exists m, gatherCNIArgs_loop args mapArgs = Ok m.
Proof.
  induction args as [|arg args IH]; intros mapArgs Hall; cbn [gatherCNIArgs_loop];
    [eauto|].
  apply Forall_cons in Hall. destruct Hall as [Harg Hall].
  apply Split_two in Harg. destruct Harg as (k & v & ->). apply IH, Hall.
Qed.

Lemma gatherCNIArgs_loop_bad pre arg post : forall mapArgs,
  Forall oneEquals pre -> ~ oneEquals arg ->
  gatherCNIArgs_loop (pre ++ arg :: post) mapArgs =
    Err ("invalid CNI_ARG '" +:+ arg +:+ "'").
Proof.
  induction pre as [|a pre IH]; intros mapArgs Hpre Hbad; cbn [app gatherCNIArgs_loop].
  - destruct (Split arg "=") as [|k [|v [|? ?]]] eqn:Hs; try reflexivity.
    exfalso. apply Hbad, Split_two. eauto.
  - apply Forall_cons in Hpre. destruct Hpre as [Ha Hpre].
    apply Split_two in Ha. destruct Ha as (k & v & ->). apply IH; assumption.
Qed.

Lemma oneEquals_dec arg : {oneEquals arg} + {~ oneEquals arg}.
Proof. unfold oneEquals. apply Nat.eq_dec. Qed.

Lemma first_bad args :
  ~ Forall oneEquals args ->
  exists pre arg post, args = (pre ++ arg :: post)%list /\
    Forall oneEquals pre /\ ~ oneEquals arg.
Proof.
  induction args as [|a args IH]; intros Hnot; [destruct Hnot; constructor|].
  destruct (oneEquals_dec a) as [Ha|Ha].
  - destruct IH as (pre & arg & post & -> & Hpre & Hbad).
    { intros Hall. apply Hnot. constructor; assumption. }
    exists (a :: pre), arg, post. split; [reflexivity|]. split; [|exact Hbad].
    constructor; assumption.
  - exists [], a, args. split; [reflexivity|]. split; [constructor|exact Ha].
Qed.

(** X3. [gatherCNIArgs] wants [CNI_ARGS], and in it exactly one ['='] in
    every argument between the [';']: it succeeds exactly then, and
    otherwise its error names the first argument that is not so (the empty
    argument of an empty [CNI_ARGS] or after a trailing [';'] included). *)
Theorem gatherCNIArgs_accepts env :
  (env !! "CNI_ARGS" = None ->
   gatherCNIArgs env = Err ("missing CNI_ARGS: '" +:+ fmt_map env +:+ "'")) /\
  (forall cniArgs, env !! "CNI_ARGS" = Some cniArgs ->
     ((exists m, gatherCNIArgs env = Ok m) <-> Forall oneEquals (Split cniArgs ";")) /\
     (forall pre arg post,
        Split cniArgs ";" = (pre ++ arg :: post)%list ->
        Forall oneEquals pre -> ~ oneEquals arg ->
        gatherCNIArgs env = Err ("invalid CNI_ARG '" +:+ arg +:+ "'"))).
Proof.
  split.
  - intros Hnone. unfold gatherCNIArgs. rewrite Hnone. reflexivity.
  - intros cniArgs Hsome. unfold gatherCNIArgs. rewrite Hsome. cbn [lookupOr bind].
    split; [split|].
    + intros (m & Hm).
      destruct (List.Forall_dec oneEquals oneEquals_dec (Split cniArgs ";")) as [Hall|Hnot];
        [exact Hall|].
      destruct (first_bad _ Hnot) as (pre & arg & post & Heq & Hpre & Hbad).
      rewrite Heq, (gatherCNIArgs_loop_bad pre arg post ∅ Hpre Hbad) in Hm.
      discriminate.
    + apply gatherCNIArgs_loop_ok.
    + intros pre arg post -> Hpre Hbad. apply gatherCNIArgs_loop_bad; assumption.
Qed.

Lemma fold_insert_last (kvs : list (string * string)) key :
  fold_left (fun m kv => <[strings_TrimSpace (fst kv) := strings_TrimSpace (snd kv)]> m)
    kvs (∅ : gmap string string) !! key = lastValue key kvs.
Proof.
  unfold lastValue. induction kvs as [|kv kvs IH] using rev_ind.
  - cbn. apply lookup_empty.
  - rewrite fold_left_app. cbn [fold_left]. rewrite filter_app, filter_cons, filter_nil.
    destruct (decide (strings_TrimSpace (fst kv) = key)) as [<-|Hne].
    + rewrite lookup_insert_eq, last_snoc. reflexivity.
    + rewrite lookup_insert_ne by exact Hne. rewrite app_nil_r. exact IH.
Qed.

(** X4. Arguments written [key=value;key=value] are all gathered: each key
    gets the trimmed value of the last argument with that trimmed key, and
    a key no argument has is not in the map. *)
Theorem gatherCNIArgs_last_wins env kvs :
  env !! "CNI_ARGS" = Some (Join (map cniArg kvs) ";") ->
  kvs <> [] -> Forall plainArg kvs ->
  exists m, gatherCNIArgs env = Ok m /\ forall key, m !! key = lastValue key kvs.
Proof.
  intros Henv Hne Hkvs. eexists. split.
  - apply (gatherCNIArgs_plain env kvs Henv Hne Hkvs).
  - apply fold_insert_last.
Qed.

End GatheredFacts.

Section RequestFacts.
Context `{Platform}.
Context {World : Type}.

(** X5. [cniRequestToPodRequest] rejects the malformed requests and no
    others: a body is turned down exactly when it does not decode or a
    required key is missing. *)
Theorem cniRequestToPodRequest_rejects body :
  (exists msg, cniRequestToPodRequest body = Err msg) <-> malformed body.
Proof.
  split; [|apply malformed_rejected].
  intros (msg & Hreq). unfold cniRequestToPodRequest in Hreq. unfold malformed.
  destruct (json_Unmarshal body) as [cr|e]; [right|left; eauto].
  exists cr. split; [reflexivity|]. unfold missingRequired.
  destruct (Env cr !! "CNI_COMMAND") as [cmd|]; cbn in Hreq; [|tauto].
  destruct (Env cr !! "CNI_CONTAINERID") as [id|]; cbn in Hreq; [|tauto].
  destruct (Env cr !! "CNI_NETNS") as [ns|]; cbn in Hreq; [|tauto].
  destruct (String.eqb (HostVeth cr) "" && String.eqb cmd CNI_ADD) eqn:Hveth.
  { apply andb_true_iff in Hveth. destruct Hveth as [Hv Hc].
    apply String.eqb_eq in Hv, Hc. subst cmd. tauto. }
  do 4 right. intros args Hargs. rewrite Hargs in Hreq. cbn in Hreq.
  destruct (args !! "K8S_POD_NAMESPACE") as [pns|]; cbn in Hreq; [|tauto].
  destruct (args !! "K8S_POD_NAME") as [pn|]; cbn in Hreq; [discriminate|tauto].
Qed.

(** X6. The command is not checked against the ones the broker knows: with
    the three variables and the pod's namespace and name there, any
    command but [ADD] is accepted as it is, host veth or not. *)
Theorem cniRequestToPodRequest_any_command body cr cmd id ns args pns pn :
  json_Unmarshal body = Ok cr ->
  Env cr !! "CNI_COMMAND" = Some cmd -> cmd <> CNI_ADD ->
  Env cr !! "CNI_CONTAINERID" = Some id ->
  Env cr !! "CNI_NETNS" = Some ns ->
  gatherCNIArgs (Env cr) = Ok args ->
  args !! "K8S_POD_NAMESPACE" = Some pns -> args !! "K8S_POD_NAME" = Some pn ->
  cniRequestToPodRequest body =
    Ok {| Command := cmd; PodNamespace := pns; PodName := pn; SandboxID := id;
          Netns := ns; PodHostVeth := HostVeth cr; AssignedIP := "" |}.
Proof.
  intros Hcr Hcmd Hne Hid Hns Hargs Hpns Hpn. unfold cniRequestToPodRequest.
  rewrite Hcr, Hcmd, Hid, Hns. cbn [lookupOr bind].
  apply String.eqb_neq in Hne. rewrite Hne, andb_false_r, Hargs. cbn [bind].
  rewrite Hpns, Hpn. reflexivity.
Qed.

(** X7. One request, whatever it is: the answer is a [200] with JSON or a
    [400] with plain text and nothing else; the server is the one before;
    the handler runs once when the request parses and not at all when it
    does not, and a [200] is the handler's own success. Only a request
    that parses on a server without handler has no answer. *)
Theorem handleCNIRequest_outcome (st : state World) body :
  match handleCNIRequest st body with
  | None =>
      requestFunc (server st) = None /\ exists req, cniRequestToPodRequest body = Ok req
  | Some (resp, st') =>
      server st' = server st /\
      (StatusCode resp = StatusOK /\
         Header resp !! "Content-Type" = Some "application/json" \/
       StatusCode resp = StatusBadRequest /\
         Header resp !! "Content-Type" = Some "text/plain; charset=utf-8") /\
      match cniRequestToPodRequest body with
      | Err msg => st' = st /\ resp = http_Error msg StatusBadRequest
      | Ok req =>
          invoked st' = (invoked st ++ [req])%list /\
          exists f, requestFunc (server st) = Some f /\
            world st' = snd (f req (world st)) /\
            (StatusCode resp = StatusOK <->
             fst (f req (world st)) = Ok (Body resp))
      end
  end.
Proof.
  unfold handleCNIRequest.
  destruct (cniRequestToPodRequest body) as [req|msg].
  - destruct (requestFunc (server st)) as [f|]; [|eauto].
    destruct (f req (world st)) as [[r|e] w'] eqn:Hf; cbn.
    + split; [reflexivity|]. split; [left; split; reflexivity|].
      split; [reflexivity|]. exists f. rewrite Hf. cbn. tauto.
    + split; [reflexivity|]. split; [right; split; reflexivity|].
      split; [reflexivity|]. exists f. rewrite Hf. cbn.
      split; [reflexivity|]. split; [reflexivity|]. split; discriminate.
  - cbn. split; [reflexivity|]. split; [right; split; reflexivity|].
    split; reflexivity.
Qed.

End RequestFacts.

Lemma gatherCNIArgs_last_wins_witness :
  exists m,
    @gatherCNIArgs scenarioPlatform (<["CNI_ARGS" := "K= a;IgnoreUnknown=1; K =b "]> ∅) = Ok m /\
    m !! "K" = Some "b" /\ m !! "K8S_POD_NAME" = None.
Proof.
  pose (kvs := [("K", " a"); ("IgnoreUnknown", "1"); (" K ", "b ")]).
  pose (env := <["CNI_ARGS" := "K= a;IgnoreUnknown=1; K =b "]> (∅ : gmap string string)).
  assert (Henv : env !! "CNI_ARGS" = Some (Join (map cniArg kvs) ";"))
    by (vm_compute; reflexivity).
  assert (Hne : kvs <> []) by discriminate.
  assert (Hplain : Forall plainArg kvs)
    by (repeat constructor; vm_compute; reflexivity).
  destruct (@gatherCNIArgs_last_wins scenarioPlatform env kvs Henv Hne Hplain)
    as (m & Hm & Hlast).
  exists m. split; [exact Hm|]. rewrite !Hlast. split; vm_compute; reflexivity.
Defined.

Lemma cniRequestToPodRequest_any_command_witness :
  @cniRequestToPodRequest otherPlatform "{}" =
    Ok {| Command := "CHECK"; PodNamespace := "default"; PodName := "p";
          SandboxID := "abc"; Netns := "/proc/1/ns/net"; PodHostVeth := "";
          AssignedIP := "" |}.
Proof.
  assert (Hargs : @gatherCNIArgs otherPlatform (Env requestOther) = Ok argsS5)
    by (vm_compute; reflexivity).
  assert (Hne : "CHECK" <> CNI_ADD) by discriminate.
  exact (@cniRequestToPodRequest_any_command otherPlatform "{}" requestOther
           "CHECK" "abc" "/proc/1/ns/net" argsS5 "default" "p"
           eq_refl eq_refl Hne eq_refl eq_refl Hargs eq_refl eq_refl).
Defined.

Section StartFacts.
Context `{Platform}.
Context {World : Type}.

Lemma nonEmptyDir_false (E : gmap string dirent) name :
  nonEmptyDir (E !! name) = false -> forall q, E !! name <> Some (SubDir q false).
Proof. intros Hn q Heq. rewrite Heq in Hn. discriminate. Qed.

Lemma blockedAt_removable fs : blockedAt fs = None <-> removable fs.
Proof.
  destruct fs as [|p|p E]; cbn; [tauto..|].
  destruct (Z.eqb_spec p (mode 7 0 0)) as [->|Hp]; [|tauto].
  destruct (nonEmptyDir (E !! CNIServerSocketName)) eqn:Hs.
  { split; [discriminate|]. intros Hrm. exfalso.
    destruct (E !! CNIServerSocketName) as [[| |q' [|]]|] eqn:HE; try discriminate.
    exact (Hrm eq_refl _ q' (or_introl eq_refl) HE). }
  destruct (nonEmptyDir (E !! CNIServerConfigFileName)) eqn:Hc.
  { split; [discriminate|]. intros Hrm. exfalso.
    destruct (E !! CNIServerConfigFileName) as [[| |q' [|]]|] eqn:HE; try discriminate.
    exact (Hrm eq_refl _ q' (or_intror eq_refl) HE). }
  split; [|reflexivity]. intros _ _ name q' [->| ->].
  - apply nonEmptyDir_false, Hs.
  - apply nonEmptyDir_false, Hc.
Qed.

Lemma Start_cases (f : cniRequestFunc World) s fs :
  match blockedAt fs with
  | None => Start (Some f) s fs = (Ok (), startedServer f s, startedFrom (config s) fs)
  | Some name =>
      Start (Some f) s fs =
        (Err (blockedError s name),
         {| requestFunc := Some f; rundir := rundir s; config := config s;
            keepAlivesEnabled := keepAlivesEnabled s; serving := serving s |},
         blockedDir name fs)
  end.
Proof.
  pose proof names_differ as Hne.
  assert (Hnew : forall p,
    (let fs0 := Directory p ∅ in
     match ioutil_WriteFile (rundir s) CNIServerConfigFileName (json_Marshal (config s))
             (mode 4 4 4) fs0 with
     | (None, fs1) =>
         match net_Listen (rundir s) CNIServerSocketName fs1 with
         | (None, fs2) =>
             os_Chmod (rundir s) CNIServerSocketName (mode 6 0 0) fs2 =
               (None, Directory p (<[CNIServerSocketName := SocketFile (mode 6 0 0)]>
                  (<[CNIServerConfigFileName :=
                       RegularFile (created (mode 4 4 4)) (json_Marshal (config s))]> ∅)))
         | _ => False
         end
     | _ => False
     end)).
  { intros p. apply write_listen_chmod; apply lookup_empty. }
  destruct fs as [|p|p E].
  - cbn [blockedAt startedFrom kept]. unfold Start.
    cbn [rundir config keepAlivesEnabled serving os_Stat os_IsNotExist Errno_ negb
         os_MkdirAll].
    specialize (Hnew (created (mode 7 0 0))). cbv zeta in Hnew.
    destruct (ioutil_WriteFile _ _ _ _ _) as [[e|] fs1]; [contradiction|].
    destruct (net_Listen _ _ _) as [[e|] fs2]; [contradiction|].
    rewrite Hnew. reflexivity.
  - cbn [blockedAt startedFrom kept]. unfold Start.
    cbn [rundir config keepAlivesEnabled serving os_Stat os_IsNotExist Errno_ negb
         IsDir Perm andb os_RemoveAll os_MkdirAll].
    specialize (Hnew (created (mode 7 0 0))). cbv zeta in Hnew.
    destruct (ioutil_WriteFile _ _ _ _ _) as [[e|] fs1]; [contradiction|].
    destruct (net_Listen _ _ _) as [[e|] fs2]; [contradiction|].
    rewrite Hnew. reflexivity.
  - cbn [blockedAt startedFrom kept]. unfold Start.
    cbn [rundir config keepAlivesEnabled serving os_Stat os_IsNotExist Errno_ negb
         IsDir Perm andb].
    destruct (Z.eqb_spec p (mode 7 0 0)) as [->|Hp].
    + destruct (nonEmptyDir (E !! CNIServerSocketName)) eqn:Hs.
      { destruct (E !! CNIServerSocketName) as [[| |q' [|]]|] eqn:HE; try discriminate.
        cbn [os_Remove]. rewrite HE. reflexivity. }
      pose proof (remove_old (rundir s) CNIServerSocketName (mode 7 0 0) E
                    (nonEmptyDir_false _ _ Hs)) as R1.
      assert (R1' :
        match os_Remove (rundir s) CNIServerSocketName (Directory (mode 7 0 0) E) with
        | (Some err, fs') => (if negb (os_IsNotExist err)
            then inl ("failed to remove old CNIServer socket: ", err, fs') else inr fs')
        | (None, fs') => inr fs'
        end = inr (Directory (mode 7 0 0) (delete CNIServerSocketName E))).
      { destruct (os_Remove _ _ _) as [[e|] fs']; [destruct R1 as [-> ->]|subst fs'];
          reflexivity. }
      rewrite R1'. clear R1 R1'.
      destruct (nonEmptyDir (E !! CNIServerConfigFileName)) eqn:Hc.
      { destruct (E !! CNIServerConfigFileName) as [[| |q' [|]]|] eqn:HE; try discriminate.
        cbn [os_Remove]. rewrite lookup_delete_ne, HE by congruence. reflexivity. }
      assert (Hc' : forall q', delete CNIServerSocketName E !! CNIServerConfigFileName
                               <> Some (SubDir q' false)).
      { intros q'. rewrite lookup_delete_ne by congruence. apply nonEmptyDir_false, Hc. }
      pose proof (remove_old (rundir s) CNIServerConfigFileName (mode 7 0 0)
                    (delete CNIServerSocketName E) Hc') as R2.
      assert (R2' :
        match os_Remove (rundir s) CNIServerConfigFileName
                (Directory (mode 7 0 0) (delete CNIServerSocketName E)) with
        | (Some err, fs') => (if negb (os_IsNotExist err)
            then inl ("failed to remove old CNIServer config: ", err, fs') else inr fs')
        | (None, fs') => inr fs'
        end = inr (Directory (mode 7 0 0)
                     (delete CNIServerConfigFileName (delete CNIServerSocketName E)))).
      { destruct (os_Remove _ _ _) as [[e|] fs']; [destruct R2 as [-> ->]|subst fs'];
          reflexivity. }
      rewrite R2'. clear R2 R2'. cbn [os_MkdirAll].
      pose proof (write_listen_chmod (rundir s) (json_Marshal (config s)) (mode 7 0 0)
                    (delete CNIServerConfigFileName (delete CNIServerSocketName E))) as W.
      rewrite lookup_delete_ne, !lookup_delete_eq in W by congruence.
      specialize (W eq_refl eq_refl).
      destruct (ioutil_WriteFile _ _ _ _ _) as [[e|] fs1]; [contradiction|].
      destruct (net_Listen _ _ _) as [[e|] fs2]; [contradiction|].
      rewrite W. reflexivity.
    + cbn [os_RemoveAll os_MkdirAll].
      specialize (Hnew (created (mode 7 0 0))). cbv zeta in Hnew.
      destruct (ioutil_WriteFile _ _ _ _ _) as [[e|] fs1]; [contradiction|].
      destruct (net_Listen _ _ _) as [[e|] fs2]; [contradiction|].
      rewrite Hnew. unfold startedFrom, kept.
      destruct (Z.eqb_spec p (mode 7 0 0)) as [|_]; [contradiction|]. reflexivity.
Qed.

(** X8. [Start] with a handler succeeds exactly when the old socket and
    config file can be removed, whatever the mask of the process; it then
    leaves the socket at [0600] and the new config file in the run
    directory, and serves. When one of the two paths is blocked it reports
    which, leaves the server not serving and writes nothing: the directory
    is as before, less the old socket when the config path is the one
    that blocks. *)
Theorem Start_succeeds_iff_removable (f : cniRequestFunc World) s fs :
  (removable fs <-> fst (fst (Start (Some f) s fs)) = Ok ()) /\
  match blockedAt fs with
  | None => Start (Some f) s fs = (Ok (), startedServer f s, startedFrom (config s) fs)
  | Some name =>
      Start (Some f) s fs =
        (Err (blockedError s name),
         {| requestFunc := Some f; rundir := rundir s; config := config s;
            keepAlivesEnabled := keepAlivesEnabled s; serving := serving s |},
         blockedDir name fs)
  end.
Proof.
  pose proof (Start_cases f s fs) as Hc. split; [|exact Hc].
  rewrite <- blockedAt_removable.
  destruct (blockedAt fs) as [name|]; rewrite Hc; cbn; split; congruence.
Qed.

Section Config.
Variable json_UnmarshalConfig : string -> result Config.

(** X9. The plugin's side reads back what the broker wrote: after a [Start]
    that succeeded, [ReadConfig] of the config path gives the server's
    configuration, when decoding undoes this configuration's encoding. *)
Theorem ReadConfig_after_Start (f : cniRequestFunc World) s fs s1 fs1 :
  Start (Some f) s fs = (Ok (), s1, fs1) ->
  json_UnmarshalConfig (json_Marshal (config s)) = Ok (config s) ->
  ReadConfig json_UnmarshalConfig (rundir s1) CNIServerConfigFileName fs1 = Ok (config s).
Proof.
  intros Hstart Hdec. pose proof names_differ as Hne.
  pose proof (Start_cases f s fs) as Hc.
  destruct (blockedAt fs) as [name|]; rewrite Hc in Hstart; [discriminate|].
  injection Hstart as <- <-.
  unfold ReadConfig, ioutil_ReadFile, startedFrom.
  rewrite lookup_insert_ne, lookup_insert_eq by congruence. rewrite Hdec. reflexivity.
Qed.

(** X10. [ReadConfig] says that the network process is not (yet?) available
    exactly when the run directory or the config file in it is missing;
    anything else that goes wrong is reported differently. *)
Theorem ReadConfig_not_available dir name fs :
  ReadConfig json_UnmarshalConfig dir name fs =
    Err "OpenShift SDN network process is not (yet?) available" <->
  fs = Missing \/ exists p E, fs = Directory p E /\ E !! name = None.
Proof.
  unfold ReadConfig, ioutil_ReadFile. split.
  - destruct fs as [|p|p E]; cbn; [tauto| |].
    + intros Heq. cbv [String.append] in Heq. discriminate.
    + intros Heq. right. exists p, E. split; [reflexivity|].
      destruct (E !! name) as [[q d|q|q b]|]; cbn in Heq; [| | |reflexivity].
      * destruct (json_UnmarshalConfig d); [discriminate|].
        cbv [String.append] in Heq. discriminate.
      * cbv [String.append] in Heq. discriminate.
      * cbv [String.append] in Heq. discriminate.
  - intros [->|(p & E & -> & ->)]; reflexivity.
Qed.

End Config.

End StartFacts.

Lemma ReadConfig_after_Start_witness :
  let s := NewCNIServer "/var/run/openshift-sdn/cniserver" theConfig in
  let fs := Directory (mode 7 5 5) (<["config.json" := SubDir (mode 7 5 5) false]> ∅) in
  exists s1 fs1,
    @Start otherPlatform nat (Some echoHandler) s fs = (Ok (), s1, fs1) /\
    ReadConfig (fun _ => Ok theConfig) (rundir s1) CNIServerConfigFileName fs1 =
      Ok theConfig.
Proof.
  intros s fs. eexists _, _.
  assert (Hs : @Start otherPlatform nat (Some echoHandler) s fs =
               (Ok (), startedServer echoHandler s,
                @startedFrom otherPlatform theConfig fs)) by (vm_compute; reflexivity).
  split; [exact Hs|].
  exact (@ReadConfig_after_Start otherPlatform nat (fun _ => Ok theConfig)
           echoHandler s fs _ _ Hs eq_refl).
Defined.

End CNIRequests.

(** ** More on the master allocator *)

Module MasterFacts.
Import Master.
Local Open Scope Z_scope.

(** The notifications of a timeline, in order. *)
Fixpoint notified (es : list event) : list Z :=
  match es with
  | [] => []
  | Notify t :: es' => t :: notified es'
  | Tick _ :: es' => notified es'
  end.

(** What the tracker has been told about the nodes: its view of who is
    offline after the calls of a pass. *)
Definition told (view : gmap string bool) (calls : list call) : gmap string bool :=
  fold_left
    (fun v c =>
       match c with
       | SetNodeOffline ip b => <[ip := b]> v
       | PingCall _ _ => v
       end)
    calls view.

(** The view agrees with the manager's own records. *)
Definition inStep (view : gmap string bool) (nodes : list egressNode) : Prop :=
  forall n, n ∈ nodes -> view !! ip n = Some (offline n).

Definition retriesInRange (nodes : list egressNode) : Prop :=
  forall n, n ∈ nodes -> 0 <= retries n <= maxRetries.

(** Every notification seen so far is behind the latest one; when no
    poller is left each of them is followed by a run of the work; and the
    work has run no more often than notifications came. *)
Definition served (tl : timeline) (seen : list Z) : Prop :=
  (forall t, t ∈ seen -> t <= lastNotify tl) /\
  (pollers tl = [] ->
   forall t, t ∈ seen -> exists T ln, (T, ln) ∈ writebacks tl /\ t <= ln) /\
  (length (writebacks tl) + length (pollers tl) <= length seen)%nat.

(** *** Coalescing *)

Lemma notified_app es1 es2 : notified (es1 ++ es2) = (notified es1 ++ notified es2)%list.
Proof.
  induction es1 as [|[t|t] es1 IH]; cbn; [reflexivity| |exact IH].
  rewrite IH. reflexivity.
Qed.

Lemma notified_elem t es : Notify t ∈ es <-> t ∈ notified es.
Proof.
  induction es as [|[t'|t'] es IH]; cbn.
  - split; intros []%elem_of_nil.
  - rewrite !elem_of_cons, IH. split; (intros [Heq|Hin]; [left; congruence|right; exact Hin]).
  - rewrite elem_of_cons, IH. split; [|auto]. intros [[=]|Hin]. exact Hin.
Qed.

Lemma step_served tl e tl' seen :
  coalescing tl -> served tl seen -> step tl e = Some tl' ->
  served tl' (seen ++ notified [e]).
Proof.
  intros (Hln & _ & _ & Hp) (Hbehind & Hcov & Hcount) Hstep.
  destruct e as [t|t]; cbn [step] in Hstep.
  - destruct (onTime tl t) eqn:Hon; [|discriminate].
    apply onTime_spec in Hon. destruct Hon as [Hnow _].
    destruct (flags tl) as [pending again] eqn:Hfl. cbn in Hp.
    unfold UpdateEgressCIDRs in Hstep. cbn in Hstep.
    destruct (pollers tl) as [|due [|due' ps]] eqn:Hps; [| |contradiction].
    + destruct Hp as [-> ->]. injection Hstep as <-. unfold served. cbn.
      split; [|split; [discriminate|]].
      * intros t' [Hin|Hin%list_elem_of_singleton]%elem_of_app;
          [specialize (Hbehind _ Hin)|subst t']; lia.
      * rewrite length_app. cbn in *. lia.
    + destruct Hp as (-> & _). injection Hstep as <-. unfold served. cbn.
      split; [|split; [discriminate|]].
      * intros t' [Hin|Hin%list_elem_of_singleton]%elem_of_app;
          [specialize (Hbehind _ Hin)|subst t']; lia.
      * rewrite length_app. cbn in *. lia.
  - destruct (onTime tl t) eqn:Hon; [|discriminate].
    destruct (existsb (Z.eqb t) (pollers tl)) eqn:Hex; [|discriminate].
    cbn [andb] in Hstep.
    destruct (flags tl) as [pending again] eqn:Hfl. cbn in Hp.
    destruct (pollers tl) as [|due [|due' ps]] eqn:Hps; [discriminate| |contradiction].
    cbn in Hex. rewrite orb_false_r in Hex. apply Z.eqb_eq in Hex. subst due.
    unfold maybeDoUpdateEgressCIDRs in Hstep. cbn in Hstep.
    rewrite Z.eqb_refl in Hstep. cbn [notified]. rewrite app_nil_r.
    destruct again; cbn in Hstep; injection Hstep as <-; unfold served; cbn.
    + split; [exact Hbehind|]. split; [discriminate|]. cbn in Hcount. lia.
    + split; [exact Hbehind|]. split.
      * intros _ t' Hin. exists t, (lastNotify tl). split; [|exact (Hbehind _ Hin)].
        apply elem_of_app. right. left.
      * rewrite length_app. cbn in *. lia.
Qed.

Lemma run_served es : forall tl tl' seen,
  coalescing tl -> served tl seen -> run tl es = Some tl' ->
  served tl' (seen ++ notified es).
Proof.
  induction es as [|e es IH]; intros tl tl' seen Hinv Hs Hrun; cbn [run] in Hrun.
  - injection Hrun as <-. cbn. rewrite app_nil_r. exact Hs.
  - destruct (step tl e) as [tl1|] eqn:Hstep; [|discriminate].
    change (e :: es) with ([e] ++ es)%list. rewrite notified_app, app_assoc.
    eapply IH; [eapply step_coalescing; eassumption| |exact Hrun].
    eapply step_served; eassumption.
Qed.

(** X11. Coalescing loses nothing. On every timeline the work has run at most
    as often as notifications came, and once no poller is left every
    notification there has been is followed by a run of the work that
    started a full quantum or more after a notification at least as late:
    none is left unserved. *)
Theorem UpdateEgressCIDRs_no_lost_update t0 es tl :
  run (idle t0) es = Some tl ->
  (length (writebacks tl) <= length (notified es))%nat /\
  (forall t, Notify t ∈ es -> t <= lastNotify tl) /\
  (pollers tl = [] ->
   forall t, Notify t ∈ es ->
     exists T ln, (T, ln) ∈ writebacks tl /\ t <= ln /\ ln + quantum <= T).
Proof.
  intros Hrun.
  pose proof (run_coalescing es _ _ (idle_coalescing t0) Hrun) as (_ & Hwb & _ & _).
  assert (H0 : served (idle t0) []).
  { unfold served. cbn. split; [intros t []%elem_of_nil|].
    split; [intros _ t []%elem_of_nil|lia]. }
  pose proof (run_served es _ _ [] (idle_coalescing t0) H0 Hrun) as (Hbehind & Hcov & Hcount).
  cbn [app] in *. split; [lia|]. split.
  - intros t Hin. apply Hbehind, notified_elem, Hin.
  - intros Hidle t Hin. apply notified_elem in Hin.
    destruct (Hcov Hidle t Hin) as (T & ln & Hw & Hle).
    exists T, ln. split; [exact Hw|]. split; [exact Hle|].
    specialize (Hwb T ln Hw). lia.
Qed.

Lemma UpdateEgressCIDRs_no_lost_update_witness :
  exists tl, run (idle 0) burst = Some tl /\
    (length (writebacks tl) <= length (notified burst))%nat /\
    (forall t, Notify t ∈ burst -> t <= lastNotify tl).
Proof.
  eexists. split; [vm_compute; reflexivity|].
  pose proof (UpdateEgressCIDRs_no_lost_update 0 burst _ eq_refl) as Hthm.
  split; [exact (proj1 Hthm)|exact (proj1 (proj2 Hthm))].
Defined.

(** *** [nodeIsReady] *)

(** X12. Readiness looks at every condition and a single bad one decides: the
    conditions of two lists together are ready exactly when both lists
    are, so neither the order nor a later [Ready] condition with status
    [True] changes the answer; and a node that has no [Ready] condition
    at all counts as ready. *)
Theorem nodeIsReady_app (l1 l2 : Node) :
  nodeIsReady (l1 ++ l2) = nodeIsReady l1 && nodeIsReady l2 /\
  nodeIsReady (l2 ++ l1) = nodeIsReady (l1 ++ l2) /\
  (forallb (fun cond => negb (String.eqb (Type_ cond) NodeReady)) l1 = true ->
   nodeIsReady l1 = true).
Proof.
  unfold nodeIsReady. rewrite !nodeIsReady_fold. cbn [andb].
  rewrite !existsb_app, !negb_orb. split; [reflexivity|].
  split; [apply andb_comm|].
  intros Hnone. apply negb_true_iff.
  induction l1 as [|cond l1 IH]; [reflexivity|]. cbn [forallb existsb] in *.
  apply andb_true_iff in Hnone. destruct Hnone as [Hc Hnone].
  rewrite (IH Hnone), orb_false_r. unfold readyFalseOrUnknown.
  apply negb_true_iff in Hc. rewrite Hc. reflexivity.
Qed.

(** *** [check] *)

Section CheckFacts.
Variable Get : string -> option Node.
Variable Ping : string -> Z -> bool.

Lemma probe_keeps timeout node needRetry :
  let r := probe Ping timeout node needRetry in
  ip r.1.1 = ip node /\ name r.1.1 = name node /\
  (0 <= retries node <= maxRetries -> 0 <= retries r.1.1 <= maxRetries) /\
  (forall i t, PingCall i t ∈ r.1.2 -> t = timeout) /\
  (0 <= retries node -> r.2 = true -> needRetry = true \/ 0 < retries r.1.1).
Proof.
  unfold probe.
  destruct (offline node && Ping (ip node) timeout); cbn.
  { split; [reflexivity|]. split; [reflexivity|]. split; [auto|]. split; [|auto].
    intros i t [[= _ ->]|[[=]|[]%elem_of_nil]%elem_of_cons]%elem_of_cons. reflexivity. }
  destruct (negb (offline node) && negb (Ping (ip node) timeout)); cbn.
  - destruct (Z.ltb_spec maxRetries (retries node + 1)); cbn.
    + split; [reflexivity|]. split; [reflexivity|].
      split; [unfold maxRetries; lia|]. split; [|auto].
      intros i t [[= _ ->]|[[=]|[]%elem_of_nil]%elem_of_cons]%elem_of_cons. reflexivity.
    + split; [reflexivity|]. split; [reflexivity|]. split; [lia|]. split.
      * intros i t [[= _ ->]|[]%elem_of_nil]%elem_of_cons. reflexivity.
      * intros Hpos _. right. lia.
  - split; [reflexivity|]. split; [reflexivity|]. split; [auto|]. split; [|auto].
    intros i t [[= _ ->]|[]%elem_of_nil]%elem_of_cons. reflexivity.
Qed.

Lemma checkLoop_keeps retrying timeout nodes : forall needRetry,
  let r := checkLoop Get Ping retrying timeout nodes needRetry in
  map ip r.1.1 = map ip nodes /\ map name r.1.1 = map name nodes /\
  (retriesInRange nodes -> retriesInRange r.1.1) /\
  (forall i t, PingCall i t ∈ r.1.2 -> t = timeout) /\
  (retriesInRange nodes -> r.2.1 = true ->
   needRetry = true \/ exists n, n ∈ r.1.1 /\ 0 < retries n).
Proof.
  unfold retriesInRange.
  induction nodes as [|node rest IH]; intros needRetry; cbn [checkLoop].
  - cbn. split; [reflexivity|]. split; [reflexivity|]. split; [auto|].
    split; [intros i t []%elem_of_nil|auto].
  - destruct (retrying && (retries node =? 0)).
    { specialize (IH needRetry).
      destruct (checkLoop Get Ping retrying timeout rest needRetry) as [[rest' calls] r].
      cbn in *. destruct IH as (Hip & Hname & Hret & Hping & Hneed).
      split; [rewrite Hip; reflexivity|]. split; [rewrite Hname; reflexivity|].
      split; [|split; [exact Hping|]].
      - intros Hall n [->|Hin]%elem_of_cons; [apply Hall; left|].
        apply Hret; [|exact Hin]. intros m Hm. apply Hall. right. exact Hm.
      - intros Hall Hr.
        destruct (Hneed (fun m Hm => Hall m (list_elem_of_further _ _ _ Hm)) Hr)
          as [?|(n & Hin & Hn)]; [auto|].
        right. exists n. split; [right; exact Hin|exact Hn]. }
    destruct (Get (name node)) as [nn|].
    2:{ cbn. split; [reflexivity|]. split; [reflexivity|]. split; [auto|].
        split; [intros i t []%elem_of_nil|discriminate]. }
    destruct (negb (nodeIsReady nn)).
    { cbn. split; [reflexivity|]. split; [reflexivity|].
      split; [|split; [|intros _; discriminate]].
      - intros Hall n [->|Hin]%elem_of_cons; [apply (Hall node); left|].
        apply Hall. right. exact Hin.
      - intros i t [[=]|[]%elem_of_nil]%elem_of_cons. }
    pose proof (probe_keeps timeout node needRetry) as Hp.
    destruct (probe Ping timeout node needRetry) as [[node' calls] needRetry'].
    specialize (IH needRetry').
    destruct (checkLoop Get Ping retrying timeout rest needRetry') as [[rest' calls'] r].
    cbn in *. destruct Hp as (Hip0 & Hname0 & Hret0 & Hping0 & Hneed0).
    destruct IH as (Hip & Hname & Hret & Hping & Hneed).
    split; [rewrite Hip0, Hip; reflexivity|].
    split; [rewrite Hname0, Hname; reflexivity|].
    split; [|split].
    + intros Hall n [->|Hin]%elem_of_cons; [apply Hret0, Hall; left|].
      apply Hret; [|exact Hin]. intros m Hm. apply Hall. right. exact Hm.
    + intros i t [Hin|Hin]%elem_of_app; [exact (Hping0 i t Hin)|exact (Hping i t Hin)].
    + intros Hall Hr.
      destruct (Hneed (fun m Hm => Hall m (list_elem_of_further _ _ _ Hm)) Hr)
        as [Hn|(n & Hin & Hn)].
      * destruct (Hneed0 (proj1 (Hall node (list_elem_of_here _ _))) Hn) as [?|Hpos];
          [auto|].
        right. exists node'. split; [left|exact Hpos].
      * right. exists n. split; [right; exact Hin|exact Hn].
Qed.

(** X13. A pass changes of a node only the offline flag and the retry count:
    the nodes afterwards are the same nodes in the same order. Retry
    counts that were between [0] and [maxRetries] stay there. Every ping
    of the pass has the timeout of the pass. And the pass asks for a retry
    pass only when it leaves a node with a failure counted against it. *)
Theorem check_keeps_nodes (retrying : bool) nodes :
  retriesInRange nodes ->
  let pass := check Get Ping retrying nodes in
  map ip pass.1.1 = map ip nodes /\ map name pass.1.1 = map name nodes /\
  retriesInRange pass.1.1 /\
  (forall i t, PingCall i t ∈ pass.1.2 ->
     t = if retrying then repollInterval else pollInterval) /\
  (pass.2.1 = true -> exists n, n ∈ pass.1.1 /\ 0 < retries n).
Proof.
  intros Hall pass. unfold pass, check.
  pose proof (checkLoop_keeps retrying (if retrying then repollInterval else pollInterval)
                nodes false) as Hk.
  cbv zeta in Hk. destruct Hk as (Hip & Hname & Hret & Hping & Hneed).
  split; [exact Hip|]. split; [exact Hname|]. split; [exact (Hret Hall)|].
  split; [exact Hping|].
  intros Hr. destruct (Hneed Hall Hr) as [[=]|Hn]. exact Hn.
Qed.

Lemma told_app view calls1 calls2 :
  told view (calls1 ++ calls2) = told (told view calls1) calls2.
Proof. unfold told. apply fold_left_app. Qed.

Lemma told_other i calls : forall view,
  (forall c, c ∈ calls -> callIP c <> i) -> told view calls !! i = view !! i.
Proof.
  induction calls as [|c calls IH]; intros view Hc; [reflexivity|].
  change (told view (c :: calls)) with (told (told view [c]) calls).
  rewrite IH by (intros c' Hin; apply Hc; right; exact Hin).
  specialize (Hc c ltac:(left)). destruct c as [j t|j b]; cbn; [reflexivity|].
  apply lookup_insert_ne. exact Hc.
Qed.

Lemma probe_told timeout node needRetry view :
  view !! ip node = Some (offline node) ->
  let r := probe Ping timeout node needRetry in
  told view r.1.2 !! ip node = Some (offline r.1.1).
Proof.
  intros Hv. unfold probe.
  destruct (offline node && Ping (ip node) timeout); cbn.
  { apply lookup_insert_eq. }
  destruct (negb (offline node) && negb (Ping (ip node) timeout)); cbn; [|exact Hv].
  destruct (maxRetries <? retries node + 1); cbn; [apply lookup_insert_eq|exact Hv].
Qed.

Lemma checkLoop_told retrying timeout nodes : forall needRetry view,
  NoDup (map ip nodes) -> inStep view nodes ->
  let r := checkLoop Get Ping retrying timeout nodes needRetry in
  inStep (told view r.1.2) r.1.1.
Proof.
  unfold inStep.
  induction nodes as [|node rest IH]; intros needRetry view Hnd Hv; cbn [checkLoop].
  - cbn. intros n []%elem_of_nil.
  - cbn [map] in Hnd. apply NoDup_cons in Hnd. destruct Hnd as [Hfresh Hnd].
    assert (Hrest : forall n, n ∈ rest -> ip n <> ip node).
    { intros n Hin Heq. apply Hfresh. rewrite <- Heq. apply list_elem_of_fmap_2.
      exact Hin. }
    destruct (retrying && (retries node =? 0)).
    { specialize (IH needRetry view Hnd).
      pose proof (checkLoop_calls Get Ping retrying timeout rest needRetry) as Hc.
      destruct (checkLoop Get Ping retrying timeout rest needRetry) as [[rest' calls] r].
      cbn -[told] in *. intros n [->|Hin]%elem_of_cons.
      - rewrite told_other; [apply Hv; left|].
        intros c Hin Heq. apply Hfresh. rewrite <- Heq. exact (Hc c Hin).
      - apply IH; [|exact Hin]. intros m Hm. apply Hv. right. exact Hm. }
    destruct (Get (name node)) as [nn|]; [|cbn; exact Hv].
    destruct (negb (nodeIsReady nn)).
    { cbn. intros n [->|Hin]%elem_of_cons; [apply lookup_insert_eq|].
      rewrite lookup_insert_ne by (apply not_eq_sym, Hrest, Hin).
      apply Hv. right. exact Hin. }
    pose proof (probe_told timeout node needRetry view (Hv node ltac:(left))) as Hp.
    pose proof (probe_calls Ping timeout node needRetry) as Hpc.
    pose proof (probe_ip Ping timeout node needRetry) as Hpi.
    destruct (probe Ping timeout node needRetry) as [[node' calls] needRetry'].
    specialize (IH needRetry' (told view calls) Hnd).
    pose proof (checkLoop_calls Get Ping retrying timeout rest needRetry') as Hc.
    destruct (checkLoop Get Ping retrying timeout rest needRetry') as [[rest' calls'] r].
    cbn -[told] in *. intros n Hin. rewrite told_app. apply elem_of_cons in Hin.
    destruct Hin as [->|Hin].
    + rewrite told_other; [rewrite Hpi; exact Hp|].
      intros c Hin Heq. apply Hfresh. rewrite <- Hpi, <- Heq. exact (Hc c Hin).
    + apply IH; [|exact Hin]. intros m Hm.
      rewrite told_other; [apply Hv; right; exact Hm|].
      intros c Hcin Heq. apply (Hrest m Hm). rewrite <- Heq. exact (Hpc c Hcin).
Qed.

(** X14. The tracker is told of every change of an offline flag. When the
    tracker's view of who is offline agrees with the manager's records
    before a pass over nodes with distinct addresses, it agrees with them
    after the pass, also when the pass ends early. *)
Theorem check_keeps_tracker_in_step (retrying : bool) nodes view :
  NoDup (map ip nodes) -> inStep view nodes ->
  let pass := check Get Ping retrying nodes in
  forall n, n ∈ pass.1.1 -> told view pass.1.2 !! ip n = Some (offline n).
Proof.
  intros Hnd Hv pass. unfold pass, check.
  exact (checkLoop_told retrying _ nodes false view Hnd Hv).
Qed.

End CheckFacts.

(** X23. The master never polls fast. Whatever the lister and the pings answer
    from trip to trip, every ping of every trip of [poll] has
    [pollInterval] as its timeout, [repollInterval] is never used; the
    trips keep the nodes and keep their retry counts in range. *)
Theorem poll_never_repolls answers : forall nodes,
  retriesInRange nodes ->
  let r := pollTrips answers nodes in
  retriesInRange r.1 /\ map ip r.1 = map ip nodes /\ map name r.1 = map name nodes /\
  length r.2 = length answers /\
  forall calls i t, calls ∈ r.2 -> PingCall i t ∈ calls -> t = pollInterval.
Proof.
  induction answers as [|[get ping] answers IH]; intros nodes Hall; cbn [pollTrips].
  - cbn. split; [exact Hall|]. split; [reflexivity|]. split; [reflexivity|].
    split; [reflexivity|]. intros calls i t []%elem_of_nil.
  - unfold pollTrip, check.
    pose proof (checkLoop_keeps get ping false pollInterval nodes false) as Hk.
    cbv zeta in Hk.
    destruct (checkLoop get ping false pollInterval nodes false)
      as [[nodes1 calls1] [retry1 err1]].
    cbn [fst snd] in Hk. destruct Hk as (Hip & Hname & Hret & Hping & _).
    specialize (IH nodes1 (Hret Hall)). cbv zeta in IH.
    destruct (pollTrips answers nodes1) as [nodes2 later].
    cbn [fst snd] in IH |- *. destruct IH as (Hr2 & Hip2 & Hname2 & Hlen & Hp2).
    split; [exact Hr2|]. split; [congruence|]. split; [congruence|].
    split; [cbn; rewrite Hlen; reflexivity|].
    intros calls i t [->|Hin]%elem_of_cons Hc; [exact (Hping i t Hc)|].
    exact (Hp2 calls i t Hin Hc).
Qed.

Lemma poll_never_repolls_witness :
  length (pollTrips flaky [nodeB]).2 = 5%nat /\
  map ip (pollTrips flaky [nodeB]).1 = ["10.0.0.3"%string].
Proof.
  assert (Hall : retriesInRange [nodeB]).
  { intros n [->|[]%elem_of_nil]%elem_of_cons; cbn; unfold maxRetries; lia. }
  pose proof (poll_never_repolls flaky [nodeB] Hall) as Hthm. cbv zeta in Hthm.
  destruct Hthm as (_ & Hip & _ & Hlen & _). split; [exact Hlen|exact Hip].
Defined.

Lemma check_keeps_nodes_witness :
  let pass := check getAllReady pingFails false [nodeA; nodeB] in
  map ip pass.1.1 = ["10.0.0.2"; "10.0.0.3"]%string /\
  exists n, n ∈ pass.1.1 /\ 0 < retries n.
Proof.
  assert (Hall : retriesInRange [nodeA; nodeB]).
  { intros n [->|[->|[]%elem_of_nil]%elem_of_cons]%elem_of_cons; cbn;
      unfold maxRetries; lia. }
  pose proof (check_keeps_nodes getAllReady pingFails false [nodeA; nodeB] Hall) as Hthm.
  cbv zeta in Hthm. intros pass. split; [exact (proj1 Hthm)|].
  exact (proj2 (proj2 (proj2 (proj2 Hthm))) eq_refl).
Defined.

Lemma check_keeps_tracker_in_step_witness :
  let view : gmap string bool :=
    <["10.0.0.2"%string := false]> (<["10.0.0.3"%string := false]> ∅) in
  let pass := check getAdown pingFails false [nodeA; nodeB] in
  told view pass.1.2 !! "10.0.0.2"%string = Some true /\
  told view pass.1.2 !! "10.0.0.3"%string = Some false.
Proof.
  intros view pass.
  assert (Hv : inStep view [nodeA; nodeB]).
  { intros n [->|[->|[]%elem_of_nil]%elem_of_cons]%elem_of_cons; reflexivity. }
  pose proof (check_keeps_tracker_in_step getAdown pingFails false [nodeA; nodeB] view
                monitored_NoDup Hv) as Hthm.
  split.
  - exact (Hthm (setOffline nodeA true) (list_elem_of_here _ _)).
  - exact (Hthm nodeB (list_elem_of_further _ _ _ (list_elem_of_here _ _))).
Defined.

End MasterFacts.

(** ** More on the node watcher *)

Module NodeWatcherFacts.
Import Go NodeWatcher.
Local Open Scope string_scope.

Section Watcher.
Context `{HostNet}.

(** A local claim that [assignEgressIP] turns down before it touches the
    host: the egress IP is the node's own IP, or (outside test mode) the
    link of the node IP cannot be found, the address does not parse, or
    it is not in the network of the link. *)
Definition refusedEarly (egressIP : string) (eip : egressIPWatcher) : Prop :=
  egressIP = localIP eip \/
  (testMode eip = false /\
   match GetLinkDetails (localIP eip) with
   | Err _ => True
   | Ok (link, net) =>
       match netlink_ParseAddr (egressIP +:+ "/" +:+ itoa (Net_MaskSize net)) with
       | Err _ => True
       | Ok addr => Net_Contains net (IP addr) = false
       end
   end).

(** The conditions under which a local claim or release of [egressIP]
    gets to the host's address table, as [addr] on [link]. *)
Definition reachesHost (egressIP link : string) (addr : Addr) (eip : egressIPWatcher)
  : Prop :=
  egressIP <> localIP eip /\ testMode eip = false /\
  exists net,
    GetLinkDetails (localIP eip) = Ok (link, net) /\
    netlink_ParseAddr (egressIP +:+ "/" +:+ itoa (Net_MaskSize net)) = Ok addr /\
    Net_Contains net (IP addr) = true.

End Watcher.

(** The address as [assignEgressIP] hands it to netlink. *)
Definition labelled (link : string) (addr : Addr) : Addr :=
  {| IPNet := IPNet addr; IP := IP addr;
     Label := match egressIPLabel link with Ok label => label | Err _ => "" end |}.

(** An address [Synced] takes for a left-over: it has the egress label
    and its IP has no mark. *)
Definition stale (label : string) (marks : gmap string string) (a : Addr) : bool :=
  String.eqb (Label a) label && String.eqb (default "" (marks !! IP a)) "".

(** The callback claims or releases [egressIP]. *)
Definition touches (egressIP : string) (cb : callback) : bool :=
  match cb with
  | Claim _ e _ | Release e _ => String.eqb e egressIP
  | _ => false
  end.

(** [HandleError], or nothing. *)
Definition logged (tail : list effect) : Prop :=
  tail = [] \/ exists msg, tail = [HandleError msg].

(** The monitored nodes mirror the claims of the other nodes: the local
    node is not monitored, every node is filed under its own IP, and a
    node is monitored with an egress IP exactly when it holds that egress
    IP by the account of the tracker. *)
Definition mirrors (eip : egressIPWatcher) (claims : gmap string string) : Prop :=
  monitorNodes eip !! localIP eip = None /\
  (forall ip node, monitorNodes eip !! ip = Some node -> nodeIP node = ip) /\
  forall ip e, ip <> localIP eip ->
    ((exists node, monitorNodes eip !! ip = Some node /\ e ∈ egressIPs node) <->
     claims !! e = Some ip).

(** An egress IP outside the network of the link, and one inside it. *)
Definition addr100 : Addr :=
  {| IPNet := "192.168.1.100/24"; IP := "192.168.1.100"; Label := "" |}.

(** A host that still carries the egress address of an earlier run and an
    address of its own. *)
Definition leftOvers : list (string * Addr) :=
  [("eth0", {| IPNet := "192.168.1.100/24"; IP := "192.168.1.100"; Label := "eth0:eip" |});
   ("eth0", {| IPNet := "192.168.1.2/24"; IP := "192.168.1.2"; Label := "" |})].

(** *** The label *)

Lemma length_append s t :
  String.length (s +:+ t) = (String.length s + String.length t)%nat.
Proof.
  induction s as [|c s IH]; [reflexivity|].
  change (String c s +:+ t) with (String c (s +:+ t)). cbn [String.length].
  rewrite IH. reflexivity.
Qed.

Lemma prefix_append s t u : String.prefix t u = true -> String.prefix (s +:+ t) (s +:+ u) = true.
Proof.
  intros Htu. induction s as [|c s IH]; [exact Htu|].
  change (String c s +:+ t) with (String c (s +:+ t)).
  change (String c s +:+ u) with (String c (s +:+ u)).
  cbn [String.prefix]. destruct (ascii_dec c c) as [_|Hne]; [exact IH|contradiction].
Qed.

(** X15. A link gets its egress label, the link name followed by [":eip"],
    exactly when the name has at most 11 characters; the label then
    starts with the link name and a colon and has at most 15 characters.
    A longer name gets the error and no label. *)
Theorem egressIPLabel_fits link :
  (egressIPLabel link = Ok (link +:+ ":eip") <-> (String.length link <= 11)%nat) /\
  (forall label, egressIPLabel link = Ok label ->
     label = link +:+ ":eip" /\ (String.length label <= 15)%nat /\
     String.prefix (link +:+ ":") label = true) /\
  ((exists msg, egressIPLabel link = Err msg) <-> (11 < String.length link)%nat).
Proof.
  unfold egressIPLabel. pose proof (length_append link ":eip") as Hlen.
  cbn [String.length] in Hlen.
  destruct (Nat.ltb_spec 15 (String.length (link +:+ ":eip"))) as [Hlong|Hfits].
  - split; [split; [discriminate|lia]|]. split; [discriminate|].
    split; [lia|eauto].
  - split; [split; [lia|reflexivity]|]. split.
    + intros label [= <-]. split; [reflexivity|]. split; [exact Hfits|].
      apply prefix_append. reflexivity.
    + split; [intros (msg & [=])|lia].
Qed.

Section WatcherFacts.
Context `{HostNet}.

(** *** Local claims and releases *)

(** X16. A local claim that is turned down early leaves the host alone: no
    address is added, nothing is announced, no iptables rule is asked
    for; the one effect is the logged error. The mark of the egress IP is
    recorded all the same. *)
Theorem ClaimEgressIP_refused vnid egressIP eip :
  refusedEarly egressIP eip ->
  let mark := Mark.getMarkForVNID vnid (masqueradeBit eip) in
  let eip' := ClaimEgressIP vnid egressIP (localIP eip) eip in
  (exists err,
     effects eip' =
       (effects eip ++
        [HandleError ("Error assigning Egress IP " +:+ quoted egressIP +:+ ": " +:+ err)])%list) /\
  linkAddrs eip' = linkAddrs eip /\
  iptablesMark eip' = <[egressIP := mark]> (iptablesMark eip) /\
  monitorNodes eip' = monitorNodes eip /\ stop eip' = stop eip.
Proof.
  intros Href mark eip'. unfold eip', ClaimEgressIP. rewrite String.eqb_refl. fold mark.
  unfold assignEgressIP. cbn [localIP testMode setIptablesMark].
  destruct (String.eqb_spec egressIP (localIP eip)) as [Heq|Hne].
  { cbn. split; [eauto|]. repeat split; reflexivity. }
  destruct Href as [Heq|(Htest & Hwhy)]; [contradiction|]. rewrite Htest.
  destruct (GetLinkDetails (localIP eip)) as [[link net]|err].
  2:{ cbn. split; [eauto|]. repeat split; reflexivity. }
  destruct (netlink_ParseAddr _) as [addr|err].
  2:{ cbn. split; [eauto|]. repeat split; reflexivity. }
  rewrite Hwhy. cbn. split; [eauto|]. repeat split; reflexivity.
Qed.

Lemma sameAddr_refl link addr : sameAddr link addr (link, addr) = true.
Proof. unfold sameAddr. cbn. rewrite !String.eqb_refl. reflexivity. Qed.

Lemma filter_sameAddr_none link addr (L : list (string * Addr)) :
  existsb (sameAddr link addr) L = false ->
  filter (fun e => negb (sameAddr link addr e)) L = L.
Proof.
  induction L as [|e L IH]; cbn [existsb]; [reflexivity|].
  intros [He HL]%orb_false_iff. rewrite filter_cons, IH by exact HL.
  rewrite He. reflexivity.
Qed.

(** What a local claim that reaches the host does. *)
Lemma ClaimEgressIP_local vnid egressIP link addr eip :
  reachesHost egressIP link addr eip ->
  let mark := Mark.getMarkForVNID vnid (masqueradeBit eip) in
  let eip' := ClaimEgressIP vnid egressIP (localIP eip) eip in
  localIP eip' = localIP eip /\ testMode eip' = testMode eip /\
  masqueradeBit eip' = masqueradeBit eip /\
  iptablesMark eip' = <[egressIP := mark]> (iptablesMark eip) /\
  linkAddrs eip' =
    (if existsb (sameAddr link addr) (linkAddrs eip) then linkAddrs eip
     else linkAddrs eip ++ [(link, labelled link addr)])%list /\
  exists tail,
    effects eip' =
      (effects eip ++ [AddrAdd link (labelled link addr); Arping link egressIP;
                       AddEgressIPRules egressIP mark] ++ tail)%list /\
    logged tail.
Proof.
  intros (Hne & Htest & net & Hlink & Hparse & Hin) mark eip'.
  unfold eip', ClaimEgressIP. rewrite String.eqb_refl. fold mark.
  unfold assignEgressIP. cbn [localIP testMode setIptablesMark].
  rewrite (proj2 (String.eqb_neq _ _) Hne), Htest, Hlink, Hparse, Hin.
  cbn [negb]. fold (labelled link addr). unfold netlink_AddrAdd.
  cbn [linkAddrs emit setIptablesMark setLinkAddrs].
  change (sameAddr link (labelled link addr)) with (sameAddr link addr).
  unfold logged.
  destruct (existsb (sameAddr link addr) (linkAddrs eip));
    destruct (iptables_AddEgressIPRules egressIP mark) as [err|]; cbn;
    rewrite <- ?app_assoc; cbn; repeat split; eauto.
Qed.

(** What a local release that reaches the host does. *)
Lemma ReleaseEgressIP_local egressIP link addr eip :
  reachesHost egressIP link addr eip ->
  let mark := default "" (iptablesMark eip !! egressIP) in
  let eip' := ReleaseEgressIP egressIP (localIP eip) eip in
  localIP eip' = localIP eip /\ testMode eip' = testMode eip /\
  masqueradeBit eip' = masqueradeBit eip /\
  iptablesMark eip' = delete egressIP (iptablesMark eip) /\
  linkAddrs eip' = filter (fun e => negb (sameAddr link addr e)) (linkAddrs eip) /\
  exists tail,
    effects eip' =
      (effects eip ++ [AddrDel link addr; DeleteEgressIPRules egressIP mark] ++ tail)%list /\
    logged tail.
Proof.
  intros (Hne & Htest & net & Hlink & Hparse & Hin) mark eip'.
  unfold eip', ReleaseEgressIP. rewrite String.eqb_refl. fold mark.
  unfold releaseEgressIP. cbn [localIP testMode setIptablesMark].
  rewrite (proj2 (String.eqb_neq _ _) Hne), Htest, Hlink, Hparse.
  unfold netlink_AddrDel. cbn [linkAddrs emit setIptablesMark setLinkAddrs].
  unfold logged.
  destruct (existsb (sameAddr link addr) (linkAddrs eip)) eqn:Hex;
    destruct (iptables_DeleteEgressIPRules egressIP mark) as [err|]; cbn;
    rewrite <- ?app_assoc; cbn; rewrite ?(filter_sameAddr_none _ _ _ Hex);
    repeat split; eauto.
Qed.

(** X17. Claim and release undo each other on the host. When a local claim
    puts an address on the link that was not there, the release that
    follows takes exactly that address off again: the address table is
    the one before the claim, the mark is forgotten, and the iptables
    rule is deleted with the very mark it was added with. *)
Theorem Claim_Release_round_trip vnid egressIP link addr eip :
  reachesHost egressIP link addr eip ->
  existsb (sameAddr link addr) (linkAddrs eip) = false ->
  let mark := Mark.getMarkForVNID vnid (masqueradeBit eip) in
  let eip1 := ClaimEgressIP vnid egressIP (localIP eip) eip in
  let eip2 := ReleaseEgressIP egressIP (localIP eip) eip1 in
  linkAddrs eip1 = (linkAddrs eip ++ [(link, labelled link addr)])%list /\
  linkAddrs eip2 = linkAddrs eip /\
  iptablesMark eip2 = delete egressIP (iptablesMark eip) /\
  exists tail1 tail2,
    effects eip2 =
      (effects eip ++
       [AddrAdd link (labelled link addr); Arping link egressIP;
        AddEgressIPRules egressIP mark] ++ tail1 ++
       [AddrDel link addr; DeleteEgressIPRules egressIP mark] ++ tail2)%list /\
    logged tail1 /\ logged tail2.
Proof.
  intros Hreach Hfree mark eip1 eip2.
  destruct (ClaimEgressIP_local vnid egressIP link addr eip Hreach)
    as (L1 & T1 & _ & M1 & A1 & tail1 & E1 & G1).
  fold mark eip1 in L1, T1, M1, A1, E1. rewrite Hfree in A1.
  assert (Hreach1 : reachesHost egressIP link addr eip1).
  { unfold reachesHost in *. rewrite L1, T1. exact Hreach. }
  destruct (ReleaseEgressIP_local egressIP link addr eip1 Hreach1)
    as (_ & _ & _ & M2 & A2 & tail2 & E2 & G2).
  rewrite L1 in M2, A2, E2. fold eip2 in M2, A2, E2.
  split; [exact A1|]. split; [|split].
  - rewrite A2, A1, filter_app, filter_cons, filter_nil.
    rewrite (filter_sameAddr_none _ _ _ Hfree).
    change (sameAddr link addr (link, labelled link addr))
      with (sameAddr link (labelled link addr) (link, labelled link addr)).
    rewrite sameAddr_refl. cbn. apply app_nil_r.
  - rewrite M2, M1. apply delete_insert_eq.
  - exists tail1, tail2. split; [|split; assumption].
    rewrite E2, E1, M1, lookup_insert_eq. cbn [default].
    rewrite <- !app_assoc. reflexivity.
Qed.

(** *** The mark on its way to OVS *)

Lemma deliver_masqueradeBit eip cb : masqueradeBit (deliver eip cb) = masqueradeBit eip.
Proof.
  destruct cb as [vnid egressIP nodeIP|egressIP nodeIP|vnid ips|]; cbn [deliver].
  - unfold ClaimEgressIP. destruct (String.eqb nodeIP (localIP eip)).
    + set (mark := Mark.getMarkForVNID vnid (masqueradeBit eip)).
      set (eip1 := setIptablesMark _ eip).
      pose proof (frame_assignEgressIP egressIP mark eip1) as (_ & F2 & _).
      destruct (assignEgressIP egressIP mark eip1) as [[err|] eip2]; cbn [snd] in *;
        cbn; rewrite F2; reflexivity.
    + unfold addEgressIP. destruct (monitorNodes eip !! nodeIP); [reflexivity|].
      destruct (_ =? _)%nat; reflexivity.
  - unfold ReleaseEgressIP. destruct (String.eqb nodeIP (localIP eip)).
    + set (mark := default "" (iptablesMark eip !! egressIP)).
      set (eip1 := setIptablesMark _ eip).
      pose proof (frame_releaseEgressIP egressIP mark eip1) as (_ & F2 & _).
      destruct (releaseEgressIP egressIP mark eip1) as [[err|] eip2]; cbn [snd] in *;
        cbn; rewrite F2; reflexivity.
    + unfold removeEgressIP. destruct (monitorNodes eip !! nodeIP); [|reflexivity].
      destruct (_ =? _)%nat; [|reflexivity]. cbn [stop setMonitorNodes].
      destruct (stop eip); [|reflexivity].
      destruct (_ =? _)%nat; reflexivity.
  - destruct (frame_SetNamespaceEgressViaEgressIPs vnid ips eip) as (_ & F2 & _).
    exact F2.
  - destruct (frame_Synced eip) as (_ & F2 & _). exact F2.
Qed.

Lemma deliverAll_untouched egressIP cbs : forall eip,
  forallb (fun cb => negb (touches egressIP cb)) cbs = true ->
  iptablesMark (deliverAll eip cbs) !! egressIP = iptablesMark eip !! egressIP /\
  masqueradeBit (deliverAll eip cbs) = masqueradeBit eip.
Proof.
  induction cbs as [|cb cbs IH]; intros eip Hcbs; [split; reflexivity|].
  cbn [forallb] in Hcbs. apply andb_true_iff in Hcbs. destruct Hcbs as [Hcb Hcbs].
  cbn [deliverAll fold_left]. unfold deliverAll in IH.
  destruct (IH (deliver eip cb) Hcbs) as [-> ->].
  rewrite deliver_masqueradeBit. split; [|reflexivity].
  destruct (deliver_marks eip cb) as [_ ->]. apply negb_true_iff in Hcb.
  destruct cb as [vnid e nodeIP|e nodeIP|vnid ips|]; cbn [touches] in Hcb;
    try reflexivity; apply String.eqb_neq in Hcb;
    destruct (String.eqb nodeIP (localIP eip)); try reflexivity.
  - apply lookup_insert_ne, Hcb.
  - apply lookup_delete_ne, Hcb.
Qed.

(** X18. The mark of a local claim is the one OVS gets. From a local claim of
    an egress IP on, whether or not the address could be assigned, and
    through whatever the tracker reports until it claims or releases this
    egress IP again, [SetNamespaceEgressViaEgressIPs] hands the OVS
    controller the mark of the claiming namespace for this egress IP. *)
Theorem local_claim_mark_reaches_ovs vnid egressIP eip later vnid' active :
  forallb (fun cb => negb (touches egressIP cb)) later = true ->
  let mark := Mark.getMarkForVNID vnid (masqueradeBit eip) in
  let eip1 := deliverAll (ClaimEgressIP vnid egressIP (localIP eip) eip) later in
  iptablesMark eip1 !! egressIP = Some mark /\
  exists md tail,
    effects (SetNamespaceEgressViaEgressIPs vnid' active eip1) =
      (effects eip1 ++ OvsViaEgressIPs vnid' md :: tail)%list /\
    logged tail /\
    md = map (fun a => {| metaNodeIP := NodeIP a;
                          packetMark := if String.eqb (EgressIP a) egressIP then mark
                                        else default "" (iptablesMark eip1 !! EgressIP a) |})
             active.
Proof.
  intros Hlater mark eip1.
  assert (Hmark : iptablesMark eip1 !! egressIP = Some mark).
  { unfold eip1.
    destruct (deliverAll_untouched egressIP later
                (ClaimEgressIP vnid egressIP (localIP eip) eip) Hlater) as [-> _].
    destruct (deliver_marks eip (Claim vnid egressIP (localIP eip))) as [_ Hm].
    cbn [deliver] in Hm. rewrite Hm, String.eqb_refl. apply lookup_insert_eq. }
  split; [exact Hmark|]. unfold SetNamespaceEgressViaEgressIPs.
  set (md := map _ active).
  exists md, (match oc_SetNamespaceEgressViaEgressIPs vnid' md with
              | Some err => [HandleError ("Error updating Namespace egress rules for VNID " +:+
                                          itoa vnid' +:+ ": " +:+ err)]
              | None => []
              end).
  split; [|split].
  - destruct (oc_SetNamespaceEgressViaEgressIPs vnid' md); cbn;
      rewrite <- ?app_assoc; reflexivity.
  - unfold logged. destruct (oc_SetNamespaceEgressViaEgressIPs vnid' md); eauto.
  - unfold md. apply map_ext. intros a.
    destruct (String.eqb_spec (EgressIP a) egressIP) as [->|_]; [|reflexivity].
    rewrite Hmark. reflexivity.
Qed.

(** *** [Synced] *)

Lemma cleanStale_keeps link label eip addr :
  iptablesMark (cleanStale link label eip addr) = iptablesMark eip /\
  forall entry,
    entry ∈ linkAddrs (cleanStale link label eip addr) <->
    entry ∈ linkAddrs eip /\
    (stale label (iptablesMark eip) addr = true -> sameAddr link addr entry = false).
Proof.
  unfold cleanStale. fold (stale label (iptablesMark eip) addr).
  destruct (stale label (iptablesMark eip) addr).
  2:{ split; [reflexivity|]. intros entry. split; [intros ?; split; [assumption|discriminate]|].
      intros [? _]. assumption. }
  unfold netlink_AddrDel. cbn [linkAddrs emit].
  destruct (existsb (sameAddr link addr) (linkAddrs eip)) eqn:Hex; cbn.
  - split; [reflexivity|]. intros entry. rewrite list_elem_of_filter.
    destruct (sameAddr link addr entry); cbn; split; try tauto.
    intros [_ Hs]. specialize (Hs eq_refl). discriminate.
  - split; [reflexivity|]. intros entry. split; [|tauto].
    intros Hin. split; [exact Hin|]. intros _.
    destruct (sameAddr link addr entry) eqn:Hs; [|reflexivity].
    assert (Hex' : existsb (sameAddr link addr) (linkAddrs eip) = true).
    { apply existsb_exists. exists entry. split; [apply list_elem_of_In, Hin|exact Hs]. }
    congruence.
Qed.

Lemma cleanStale_fold link label addrs : forall eip,
  let eip' := fold_left (cleanStale link label) addrs eip in
  iptablesMark eip' = iptablesMark eip /\
  forall entry,
    entry ∈ linkAddrs eip' <->
    entry ∈ linkAddrs eip /\
    forall a, a ∈ addrs -> stale label (iptablesMark eip) a = true ->
      sameAddr link a entry = false.
Proof.
  induction addrs as [|a addrs IH]; intros eip; cbn [fold_left].
  - split; [reflexivity|]. intros entry. split; [|tauto].
    intros Hin. split; [exact Hin|]. intros a []%elem_of_nil.
  - destruct (IH (cleanStale link label eip a)) as [Hm Hl].
    destruct (cleanStale_keeps link label eip a) as [Hm1 Hl1].
    split; [rewrite Hm; exact Hm1|]. intros entry.
    rewrite Hl, Hl1, Hm1. split.
    + intros [[Hin Ha] Hrest]. split; [exact Hin|].
      intros a' [->|Hin']%elem_of_cons; [exact Ha|apply Hrest, Hin'].
    + intros [Hin Hall]. split; [split; [exact Hin|apply Hall; left]|].
      intros a' Hin'. apply Hall. right. exact Hin'.
Qed.

(** X19. [Synced] on a link that has its egress label removes the left-overs
    of an earlier run and nothing else. An address is still there
    afterwards exactly when it was there before and is not on this link
    at the place of an address that has the egress label and no mark. So
    every such left-over is gone, and every address on another link, and
    every address of this link whose place no left-over shares, is kept;
    no address is added; the marks are as before; and the iptables rules
    are resynced last. *)
Theorem Synced_cleans_stale eip link net label :
  GetLinkDetails (localIP eip) = Ok (link, net) ->
  egressIPLabel link = Ok label ->
  let eip' := Synced eip in
  let leftOver a := (link, a) ∈ linkAddrs eip /\ stale label (iptablesMark eip) a = true in
  (forall entry,
     entry ∈ linkAddrs eip' <->
     entry ∈ linkAddrs eip /\
     forall a, leftOver a -> sameAddr link a entry = false) /\
  (forall a, leftOver a -> (link, a) ∉ linkAddrs eip') /\
  (forall other a, other <> link -> (other, a) ∈ linkAddrs eip ->
     (other, a) ∈ linkAddrs eip') /\
  iptablesMark eip' = iptablesMark eip /\
  exists es, effects eip' = (effects eip ++ es ++ [SyncEgressIPRules])%list /\
    forallb quiet es = true.
Proof.
  intros Hlink Hlabel eip' leftOver.
  assert (Haddrs : forall a, a ∈ netlink_AddrList link eip <-> (link, a) ∈ linkAddrs eip).
  { intros a. unfold netlink_AddrList. rewrite list_elem_of_fmap. split.
    - intros ([l a'] & -> & [Hl Hin]%list_elem_of_filter). cbn in *.
      apply Is_true_true, String.eqb_eq in Hl. subst l. exact Hin.
    - intros Hin. exists (link, a). split; [reflexivity|].
      apply list_elem_of_filter. split; [|exact Hin]. cbn.
      rewrite String.eqb_refl. exact I. }
  pose proof (cleanStale_fold link label (netlink_AddrList link eip) eip) as Hfold.
  cbv zeta in Hfold. destruct Hfold as [Hm Hl].
  assert (Hsynced : eip' =
    emit SyncEgressIPRules (fold_left (cleanStale link label) (netlink_AddrList link eip) eip)).
  { unfold eip', Synced. rewrite Hlink, Hlabel. reflexivity. }
  assert (Hkept : forall entry,
    entry ∈ linkAddrs eip' <->
    entry ∈ linkAddrs eip /\ forall a, leftOver a -> sameAddr link a entry = false).
  { intros entry. rewrite Hsynced. cbn [linkAddrs emit]. rewrite Hl. unfold leftOver.
    split; intros [Hin Hall]; (split; [exact Hin|]).
    - intros a [Ha Hs]. apply Hall; [apply Haddrs, Ha|exact Hs].
    - intros a Ha Hs. apply Hall. split; [apply Haddrs, Ha|exact Hs]. }
  split; [exact Hkept|]. split; [|split; [|split]].
  - intros a Hleft [_ Hall]%Hkept. specialize (Hall a Hleft).
    rewrite sameAddr_refl in Hall. discriminate.
  - intros other a Hne Hin. apply Hkept. split; [exact Hin|].
    intros a' _. unfold sameAddr. cbn.
    rewrite (proj2 (String.eqb_neq _ _) Hne). reflexivity.
  - rewrite Hsynced. exact Hm.
  - rewrite Hsynced. cbn [effects emit].
    assert (Hframe : exists es0,
      effects (fold_left (cleanStale link label) (netlink_AddrList link eip) eip) =
        (effects eip ++ es0)%list /\ forallb quiet es0 = true).
    { generalize (netlink_AddrList link eip) as addrs. intros addrs.
      clear. revert eip.
      induction addrs as [|a addrs IH]; intros eip; cbn [fold_left].
      - exists []. rewrite app_nil_r. split; reflexivity.
      - destruct (IH (cleanStale link label eip a)) as (es1 & E1 & Q1).
        pose proof (frame_cleanStale link label eip a)
          as (_ & _ & _ & _ & _ & _ & _ & es0 & E0 & Q0).
        exists (es0 ++ es1)%list. rewrite E1, E0, app_assoc, forallb_app, Q0, Q1.
        split; reflexivity. }
    destruct Hframe as (es0 & E0 & Q0). exists es0.
    rewrite E0, app_assoc. split; [reflexivity|exact Q0].
Qed.

End WatcherFacts.

(** *** The monitored nodes and the tracker's claims *)

Section Mirror.
Context `{HostNet}.

Lemma addEgressIP_monitorNodes ip e eip :
  monitorNodes (addEgressIP ip e eip) =
    <[ip := match monitorNodes eip !! ip with
            | Some node => {| nodeIP := nodeIP node; offline := offline node;
                              egressIPs := egressIPs node ∪ {[e]};
                              retries := retries node |}
            | None => {| nodeIP := ip; offline := false; egressIPs := {[e]};
                         retries := 0 |}
            end]> (monitorNodes eip) /\
  localIP (addEgressIP ip e eip) = localIP eip.
Proof.
  unfold addEgressIP. destruct (monitorNodes eip !! ip); [split; reflexivity|].
  destruct (_ =? _)%nat; split; reflexivity.
Qed.

Lemma removeEgressIP_monitorNodes ip e eip :
  monitorNodes (removeEgressIP ip e eip) =
    match monitorNodes eip !! ip with
    | None => monitorNodes eip
    | Some node =>
        if (size (egressIPs node ∖ {[e]}) =? 0)%nat then delete ip (monitorNodes eip)
        else <[ip := {| nodeIP := nodeIP node; offline := offline node;
                        egressIPs := egressIPs node ∖ {[e]};
                        retries := retries node |}]> (monitorNodes eip)
    end /\
  localIP (removeEgressIP ip e eip) = localIP eip.
Proof.
  unfold removeEgressIP. destruct (monitorNodes eip !! ip) as [node|]; [|split; reflexivity].
  cbn [egressIPs]. destruct (_ =? _)%nat; [|split; reflexivity].
  cbn [stop setMonitorNodes monitorNodes]. rewrite delete_insert_eq.
  destruct (stop eip); [|split; reflexivity].
  destruct (_ =? _)%nat; split; reflexivity.
Qed.

Lemma in_add (X : gset string) e e' : e' ∈ X ∪ {[e]} <-> e' ∈ X \/ e' = e.
Proof. rewrite elem_of_union, elem_of_singleton. reflexivity. Qed.

Lemma in_remove (X : gset string) e e' : e' ∈ X ∖ {[e]} <-> e' ∈ X /\ e' <> e.
Proof. rewrite elem_of_difference, elem_of_singleton. reflexivity. Qed.

Lemma mirrors_local eip eip' claims claims' e :
  monitorNodes eip' = monitorNodes eip -> localIP eip' = localIP eip ->
  mirrors eip claims ->
  (forall ip, ip <> localIP eip -> claims !! e <> Some ip) ->
  (forall e', e' <> e -> claims' !! e' = claims !! e') ->
  (forall ip, ip <> localIP eip -> claims' !! e <> Some ip) ->
  mirrors eip' claims'.
Proof.
  intros Hm Hl (Hloc & Hkey & Hmir) Hold Hother Hnew. unfold mirrors. rewrite Hm, Hl.
  split; [exact Hloc|]. split; [exact Hkey|]. intros ip e' Hip.
  rewrite (Hmir ip e' Hip). destruct (decide (e' = e)) as [->|Hne].
  - split; intros Hc; [destruct (Hold ip Hip Hc)|destruct (Hnew ip Hip Hc)].
  - rewrite (Hother e' Hne). reflexivity.
Qed.

Lemma deliver_mirrors eip claims cb :
  mirrors eip claims -> releaseBeforeClaim claims [cb] ->
  mirrors (deliver eip cb) (track claims cb).
Proof.
  intros Hinv Hcb. pose proof Hinv as (Hloc & Hkey & Hmir).
  destruct cb as [vnid e n|e n|vnid ips|]; cbn [deliver track]; cbn in Hcb.
  - (* a claim *)
    destruct Hcb as [Hfree _].
    destruct (String.eqb_spec n (localIP eip)) as [->|Hremote].
    + destruct (localOnly_ClaimEgressIP vnid e eip) as (Hm & _).
      destruct (deliver_marks eip (Claim vnid e (localIP eip))) as [Hl _].
      cbn [deliver] in Hl.
      apply (mirrors_local eip _ claims _ e Hm Hl Hinv).
      * intros ip _. rewrite Hfree. discriminate.
      * intros e' Hne. apply lookup_insert_ne. congruence.
      * intros ip Hip. rewrite lookup_insert_eq. congruence.
    + unfold ClaimEgressIP. rewrite (proj2 (String.eqb_neq _ _) Hremote).
      destruct (addEgressIP_monitorNodes n e eip) as [Hm Hl].
      unfold mirrors. rewrite Hm, Hl.
      split; [rewrite lookup_insert_ne by exact Hremote; exact Hloc|]. split.
      { intros ip node. destruct (decide (n = ip)) as [<-|Hne].
        - rewrite lookup_insert_eq. intros [= <-].
          destruct (monitorNodes eip !! n) as [old|] eqn:Hold; [|reflexivity].
          exact (Hkey n old Hold).
        - rewrite lookup_insert_ne by exact Hne. apply Hkey. }
      intros ip e' Hip. destruct (decide (n = ip)) as [<-|Hne].
      * rewrite lookup_insert_eq. destruct (decide (e' = e)) as [->|Hne'].
        { rewrite lookup_insert_eq. split; [reflexivity|]. intros _.
          eexists. split; [reflexivity|].
          destruct (monitorNodes eip !! n); cbn;
            [apply in_add; right; reflexivity|apply elem_of_singleton; reflexivity]. }
        rewrite lookup_insert_ne by congruence. rewrite <- (Hmir n e' Hip). split.
        { intros (node & [= <-] & Hin).
          destruct (monitorNodes eip !! n) as [old|]; cbn in Hin;
            [|apply elem_of_singleton in Hin; contradiction].
          exists old. split; [reflexivity|].
          apply in_add in Hin. destruct Hin as [Hin|Hin]; [exact Hin|contradiction]. }
        intros (old & Hold & Hin). rewrite Hold. eexists. split; [reflexivity|].
        cbn. apply in_add. left. exact Hin.
      * rewrite lookup_insert_ne by exact Hne. rewrite (Hmir ip e' Hip).
        destruct (decide (e' = e)) as [->|Hne'].
        { rewrite lookup_insert_eq, Hfree. split; [discriminate|congruence]. }
        rewrite lookup_insert_ne by congruence. reflexivity.
  - (* a release *)
    destruct Hcb as [Hheld _].
    destruct (String.eqb_spec n (localIP eip)) as [->|Hremote].
    + destruct (localOnly_ReleaseEgressIP e eip) as (Hm & _).
      destruct (deliver_marks eip (Release e (localIP eip))) as [Hl _].
      cbn [deliver] in Hl.
      apply (mirrors_local eip _ claims _ e Hm Hl Hinv).
      * intros ip Hip. rewrite Hheld. congruence.
      * intros e' Hne. apply lookup_delete_ne. congruence.
      * intros ip _. rewrite lookup_delete_eq. discriminate.
    + unfold ReleaseEgressIP. rewrite (proj2 (String.eqb_neq _ _) Hremote).
      destruct (removeEgressIP_monitorNodes n e eip) as [Hm Hl].
      destruct (proj2 (Hmir n e Hremote) Hheld) as (old & Hold & Hin).
      rewrite Hold in Hm. unfold mirrors. rewrite Hm, Hl.
      destruct (size (egressIPs old ∖ {[e]}) =? 0)%nat eqn:Hsize.
      * apply Nat.eqb_eq, size_empty_iff in Hsize.
        split; [rewrite lookup_delete_ne by exact Hremote; exact Hloc|]. split.
        { intros ip node Hd. apply lookup_delete_Some in Hd. apply Hkey, Hd. }
        intros ip e' Hip. destruct (decide (n = ip)) as [<-|Hne].
        { rewrite lookup_delete_eq. split; [intros (node & [=] & _)|].
          intros Hd. destruct (decide (e' = e)) as [->|Hne'];
            [rewrite lookup_delete_eq in Hd; discriminate|].
          rewrite lookup_delete_ne in Hd by congruence.
          destruct (proj2 (Hmir n e' Hip) Hd) as (old' & Hold' & Hin').
          rewrite Hold in Hold'. injection Hold' as <-.
          assert (Hx : e' ∈ egressIPs old ∖ {[e]}) by (apply in_remove; auto).
          rewrite Hsize in Hx. apply elem_of_empty in Hx. destruct Hx. }
        rewrite lookup_delete_ne by exact Hne. rewrite (Hmir ip e' Hip).
        destruct (decide (e' = e)) as [->|Hne'].
        { rewrite lookup_delete_eq, Hheld. split; [congruence|discriminate]. }
        rewrite lookup_delete_ne by congruence. reflexivity.
      * split; [rewrite lookup_insert_ne by exact Hremote; exact Hloc|]. split.
        { intros ip node. destruct (decide (n = ip)) as [<-|Hne].
          - rewrite lookup_insert_eq. intros [= <-]. exact (Hkey n old Hold).
          - rewrite lookup_insert_ne by exact Hne. apply Hkey. }
        intros ip e' Hip. destruct (decide (n = ip)) as [<-|Hne].
        { rewrite lookup_insert_eq. destruct (decide (e' = e)) as [->|Hne'].
          - rewrite lookup_delete_eq. split; [|discriminate].
            intros (node & [= <-] & Hin'). cbn in Hin'.
            apply in_remove in Hin'. destruct Hin' as [_ Hx]. destruct Hx. reflexivity.
          - rewrite lookup_delete_ne by congruence. rewrite <- (Hmir n e' Hip). split.
            + intros (node & [= <-] & Hin'). exists old. split; [exact Hold|].
              cbn in Hin'. apply in_remove in Hin'. exact (proj1 Hin').
            + intros (old' & Hold' & Hin'). rewrite Hold in Hold'. injection Hold' as <-.
              eexists. split; [reflexivity|]. cbn. apply in_remove. auto. }
        rewrite lookup_insert_ne by exact Hne. rewrite (Hmir ip e' Hip).
        destruct (decide (e' = e)) as [->|Hne'].
        { rewrite lookup_delete_eq, Hheld. split; [congruence|discriminate]. }
        rewrite lookup_delete_ne by congruence. reflexivity.
  - destruct (frame_SetNamespaceEgressViaEgressIPs vnid ips eip) as (Hl & _ & _ & Hm & _).
    unfold mirrors. rewrite Hm, Hl. exact Hinv.
  - destruct (frame_Synced eip) as (Hl & _ & _ & Hm & _).
    unfold mirrors. rewrite Hm, Hl. exact Hinv.
Qed.

Lemma deliverAll_mirrors cbs : forall eip claims,
  mirrors eip claims -> releaseBeforeClaim claims cbs ->
  mirrors (deliverAll eip cbs) (fold_left track cbs claims).
Proof.
  induction cbs as [|cb cbs IH]; intros eip claims Hinv Hcbs; [exact Hinv|].
  apply releaseBeforeClaim_cons in Hcbs. destruct Hcbs as [Hcb Hcbs].
  cbn [deliverAll fold_left]. apply IH; [|exact Hcbs].
  apply deliver_mirrors; assumption.
Qed.

(** X26. The watcher monitors exactly the nodes that hold egress IPs. When the
    tracker releases an egress IP before it claims it again, then after
    any callbacks a node other than the local one is monitored with an
    egress IP exactly when it holds this egress IP by the tracker's
    account; so it is monitored at all exactly when it holds one. The
    local node is never monitored, and every monitored node is filed
    under its own IP. *)
Theorem monitorNodes_mirror_claims localIP mb addrs cbs :
  releaseBeforeClaim ∅ cbs ->
  let eip := deliverAll (newEgressIPWatcher localIP mb addrs) cbs in
  monitorNodes eip !! localIP = None /\
  (forall ip node, monitorNodes eip !! ip = Some node ->
     nodeIP node = ip /\ egressIPs node <> ∅) /\
  (forall ip e, ip <> localIP ->
     (exists node, monitorNodes eip !! ip = Some node /\ e ∈ egressIPs node) <->
     claimedBy cbs !! e = Some ip) /\
  (forall ip, ip <> localIP ->
     is_Some (monitorNodes eip !! ip) <-> exists e, claimedBy cbs !! e = Some ip).
Proof.
  intros Hproto eip.
  assert (H0 : mirrors (newEgressIPWatcher localIP mb addrs) ∅).
  { unfold mirrors, newEgressIPWatcher. cbn [monitorNodes NodeWatcher.localIP].
    split; [apply lookup_empty|]. split.
    - intros ip node Hl. rewrite lookup_empty in Hl. discriminate.
    - intros ip e _. split; [|rewrite lookup_empty; discriminate].
      intros (node & Hl & _). rewrite lookup_empty in Hl. discriminate. }
  pose proof (deliverAll_mirrors cbs _ _ H0 Hproto) as (Hloc & Hkey & Hmir).
  fold eip in Hloc, Hkey, Hmir. fold (claimedBy cbs) in Hmir.
  assert (Hl : NodeWatcher.localIP eip = localIP).
  { unfold eip. rewrite deliverAll_localIP. reflexivity. }
  rewrite Hl in Hloc, Hmir.
  pose proof (deliverAll_monitoring cbs _ (monitoring_new localIP mb addrs))
    as (_ & Hne & _).
  fold eip in Hne.
  split; [exact Hloc|]. split; [|split].
  - intros ip node Hn. split; [exact (Hkey ip node Hn)|exact (Hne ip node Hn)].
  - exact Hmir.
  - intros ip Hip. split.
    + intros [node Hn]. pose proof (Hne ip node Hn) as Hnonempty.
      apply set_choose_L in Hnonempty. destruct Hnonempty as [e He].
      exists e. apply (Hmir ip e Hip). eauto.
    + intros [e He]. apply (Hmir ip e Hip) in He. destruct He as (node & Hn & _). eauto.
Qed.

End Mirror.

Lemma monitorNodes_mirror_claims_witness :
  releaseBeforeClaim ∅ remoteClaim /\
  monitorNodes (@deliverAll (scenarioNet "eth0")
                  (newEgressIPWatcher "192.168.1.2" (Some 0%Z) []) remoteClaim)
    !! "192.168.1.2" = None.
Proof.
  assert (H1 : releaseBeforeClaim ∅ remoteClaim) by (split; [reflexivity|exact I]).
  split; [exact H1|].
  exact (proj1 (@monitorNodes_mirror_claims (scenarioNet "eth0") "192.168.1.2" (Some 0%Z) []
                  remoteClaim H1)).
Defined.

Lemma ClaimEgressIP_refused_witness :
  let eip' := @ClaimEgressIP (scenarioNet "eth0") 42 "10.0.0.9" "192.168.1.2"
                scenarioWatcher in
  linkAddrs eip' = [] /\ iptablesMark eip' !! "10.0.0.9" = Some "0x0000002a".
Proof.
  assert (Href : @refusedEarly (scenarioNet "eth0") "10.0.0.9" scenarioWatcher).
  { right. split; [reflexivity|]. vm_compute. reflexivity. }
  pose proof (@ClaimEgressIP_refused (scenarioNet "eth0") 42 "10.0.0.9" scenarioWatcher Href)
    as Hthm.
  cbv zeta in Hthm |- *. destruct Hthm as (_ & Ha & Hm & _).
  split; [exact Ha|]. change (localIP scenarioWatcher) with "192.168.1.2" in Hm.
  rewrite Hm. vm_compute. reflexivity.
Defined.

Lemma scenario_reachesHost :
  @reachesHost (scenarioNet "eth0") "192.168.1.100" "eth0" addr100 scenarioWatcher.
Proof.
  split; [discriminate|]. split; [reflexivity|]. exists ().
  split; [reflexivity|]. split; vm_compute; reflexivity.
Qed.

Lemma Claim_Release_round_trip_witness :
  let eip1 := @ClaimEgressIP (scenarioNet "eth0") 42 "192.168.1.100" "192.168.1.2"
                scenarioWatcher in
  let eip2 := @ReleaseEgressIP (scenarioNet "eth0") "192.168.1.100" "192.168.1.2" eip1 in
  linkAddrs eip1 = [("eth0", labelled "eth0" addr100)] /\
  linkAddrs eip2 = [] /\ iptablesMark eip2 = ∅.
Proof.
  pose proof (@Claim_Release_round_trip (scenarioNet "eth0") 42 "192.168.1.100" "eth0"
                addr100 scenarioWatcher scenario_reachesHost eq_refl) as Hthm.
  cbv zeta in Hthm |- *. destruct Hthm as (H1 & H2 & H3 & _).
  split; [exact H1|]. split; [exact H2|]. exact H3.
Defined.

Lemma local_claim_mark_reaches_ovs_witness :
  iptablesMark
    (@deliverAll (scenarioNet "eth0")
       (@ClaimEgressIP (scenarioNet "eth0") 42 "192.168.1.100" "192.168.1.2" scenarioWatcher)
       [Claim 7 "192.168.1.101" "192.168.1.3"; SyncedCallback]) !! "192.168.1.100"
  = Some "0x0000002a".
Proof.
  exact (proj1 (@local_claim_mark_reaches_ovs (scenarioNet "eth0") 42 "192.168.1.100"
                  scenarioWatcher [Claim 7 "192.168.1.101" "192.168.1.3"; SyncedCallback]
                  42%Z [] eq_refl)).
Defined.

Lemma Synced_cleans_stale_witness :
  let eip := newEgressIPWatcher "192.168.1.2" (Some 0%Z) leftOvers in
  iptablesMark (@Synced (scenarioNet "eth0") eip) = ∅ /\
  ("eth0", {| IPNet := "192.168.1.100/24"; IP := "192.168.1.100"; Label := "eth0:eip" |})
    ∉ linkAddrs (@Synced (scenarioNet "eth0") eip).
Proof.
  intros eip.
  pose proof (@Synced_cleans_stale (scenarioNet "eth0") eip "eth0" () "eth0:eip"
                eq_refl eq_refl) as Hthm.
  cbv zeta in Hthm. destruct Hthm as (_ & Hgone & _ & Hm & _).
  split; [exact Hm|]. apply Hgone. split; [left|reflexivity].
Defined.

End NodeWatcherFacts.

(** ** The liveness poll of the node watcher *)

Module NodeLiveness.
Import Go NodeWatcher.
Local Open Scope string_scope.
Local Open Scope Z_scope.

Definition defaultPollInterval : Z := 5 * Master.Second.
Definition repollInterval : Z := Master.Second.
Definition maxRetries : Z := 2.

(** What a poll does outside the watcher. *)
Inductive call :=
| PingCall (ip : string) (timeout : Z)
| SetNodeOffline (ip : string) (offline : bool)
| Sleep (d : Z).

Definition setOffline (node : egressNode) (b : bool) : egressNode :=
  {| nodeIP := nodeIP node; offline := b; egressIPs := egressIPs node;
     retries := retries node |}.

Definition setRetries (node : egressNode) (r : Z) : egressNode :=
  {| nodeIP := nodeIP node; offline := offline node; egressIPs := egressIPs node;
     retries := r |}.

Section Liveness.
(** [eip.tracker.Ping] during one pass. *)
Variable Ping : string -> Z -> bool.

(** The body of the loop of [getOfflineResult] for a node it does not
    skip: the node afterwards, what is written to [offlineResult] for it,
    and [needRetry]. *)
Definition probe (timeout : Z) (node : egressNode) (needRetry : bool)
  : egressNode * option bool * bool :=
  let online := Ping (nodeIP node) timeout in
  if offline node && online then (setOffline node false, Some false, needRetry)
  else if negb (offline node) && negb online then
    let node := setRetries node (retries node + 1) in
    if maxRetries <? retries node
    then (setOffline (setRetries node 0) true, Some true, needRetry)
    else (node, None, true)
  else (node, None, needRetry).

(** The loop over [eip.monitorNodes], in the order the map hands the
    nodes out. The nodes are shared records: what the loop writes stays
    written. *)
Fixpoint getOfflineResult_loop (retrying : bool) (timeout : Z) (nodes : list egressNode)
    (offlineResult : gmap string bool) (needRetry : bool)
  : list egressNode * list call * gmap string bool * bool :=
  match nodes with
  | [] => ([], [], offlineResult, needRetry)
  | node :: rest =>
      if retrying && (retries node =? 0) then
        let '(rest', pings, offlineResult, needRetry) :=
          getOfflineResult_loop retrying timeout rest offlineResult needRetry in
        (node :: rest', pings, offlineResult, needRetry)
      else
        let '(node', entry, needRetry) := probe timeout node needRetry in
        let offlineResult :=
          match entry with
          | Some b => <[nodeIP node := b]> offlineResult
          | None => offlineResult
          end in
        let '(rest', pings, offlineResult, needRetry) :=
          getOfflineResult_loop retrying timeout rest offlineResult needRetry in
        (node' :: rest', PingCall (nodeIP node) timeout :: pings, offlineResult, needRetry)
  end.

Definition getOfflineResult (retrying : bool) (nodes : list egressNode)
  : list egressNode * list call * gmap string bool * bool :=
  let timeout := if retrying then repollInterval else defaultPollInterval in
  getOfflineResult_loop retrying timeout nodes ∅ false.

(** [check]: the pings, then one [SetNodeOffline] for every entry of
    [offlineResult]. *)
Definition check (retrying : bool) (nodes : list egressNode)
  : list egressNode * list call * bool :=
  let '(nodes', pings, offlineResult, needRetry) := getOfflineResult retrying nodes in
  (nodes',
   (pings ++ map (fun entry => SetNodeOffline (fst entry) (snd entry))
               (map_to_list offlineResult))%list,
   needRetry).

(** What a pass does to one node, taken by itself. *)
Definition visited (retrying : bool) (node : egressNode) : bool :=
  negb (retrying && (retries node =? 0)).

Definition after (retrying : bool) (timeout : Z) (node : egressNode) : egressNode :=
  if visited retrying node then (probe timeout node false).1.1 else node.

Definition entry (retrying : bool) (timeout : Z) (node : egressNode) : option bool :=
  if visited retrying node then (probe timeout node false).1.2 else None.

Definition wants (retrying : bool) (timeout : Z) (node : egressNode) : bool :=
  visited retrying node && (probe timeout node false).2.

Definition record (retrying : bool) (timeout : Z) (res : gmap string bool)
    (node : egressNode) : gmap string bool :=
  match entry retrying timeout node with
  | Some b => <[nodeIP node := b]> res
  | None => res
  end.

Definition pingsOf (retrying : bool) (timeout : Z) (nodes : list egressNode) : list call :=
  flat_map (fun node => if visited retrying node
                        then [PingCall (nodeIP node) timeout] else []) nodes.

End Liveness.

(** [poll]: a regular pass, and retry passes one [repollInterval] apart
    for as long as the last pass asks for one. [pings n] is what [Ping]
    answers during pass [n]; [fuel] bounds the number of retry passes. *)
Fixpoint retryLoop (fuel : nat) (pings : nat -> string -> Z -> bool) (pass : nat)
    (nodes : list egressNode) : option (list egressNode * list call) :=
  match fuel with
  | O => None
  | S fuel' =>
      let '(nodes', calls, retry) := check (pings pass) true nodes in
      let calls := Sleep repollInterval :: calls in
      if retry then
        match retryLoop fuel' pings (S pass) nodes' with
        | Some (nodes'', later) => Some (nodes'', (calls ++ later)%list)
        | None => None
        end
      else Some (nodes', calls)
  end.

Definition poll (fuel : nat) (pings : nat -> string -> Z -> bool)
    (nodes : list egressNode) : option (list egressNode * list call) :=
  let '(nodes', calls, retry) := check (pings 0%nat) false nodes in
  if retry then
    match retryLoop fuel pings 1 nodes' with
    | Some (nodes'', later) => Some (nodes'', (calls ++ later)%list)
    | None => None
    end
  else Some (nodes', calls).

(** The retry count is in range, and a node that is marked offline has
    none. *)
Definition healthy (node : egressNode) : Prop :=
  0 <= retries node <= maxRetries /\ (offline node = true -> retries node = 0).

(** The failures a node can still collect before it is declared offline,
    once it has one. *)
Definition weight (node : egressNode) : nat :=
  if retries node =? 0 then 0%nat else Z.to_nat (maxRetries + 1 - retries node).

Definition pending (nodes : list egressNode) : nat := list_sum (map weight nodes).

(** Three monitored nodes; the ping of the first fails throughout, that
    of the second once. *)
Definition fresh (ip : string) : egressNode :=
  {| nodeIP := ip; offline := false; egressIPs := {[ "192.168.1.100"%string ]}; retries := 0 |}.

Definition threeNodes : list egressNode :=
  [fresh "192.168.1.3"; fresh "192.168.1.4"; fresh "192.168.1.5"].

Definition firstIsDown (pass : nat) (ip : string) (timeout : Z) : bool :=
  negb (String.eqb ip "192.168.1.3") &&
  negb (String.eqb ip "192.168.1.4" && Nat.eqb pass 0).

Section LivenessFacts.
Variable Ping : string -> Z -> bool.

Lemma probe_acc timeout node needRetry :
  probe Ping timeout node needRetry =
    ((probe Ping timeout node false).1.1, (probe Ping timeout node false).1.2,
     needRetry || (probe Ping timeout node false).2).
Proof.
  unfold probe.
  destruct (offline node && Ping (nodeIP node) timeout); cbn;
    [rewrite orb_false_r; reflexivity|].
  destruct (negb (offline node) && negb (Ping (nodeIP node) timeout)); cbn;
    [|rewrite orb_false_r; reflexivity].
  destruct (maxRetries <? retries node + 1); cbn;
    [rewrite orb_false_r|rewrite orb_true_r]; reflexivity.
Qed.

(** The loop treats every node by itself. *)
Lemma getOfflineResult_loop_spec retrying timeout nodes : forall res needRetry,
  getOfflineResult_loop Ping retrying timeout nodes res needRetry =
    (map (after Ping retrying timeout) nodes, pingsOf retrying timeout nodes,
     fold_left (record Ping retrying timeout) nodes res,
     needRetry || existsb (wants Ping retrying timeout) nodes).
Proof.
  induction nodes as [|node rest IH]; intros res needRetry; cbn [getOfflineResult_loop].
  - cbn. rewrite orb_false_r. reflexivity.
  - cbn [map fold_left existsb pingsOf flat_map].
    unfold after at 1, record at 2, entry, wants at 1, visited.
    destruct (retrying && (retries node =? 0)); cbn [negb andb].
    + rewrite IH. reflexivity.
    + rewrite probe_acc.
      destruct (probe Ping timeout node false) as [[node' e] w]. cbn.
      rewrite IH, orb_assoc. reflexivity.
Qed.

Lemma after_nodeIP retrying timeout node :
  nodeIP (after Ping retrying timeout node) = nodeIP node /\
  egressIPs (after Ping retrying timeout node) = egressIPs node.
Proof.
  unfold after, probe. destruct (visited retrying node); [|split; reflexivity].
  destruct (offline node && Ping (nodeIP node) timeout); [split; reflexivity|].
  destruct (negb (offline node) && negb (Ping (nodeIP node) timeout)); [|split; reflexivity].
  cbn. destruct (maxRetries <? retries node + 1); split; reflexivity.
Qed.

Lemma map_after_nodeIP retrying timeout nodes :
  map nodeIP (map (after Ping retrying timeout) nodes) = map nodeIP nodes /\
  map egressIPs (map (after Ping retrying timeout) nodes) = map egressIPs nodes.
Proof.
  rewrite !map_map. split; apply map_ext; intros n; apply after_nodeIP.
Qed.

(** A pass keeps a node healthy; a retry pass takes nothing back, and it
    asks for another pass only for a node that has come closer to being
    declared offline. *)
Lemma after_healthy retrying timeout node :
  healthy node ->
  healthy (after Ping retrying timeout node) /\
  (retrying = true ->
   (weight (after Ping retrying timeout node) <= weight node)%nat /\
   (wants Ping retrying timeout node = true ->
    (weight (after Ping retrying timeout node) < weight node)%nat)).
Proof.
  unfold healthy, after, wants, visited, probe, weight, maxRetries.
  intros [Hr Ho].
  destruct retrying, (offline node) eqn:Hoff, (Ping (nodeIP node) timeout);
    try specialize (Ho eq_refl);
    repeat (cbn [andb negb fst snd retries offline setOffline setRetries];
            match goal with
            | |- context [Z.eqb ?a 0] => destruct (Z.eqb_spec a 0)
            | |- context [Z.ltb ?a ?b] => destruct (Z.ltb_spec a b)
            end);
    cbn [andb negb fst snd retries offline setOffline setRetries];
    rewrite ?Hoff; repeat split; intros; cbn in *; try lia; congruence.
Qed.

Lemma weight_bound node : healthy node -> (weight node <= 2)%nat.
Proof.
  unfold healthy, weight, maxRetries. intros [Hr _].
  destruct (Z.eqb_spec (retries node) 0); lia.
Qed.

Lemma pending_bound nodes : Forall healthy nodes -> (pending nodes <= 2 * length nodes)%nat.
Proof.
  unfold pending. induction 1 as [|n nodes Hn _ IH]; [cbn; lia|].
  pose proof (weight_bound n Hn). unfold list_sum in *.
  cbn [map fold_right length]. lia.
Qed.

Lemma map_after_healthy retrying timeout nodes :
  Forall healthy nodes ->
  Forall healthy (map (after Ping retrying timeout) nodes) /\
  (retrying = true ->
   (pending (map (after Ping retrying timeout) nodes) <= pending nodes)%nat /\
   (existsb (wants Ping retrying timeout) nodes = true ->
    (pending (map (after Ping retrying timeout) nodes) < pending nodes)%nat)).
Proof.
  unfold pending, list_sum. induction 1 as [|n nodes Hn _ IH]; cbn [map existsb fold_right].
  - split; [constructor|]. intros _. split; [lia|discriminate].
  - destruct (after_healthy retrying timeout n Hn) as [Hh Hw].
    destruct IH as [IHh IHw]. split; [constructor; assumption|].
    intros Hretry. destruct (Hw Hretry) as [Hle Hlt]. destruct (IHw Hretry) as [IHle IHlt].
    split; [lia|]. intros [Hn1|Hrest]%orb_true_iff.
    + specialize (Hlt Hn1). lia.
    + specialize (IHlt Hrest). lia.
Qed.

Lemma check_spec (retrying : bool) nodes :
  let timeout := if retrying then repollInterval else defaultPollInterval in
  check Ping retrying nodes =
    (map (after Ping retrying timeout) nodes,
     (pingsOf retrying timeout nodes ++
      map (fun entry => SetNodeOffline (fst entry) (snd entry))
        (map_to_list (fold_left (record Ping retrying timeout) nodes ∅)))%list,
     existsb (wants Ping retrying timeout) nodes).
Proof.
  intros timeout. unfold check, getOfflineResult. fold timeout.
  rewrite getOfflineResult_loop_spec. reflexivity.
Qed.

(** What a pass writes to [offlineResult] for the nodes it does not
    hold, and for a node it holds once. *)
Lemma record_other retrying timeout ip nodes : forall res,
  ip ∉ map nodeIP nodes ->
  fold_left (record Ping retrying timeout) nodes res !! ip = res !! ip.
Proof.
  induction nodes as [|n nodes IH]; intros res Hnot; [reflexivity|].
  cbn [map] in Hnot. apply not_elem_of_cons in Hnot. destruct Hnot as [Hne Hnot].
  cbn [fold_left]. rewrite IH by exact Hnot. unfold record.
  destruct (entry Ping retrying timeout n); [|reflexivity].
  apply lookup_insert_ne. congruence.
Qed.

Lemma record_lookup retrying timeout nodes : forall res i n,
  NoDup (map nodeIP nodes) -> nodes !! i = Some n ->
  fold_left (record Ping retrying timeout) nodes res !! nodeIP n =
    match entry Ping retrying timeout n with
    | Some b => Some b
    | None => res !! nodeIP n
    end.
Proof.
  induction nodes as [|m nodes IH]; intros res i n Hnd Hi; [discriminate|].
  cbn [map] in Hnd. apply NoDup_cons in Hnd. destruct Hnd as [Hfresh Hnd].
  cbn [fold_left]. destruct i as [|i]; cbn in Hi.
  - injection Hi as ->. rewrite record_other by exact Hfresh. unfold record.
    destruct (entry Ping retrying timeout n); [apply lookup_insert_eq|reflexivity].
  - rewrite (IH _ i n Hnd Hi).
    destruct (entry Ping retrying timeout n); [reflexivity|].
    unfold record. destruct (entry Ping retrying timeout m); [|reflexivity].
    apply lookup_insert_ne. intros Heq. apply Hfresh. rewrite Heq.
    apply list_elem_of_fmap_2. eapply list_elem_of_lookup_2. exact Hi.
Qed.

(** What is written for a node is the change of its offline flag. *)
Lemma entry_flip retrying timeout node b :
  entry Ping retrying timeout node = Some b <->
  offline node = negb b /\ offline (after Ping retrying timeout node) = b.
Proof.
  unfold entry, after, probe. destruct (visited retrying node).
  2:{ split; [discriminate|]. intros [H1 H2]. rewrite H1 in H2. destruct b; discriminate. }
  destruct (offline node) eqn:Hoff, (Ping (nodeIP node) timeout); cbn;
    rewrite ?Hoff;
    try (split; [intros [= <-]; split; reflexivity|intros [H1 H2]; congruence]);
    try (split; [discriminate|intros [H1 H2]; destruct b; discriminate]).
  destruct (maxRetries <? retries node + 1); cbn; rewrite ?Hoff.
  - split; [intros [= <-]; split; reflexivity|intros [H1 H2]; congruence].
  - split; [discriminate|intros [H1 H2]; destruct b; discriminate].
Qed.

Lemma pingsOf_elem retrying timeout nodes c :
  c ∈ pingsOf retrying timeout nodes <->
  exists n, n ∈ nodes /\ visited retrying n = true /\ c = PingCall (nodeIP n) timeout.
Proof.
  unfold pingsOf. rewrite list_elem_of_In, in_flat_map. split.
  - intros (n & Hn & Hc). exists n. apply list_elem_of_In in Hn.
    destruct (visited retrying n); [|destruct Hc].
    destruct Hc as [<-|[]]. auto.
  - intros (n & Hn & Hv & ->). exists n. apply list_elem_of_In in Hn.
    rewrite Hv. split; [exact Hn|left; reflexivity].
Qed.

(** The calls of [SetNodeOffline] of a pass are the entries written for
    its nodes. *)
Lemma check_SetNodeOffline (retrying : bool) nodes ip b :
  NoDup (map nodeIP nodes) ->
  let timeout := if retrying then repollInterval else defaultPollInterval in
  SetNodeOffline ip b ∈ (check Ping retrying nodes).1.2 <->
  exists i n, nodes !! i = Some n /\ nodeIP n = ip /\
    entry Ping retrying timeout n = Some b.
Proof.
  intros Hnd timeout. rewrite check_spec. fold timeout. cbn [fst snd].
  rewrite elem_of_app. split.
  - intros [Hin|Hin].
    { apply pingsOf_elem in Hin. destruct Hin as (n & _ & _ & [=]). }
    apply list_elem_of_fmap in Hin. destruct Hin as ([ip' b'] & [= -> ->] & Hin).
    apply elem_of_map_to_list in Hin.
    destruct (decide (ip' ∈ map nodeIP nodes)) as [Hmem|Hnot].
    2:{ rewrite record_other, lookup_empty in Hin by exact Hnot. discriminate. }
    apply list_elem_of_fmap in Hmem. destruct Hmem as (n & -> & Hn).
    apply list_elem_of_lookup_1 in Hn. destruct Hn as [i Hi].
    rewrite (record_lookup retrying timeout nodes ∅ i n Hnd Hi), lookup_empty in Hin.
    exists i, n. split; [exact Hi|]. split; [reflexivity|].
    destruct (entry Ping retrying timeout n); [exact Hin|discriminate].
  - intros (i & n & Hi & <- & He). right.
    apply list_elem_of_fmap. exists (nodeIP n, b). split; [reflexivity|].
    apply elem_of_map_to_list.
    rewrite (record_lookup retrying timeout nodes ∅ i n Hnd Hi), He. reflexivity.
Qed.

(** X20. A pass over nodes with distinct addresses tells the tracker of the
    changes and of nothing else: [SetNodeOffline] is called for an address
    with a value exactly when the offline flag of the node with this
    address has changed to this value in the pass. The nodes are the same
    nodes afterwards, in the same order and with the same egress IPs, and
    every ping has the timeout of the pass. *)
Theorem check_reports_changes (retrying : bool) nodes :
  NoDup (map nodeIP nodes) ->
  let pass := check Ping retrying nodes in
  map nodeIP pass.1.1 = map nodeIP nodes /\
  map egressIPs pass.1.1 = map egressIPs nodes /\
  (forall ip b,
     SetNodeOffline ip b ∈ pass.1.2 <->
     exists i n n', nodes !! i = Some n /\ pass.1.1 !! i = Some n' /\
       nodeIP n = ip /\ offline n = negb b /\ offline n' = b) /\
  (forall ip t, PingCall ip t ∈ pass.1.2 ->
     t = if retrying then repollInterval else defaultPollInterval).
Proof.
  intros Hnd pass. unfold pass.
  set (timeout := if retrying then repollInterval else defaultPollInterval).
  assert (Hnodes : (check Ping retrying nodes).1.1 = map (after Ping retrying timeout) nodes)
    by (rewrite check_spec; reflexivity).
  destruct (map_after_nodeIP retrying timeout nodes) as [Hip Heg].
  rewrite Hnodes. split; [exact Hip|]. split; [exact Heg|]. split.
  - intros ip b. rewrite (check_SetNodeOffline retrying nodes ip b Hnd). fold timeout.
    split.
    + intros (i & n & Hi & Hn & [H1 H2]%entry_flip).
      exists i, n, (after Ping retrying timeout n).
      split; [exact Hi|]. split; [rewrite list_lookup_fmap, Hi; reflexivity|]. auto.
    + intros (i & n & n' & Hi & Hi' & Hn & H1 & H2).
      rewrite list_lookup_fmap, Hi in Hi'. injection Hi' as <-.
      exists i, n. split; [exact Hi|]. split; [exact Hn|].
      apply entry_flip. auto.
  - intros ip t. rewrite check_spec. fold timeout. cbn [fst snd].
    intros [Hin|Hin]%elem_of_app.
    + apply pingsOf_elem in Hin. destruct Hin as (n & _ & _ & [= _ ->]). reflexivity.
    + apply list_elem_of_fmap in Hin. destruct Hin as (e & [=] & _).
Qed.

Lemma after_failing retrying timeout ip eg r :
  Ping ip timeout = false -> (retrying && (r =? 0)) = false ->
  let node := {| nodeIP := ip; offline := false; egressIPs := eg; retries := r |} in
  after Ping retrying timeout node =
    (if maxRetries <? r + 1
     then {| nodeIP := ip; offline := true; egressIPs := eg; retries := 0 |}
     else {| nodeIP := ip; offline := false; egressIPs := eg; retries := r + 1 |}) /\
  entry Ping retrying timeout node = (if maxRetries <? r + 1 then Some true else None) /\
  wants Ping retrying timeout node = negb (maxRetries <? r + 1) /\
  visited retrying node = true.
Proof.
  intros Hp Hv node. unfold after, entry, wants, visited, probe. cbn.
  rewrite Hv, Hp. cbn. destruct (maxRetries <? r + 1); repeat split; reflexivity.
Qed.

Lemma wants_exists retrying timeout nodes i n :
  nodes !! i = Some n -> wants Ping retrying timeout n = true ->
  existsb (wants Ping retrying timeout) nodes = true.
Proof.
  intros Hi Hw. apply existsb_exists. exists n. split; [|exact Hw].
  apply list_elem_of_In. eapply list_elem_of_lookup_2. exact Hi.
Qed.

End LivenessFacts.

Lemma retryLoop_returns pings fuel : forall pass nodes,
  Forall healthy nodes -> (pending nodes < fuel)%nat ->
  exists nodes' calls,
    retryLoop fuel pings pass nodes = Some (nodes', calls) /\
    Forall healthy nodes' /\
    map nodeIP nodes' = map nodeIP nodes /\ map egressIPs nodes' = map egressIPs nodes.
Proof.
  induction fuel as [|fuel IH]; intros pass nodes Hh Hfuel; [lia|].
  cbn [retryLoop]. rewrite check_spec. cbv zeta.
  destruct (map_after_healthy (pings pass) true repollInterval nodes Hh) as [Hh' Hw].
  destruct (Hw eq_refl) as [Hle Hlt].
  destruct (map_after_nodeIP (pings pass) true repollInterval nodes) as [Hip Heg].
  destruct (existsb (wants (pings pass) true repollInterval) nodes) eqn:Hretry.
  - specialize (Hlt eq_refl).
    destruct (IH (S pass) _ Hh' ltac:(lia)) as (nodes' & calls & -> & Hh'' & Hip' & Heg').
    eexists _, _. split; [reflexivity|]. split; [exact Hh''|].
    split; congruence.
  - eexists _, _. split; [reflexivity|]. split; [exact Hh'|]. split; assumption.
Qed.

(** X21. [poll] returns. Whatever the pings answer in each pass, a poll over
    healthy nodes comes to an end after the regular pass and at most two
    retry passes for each node, with the same nodes, healthy again. *)
Theorem poll_returns pings nodes :
  Forall healthy nodes ->
  exists nodes' calls,
    poll (2 * length nodes + 1) pings nodes = Some (nodes', calls) /\
    Forall healthy nodes' /\
    map nodeIP nodes' = map nodeIP nodes /\ map egressIPs nodes' = map egressIPs nodes.
Proof.
  intros Hh. unfold poll. rewrite check_spec. cbv zeta.
  destruct (map_after_healthy (pings 0%nat) false defaultPollInterval nodes Hh) as [Hh' _].
  destruct (map_after_nodeIP (pings 0%nat) false defaultPollInterval nodes) as [Hip Heg].
  destruct (existsb (wants (pings 0%nat) false defaultPollInterval) nodes).
  - pose proof (pending_bound _ Hh') as Hb. rewrite length_map in Hb.
    destruct (retryLoop_returns pings (2 * length nodes + 1) 1 _ Hh' ltac:(lia))
      as (nodes' & calls & -> & Hh'' & Hip' & Heg').
    eexists _, _. split; [reflexivity|]. split; [exact Hh''|]. split; congruence.
  - eexists _, _. split; [reflexivity|]. split; [exact Hh'|]. split; assumption.
Qed.

Lemma retryLoop_keeps_idle pings fuel : forall pass nodes i n nodes' calls,
  nodes !! i = Some n -> retries n = 0 ->
  retryLoop fuel pings pass nodes = Some (nodes', calls) ->
  nodes' !! i = Some n.
Proof.
  induction fuel as [|fuel IH]; intros pass nodes i n nodes' calls Hi Hr Hloop;
    [discriminate|].
  cbn [retryLoop] in Hloop. rewrite check_spec in Hloop. cbv zeta in Hloop.
  assert (Hi' : map (after (pings pass) true repollInterval) nodes !! i = Some n).
  { rewrite list_lookup_fmap, Hi. cbn. unfold after, visited. rewrite Hr. reflexivity. }
  destruct (existsb _ nodes).
  - destruct (retryLoop fuel pings (S pass) _) as [[nodes'' later]|] eqn:Hrest;
      [|discriminate].
    injection Hloop as <- <-. exact (IH _ _ _ _ _ _ Hi' Hr Hrest).
  - injection Hloop as <- <-. exact Hi'.
Qed.

(** X22. Three failed pings in a row, within one poll, put a node offline. A
    healthy node that is not marked offline and has no failure counted,
    and whose pings fail in the regular pass and in the two retry passes
    after it, is pinged once with [defaultPollInterval] and then with
    [repollInterval], is reported offline to the tracker in the third
    pass, and is marked offline with a zero retry count when the poll
    returns, whatever happens to the other nodes. *)
Theorem poll_declares_offline pings nodes i node :
  Forall healthy nodes -> NoDup (map nodeIP nodes) ->
  nodes !! i = Some node -> offline node = false -> retries node = 0 ->
  (forall pass t, (pass < 3)%nat -> pings pass (nodeIP node) t = false) ->
  exists nodes' calls,
    poll (2 * length nodes + 1) pings nodes = Some (nodes', calls) /\
    nodes' !! i = Some (setOffline node true) /\
    SetNodeOffline (nodeIP node) true ∈ calls /\
    PingCall (nodeIP node) defaultPollInterval ∈ calls /\
    PingCall (nodeIP node) repollInterval ∈ calls.
Proof.
  intros Hh Hnd Hi Hoff Hret Hfail.
  destruct node as [ip off eg r]. cbn in Hoff, Hret, Hfail. subst off r.
  unfold setOffline. cbn [nodeIP offline egressIPs retries].
  set (n0 := {| nodeIP := ip; offline := false; egressIPs := eg; retries := 0 |}) in *.
  (* the regular pass *)
  destruct (after_failing (pings 0%nat) false defaultPollInterval ip eg 0
              (Hfail 0%nat _ ltac:(lia)) eq_refl) as (A0 & _ & W0 & V0).
  cbv zeta in A0, W0, V0. fold n0 in A0, W0, V0.
  change (maxRetries <? 0 + 1) with false in A0, W0. cbn [negb] in W0.
  change (0 + 1) with 1 in A0.
  set (nodes1 := map (after (pings 0%nat) false defaultPollInterval) nodes).
  assert (Hi1 : nodes1 !! i = Some {| nodeIP := ip; offline := false; egressIPs := eg;
                                      retries := 1 |}).
  { unfold nodes1. rewrite list_lookup_fmap, Hi. exact (f_equal Some A0). }
  destruct (map_after_healthy (pings 0%nat) false defaultPollInterval nodes Hh) as [Hh1 _].
  destruct (map_after_nodeIP (pings 0%nat) false defaultPollInterval nodes) as [Hip1 _].
  fold nodes1 in Hh1, Hip1.
  (* the first retry pass *)
  destruct (after_failing (pings 1%nat) true repollInterval ip eg 1
              (Hfail 1%nat _ ltac:(lia)) eq_refl) as (A1 & _ & W1 & V1).
  cbv zeta in A1, W1, V1.
  change (maxRetries <? 1 + 1) with false in A1, W1. cbn [negb] in W1.
  change (1 + 1) with 2 in A1.
  set (nodes2 := map (after (pings 1%nat) true repollInterval) nodes1).
  assert (Hi2 : nodes2 !! i = Some {| nodeIP := ip; offline := false; egressIPs := eg;
                                      retries := 2 |}).
  { unfold nodes2. rewrite list_lookup_fmap, Hi1. exact (f_equal Some A1). }
  destruct (map_after_nodeIP (pings 1%nat) true repollInterval nodes1) as [Hip2 _].
  fold nodes2 in Hip2.
  (* the second retry pass *)
  destruct (after_failing (pings 2%nat) true repollInterval ip eg 2
              (Hfail 2%nat _ ltac:(lia)) eq_refl) as (A2 & E2 & _ & V2).
  cbv zeta in A2, E2, V2.
  change (maxRetries <? 2 + 1) with true in A2, E2. cbv iota in A2, E2.
  set (nodes3 := map (after (pings 2%nat) true repollInterval) nodes2).
  assert (Hi3 : nodes3 !! i = Some {| nodeIP := ip; offline := true; egressIPs := eg;
                                      retries := 0 |}).
  { unfold nodes3. rewrite list_lookup_fmap, Hi2. exact (f_equal Some A2). }
  assert (Hnd2 : NoDup (map nodeIP nodes2)) by (rewrite Hip2, Hip1; exact Hnd).
  assert (Hset : SetNodeOffline ip true ∈ (check (pings 2%nat) true nodes2).1.2).
  { apply (check_SetNodeOffline (pings 2%nat) true nodes2 ip true Hnd2).
    eexists i, _. split; [exact Hi2|]. split; [reflexivity|exact E2]. }
  assert (Hp0 : PingCall ip defaultPollInterval ∈ (check (pings 0%nat) false nodes).1.2).
  { rewrite check_spec. cbn [fst snd]. apply elem_of_app. left. apply pingsOf_elem.
    exists n0. split; [eapply list_elem_of_lookup_2; exact Hi|].
    split; [exact V0|reflexivity]. }
  assert (Hp1 : PingCall ip repollInterval ∈ (check (pings 1%nat) true nodes1).1.2).
  { rewrite check_spec. cbn [fst snd]. apply elem_of_app. left. apply pingsOf_elem.
    eexists. split; [eapply list_elem_of_lookup_2; exact Hi1|].
    split; [exact V1|reflexivity]. }
  (* the poll *)
  pose proof (pending_bound _ Hh1) as Hb. unfold nodes1 in Hb at 2. rewrite length_map in Hb.
  destruct (retryLoop_returns pings (2 * length nodes + 1) 1 nodes1 Hh1 ltac:(lia))
    as (nodes' & later & Hloop & _).
  assert (Hpoll : poll (2 * length nodes + 1) pings nodes =
                  Some (nodes', ((check (pings 0%nat) false nodes).1.2 ++ later)%list)).
  { unfold poll. rewrite check_spec. cbv zeta. cbn [fst snd]. fold nodes1.
    rewrite (wants_exists (pings 0%nat) false defaultPollInterval nodes i n0 Hi W0), Hloop.
    reflexivity. }
  exists nodes', ((check (pings 0%nat) false nodes).1.2 ++ later)%list.
  split; [exact Hpoll|]. clear Hpoll.
  destruct (2 * length nodes + 1)%nat as [|f1]; [discriminate|].
  cbn [retryLoop] in Hloop.
  pose proof (check_spec (pings 1%nat) true nodes1) as S1. cbv beta iota zeta in S1.
  fold nodes2 in S1.
  rewrite (wants_exists (pings 1%nat) true repollInterval nodes1 i _ Hi1 W1) in S1.
  destruct (check (pings 1%nat) true nodes1) as [[nodes2' calls1] retry1].
  injection S1 as -> _ ->. cbn [fst snd] in Hp1.
  destruct (retryLoop f1 pings 2 nodes2) as [[nodes'' later2]|] eqn:Hloop2; [|discriminate].
  injection Hloop as <- <-.
  destruct f1 as [|f2]; [discriminate|]. cbn [retryLoop] in Hloop2.
  pose proof (check_spec (pings 2%nat) true nodes2) as S2. cbv beta iota zeta in S2.
  fold nodes3 in S2.
  destruct (check (pings 2%nat) true nodes2) as [[nodes3' calls2] retry2].
  injection S2 as -> _ _. cbn [fst snd] in Hset.
  assert (Hend : nodes'' !! i = Some {| nodeIP := ip; offline := true; egressIPs := eg;
                                        retries := 0 |} /\
                 exists more, later2 = (Sleep repollInterval :: calls2 ++ more)%list).
  { destruct retry2.
    - destruct (retryLoop f2 pings 3 nodes3) as [[nodes4 later3]|] eqn:Hloop3;
        [|discriminate].
      injection Hloop2 as <- <-. split; [|exists later3; reflexivity].
      exact (retryLoop_keeps_idle pings f2 3 nodes3 i _ _ _ Hi3 eq_refl Hloop3).
    - injection Hloop2 as <- <-. split; [exact Hi3|].
      exists []. rewrite app_nil_r. reflexivity. }
  destruct Hend as (Hfinal & more & ->).
  split; [exact Hfinal|].
  repeat (rewrite ?elem_of_app, ?elem_of_cons). tauto.
Qed.

Lemma threeNodes_healthy : Forall healthy threeNodes.
Proof. repeat constructor; cbn; unfold maxRetries; try lia; discriminate. Qed.

Lemma poll_returns_witness :
  exists nodes' calls,
    poll 7 firstIsDown threeNodes = Some (nodes', calls) /\
    map nodeIP nodes' = ["192.168.1.3"; "192.168.1.4"; "192.168.1.5"]%string.
Proof.
  destruct (poll_returns firstIsDown threeNodes threeNodes_healthy)
    as (nodes' & calls & Hp & _ & Hip & _).
  exists nodes', calls. split; [exact Hp|exact Hip].
Defined.

Lemma threeNodes_NoDup : NoDup (map nodeIP threeNodes).
Proof.
  cbn. repeat (apply NoDup_cons; split; [|]); try apply NoDup_nil_2;
    rewrite ?elem_of_cons, ?elem_of_nil; intros H; repeat destruct H as [H|H];
    discriminate || exact H.
Qed.

Lemma check_reports_changes_witness :
  let pass := check (firstIsDown 0) false threeNodes in
  map nodeIP pass.1.1 = ["192.168.1.3"; "192.168.1.4"; "192.168.1.5"]%string /\
  map egressIPs pass.1.1 = map egressIPs threeNodes.
Proof.
  pose proof (check_reports_changes (firstIsDown 0) false threeNodes threeNodes_NoDup)
    as Hthm.
  cbv zeta in Hthm |- *. split; [exact (proj1 Hthm)|exact (proj1 (proj2 Hthm))].
Defined.

Lemma poll_declares_offline_witness :
  exists nodes' calls,
    poll 7 firstIsDown threeNodes = Some (nodes', calls) /\
    nodes' !! 0%nat = Some (setOffline (fresh "192.168.1.3") true) /\
    SetNodeOffline "192.168.1.3" true ∈ calls.
Proof.
  assert (Hfail : forall pass t, (pass < 3)%nat ->
            firstIsDown pass (nodeIP (fresh "192.168.1.3")) t = false)
    by (intros; reflexivity).
  destruct (poll_declares_offline firstIsDown threeNodes 0 (fresh "192.168.1.3")
              threeNodes_healthy threeNodes_NoDup eq_refl eq_refl eq_refl Hfail)
    as (nodes' & calls & Hp & Hn & Hs & _).
  exists nodes', calls. split; [exact Hp|]. split; [exact Hn|exact Hs].
Defined.

End NodeLiveness.

(** ** The master allocator: reallocation and writeback

    The second half of [maybeDoUpdateEgressCIDRs]: every HostSubnet whose
    egress IPs the tracker has reallocated is written back, the monitored
    nodes are built anew, and the poller is started or stopped. *)

Module Reallocation.
Import Master.
Local Open Scope string_scope.

(** [networkv1.HostSubnet], as far as the writeback reads and writes it. *)
Record HostSubnet := {
  Host : string;
  HostIP : string;
  EgressIPs : list string
}.

(** The errors of the lister and of the API server. *)
Inductive apiError :=
| NotFoundError (name : string)
| ConflictError
| OtherError (msg : string).

(** [errors.IsConflict] *)
Definition IsConflict (err : apiError) : bool :=
  match err with
  | ConflictError => true
  | _ => false
  end.

Inductive effect :=
| Update (hs : HostSubnet)
| HandleError (err : apiError)
| GoPoll (stop : nat)
| Close (stop : nat).

(** The manager: the two flags, the monitored nodes by host IP, the stop
    channel (a channel is known by its number) and the number of channels
    made so far. *)
Record egressIPManager := {
  updateState : updateFlags;
  monitorNodes : gmap string egressNode;
  stop : option nat;
  chans : nat
}.

(** What lies outside the manager: the store behind the HostSubnet
    lister, whose objects [Get] hands out by reference; how often the
    lister and the API server have been asked; the effects so far. *)
Record cluster := {
  store : gmap string HostSubnet;
  gets : nat;
  puts : nat;
  effects : list effect
}.

Definition emit (e : effect) (w : cluster) : cluster :=
  {| store := store w; gets := gets w; puts := puts w;
     effects := (effects w ++ [e])%list |}.

(** [oldIPs.Equal(newIPs)] on [sets.String] *)
Definition sets_Equal (old new : list string) : bool :=
  bool_decide ((list_to_set old : gset string) = list_to_set new).

(** [retry.OnError] with a backoff of [steps] steps: [fn] is called until
    it succeeds, fails with an error that is not retriable, or the steps
    are used up; then the last error is returned. *)
Fixpoint OnError {State : Type} (steps : nat) (retriable : apiError -> bool)
    (fn : State -> option apiError * State) (lastErr : option apiError) (s : State)
  : option apiError * State :=
  match steps with
  | O => (lastErr, s)
  | S steps' =>
      match fn s with
      | (None, s') => (None, s')
      | (Some err, s') =>
          if retriable err then OnError steps' retriable fn (Some err) s'
          else (Some err, s')
      end
  end.

(** [retry.DefaultBackoff] has four steps. *)
Definition DefaultBackoff_Steps : nat := 4.

Definition RetryOnConflict {State : Type} (fn : State -> option apiError * State)
    (s : State) : option apiError * State :=
  OnError DefaultBackoff_Steps IsConflict fn None s.

Section Writeback.
(** What the informer does to the store before the n-th [Get], and what
    the API server answers to the n-th [Update]. *)
Variable informer : nat -> gmap string HostSubnet -> gmap string HostSubnet.
Variable HostSubnets_Update : nat -> HostSubnet -> option apiError.

(** The function handed to [RetryOnConflict]. It works on the new map of
    monitored nodes and on the cluster; [eim.monitorNodes] is still the
    old map. *)
Definition updateHostSubnet (eim : egressIPManager) (nodeName : string)
    (egressIPs : list string) (st : gmap string egressNode * cluster)
  : option apiError * (gmap string egressNode * cluster) :=
  let '(monitorNodes', w) := st in
  let store' := informer (gets w) (store w) in
  let w := {| store := store'; gets := S (gets w); puts := puts w;
              effects := effects w |} in
  match store' !! nodeName with
  | None => (Some (NotFoundError nodeName), (monitorNodes', w))
  | Some hs =>
      let node :=
        match monitorNodes eim !! HostIP hs with
        | Some node => node
        | None => {| ip := HostIP hs; name := nodeName; offline := false; retries := 0 |}
        end in
      let monitorNodes' := <[HostIP hs := node]> monitorNodes' in
      if sets_Equal (EgressIPs hs) egressIPs then (None, (monitorNodes', w))
      else
        (* [hs] is the object in the store: the assignment to
           [hs.EgressIPs] changes the stored object *)
        let hs := {| Host := Host hs; HostIP := HostIP hs; EgressIPs := egressIPs |} in
        (HostSubnets_Update (puts w) hs,
         (monitorNodes',
          {| store := <[nodeName := hs]> store'; gets := gets w; puts := S (puts w);
             effects := (effects w ++ [Update hs])%list |}))
  end.

(** The body of the loop over the allocation. *)
Definition allocateNode (eim : egressIPManager)
    (st : gmap string egressNode * cluster) (entry : string * list string)
  : gmap string egressNode * cluster :=
  match RetryOnConflict (updateHostSubnet eim (fst entry) (snd entry)) st with
  | (Some resultErr, (monitorNodes', w)) => (monitorNodes', emit (HandleError resultErr) w)
  | (None, st) => st
  end.

(** [allocation] is what [eim.tracker.ReallocateEgressIPs()] returns, in
    the order the map hands it out. The boolean is the [done] that
    [PollInfinite] looks at. *)
Definition maybeDoUpdateEgressCIDRs (allocation : list (string * list string))
    (eim : egressIPManager) (w : cluster) : egressIPManager * cluster * bool :=
  let '(fl, done) := Master.maybeDoUpdateEgressCIDRs (updateState eim) in
  if negb done then
    ({| updateState := fl; monitorNodes := monitorNodes eim; stop := stop eim;
        chans := chans eim |}, w, false)
  else
    let '(monitorNodes', w) := fold_left (allocateNode eim) allocation (∅, w) in
    if (0 <? size monitorNodes')%nat then
      match stop eim with
      | None =>
          ({| updateState := fl; monitorNodes := monitorNodes';
              stop := Some (chans eim); chans := S (chans eim) |},
           emit (GoPoll (chans eim)) w, true)
      | Some c =>
          ({| updateState := fl; monitorNodes := monitorNodes'; stop := Some c;
              chans := chans eim |}, w, true)
      end
    else
      match stop eim with
      | Some c =>
          ({| updateState := fl; monitorNodes := monitorNodes'; stop := None;
              chans := chans eim |}, emit (Close c) w, true)
      | None =>
          ({| updateState := fl; monitorNodes := monitorNodes'; stop := None;
              chans := chans eim |}, w, true)
      end.

End Writeback.

(** A monitored node that the old map did not have. *)
Definition freshNode (node : egressNode) : Prop :=
  offline node = false /\ retries node = 0%Z.

(** Every node of the new map is the record the old map had under its
    host IP, or a fresh record for a node of the allocation. *)
Definition rebuilt (old : gmap string egressNode) (names : list string)
    (new : gmap string egressNode) : Prop :=
  forall hostIP node, new !! hostIP = Some node ->
    old !! hostIP = Some node \/
    (old !! hostIP = None /\ ip node = hostIP /\ freshNode node /\ name node ∈ names).

(** The informer leaves the store alone. *)
Definition quietInformer (informer : nat -> gmap string HostSubnet -> gmap string HostSubnet)
  : Prop :=
  forall n st, informer n st = st.

(** The [Update] calls among the effects. *)
Definition isUpdate (e : effect) : bool :=
  match e with
  | Update _ => true
  | _ => false
  end.

Definition updates (es : list effect) : nat := length (List.filter isUpdate es).

(** Updates that write these egress IPs. *)
Definition updatesOf (egressIPs : list string) (ups : list effect) : Prop :=
  Forall (fun e => exists hs, e = Update hs /\ EgressIPs hs = egressIPs) ups.

(** The effects of one turn of the loop over the allocation: no more
    updates than the backoff has steps, each with the egress IPs the node
    is to get, and then at most one error handed to [HandleError]. *)
Definition writebackOf (entry : string * list string) (seg : list effect) : Prop :=
  exists ups tail, seg = (ups ++ tail)%list /\
    (length ups <= DefaultBackoff_Steps)%nat /\ updatesOf (snd entry) ups /\
    (tail = [] \/ exists err, tail = [HandleError err]).

(** The node [nodeName] is one of [names] and its stored HostSubnet has
    this host IP. *)
Definition allocated (w : cluster) (names : list string) (hostIP nodeName : string) : Prop :=
  nodeName ∈ names /\ exists hs, store w !! nodeName = Some hs /\ HostIP hs = hostIP.

(** The new map has exactly the host IPs of the stored HostSubnets of
    [names]; a record that the old map did not have bears the name of
    such a node. *)
Definition monitorsAllocated (old : gmap string egressNode) (w : cluster)
    (names : list string) (new : gmap string egressNode) : Prop :=
  (forall hostIP node, new !! hostIP = Some node ->
     exists nodeName, allocated w names hostIP nodeName /\
       (old !! hostIP = None -> name node = nodeName)) /\
  (forall hostIP nodeName, allocated w names hostIP nodeName -> is_Some (new !! hostIP)).

(** What [k] attempts to write [egressIPs] have done to the cluster. *)
Definition tried (w0 : cluster) (egressIPs : list string) (k : nat)
    (st : gmap string egressNode * cluster) : Prop :=
  exists ups, effects st.2 = (effects w0 ++ ups)%list /\ (length ups <= k)%nat /\
    updatesOf egressIPs ups /\ puts st.2 = (puts w0 + length ups)%nat.

(** What the loop has gathered when it is through with the nodes [done],
    the store keeping every HostSubnet's host IP. *)
Definition gathered (old : gmap string egressNode) (w0 : cluster) (done : list string)
    (st : gmap string egressNode * cluster) : Prop :=
  (forall n, HostIP <$> store st.2 !! n = HostIP <$> store w0 !! n) /\
  monitorsAllocated old w0 done st.1.

(** An old record for a node that is no longer allocated, and a cluster
    with the HostSubnet of one node that is. *)
Definition oldManager : egressIPManager :=
  {| updateState := {| updatePending := true; updatedAgain := false |};
     monitorNodes :=
       <["10.0.0.9" := {| ip := "10.0.0.9"; name := "nodeZ"; offline := true;
                          retries := 0 |}]> ∅;
     stop := Some 0%nat; chans := 1 |}.

(** What the writeback leaves of a stored HostSubnet that is to get
    [egressIPs]. *)
Definition written (egressIPs : list string) (hs : HostSubnet) : HostSubnet :=
  {| Host := Host hs; HostIP := HostIP hs;
     EgressIPs := if sets_Equal (EgressIPs hs) egressIPs then EgressIPs hs else egressIPs |}.

(** Every stored HostSubnet of the allocation has the egress IPs it is
    to get. *)
Definition settled (w : cluster) (l : list (string * list string)) : Prop :=
  forall nodeName egressIPs hs, (nodeName, egressIPs) ∈ l ->
    store w !! nodeName = Some hs -> sets_Equal (EgressIPs hs) egressIPs = true.

(** What the loop over the allocation does to a cluster whose store the
    informer leaves alone: at most one [Update] for each node; the stored
    HostSubnets of the allocation are overwritten, the others kept; no
    conflict is logged; and a settled cluster gets no [Update]. *)
Definition quietly (w : cluster) (l : list (string * list string)) (w' : cluster) : Prop :=
  (puts w' <= puts w + length l)%nat /\
  (forall other, other ∉ map fst l -> store w' !! other = store w !! other) /\
  (forall nodeName egressIPs, (nodeName, egressIPs) ∈ l ->
     store w' !! nodeName = written egressIPs <$> store w !! nodeName) /\
  (exists es, effects w' = (effects w ++ es)%list /\ HandleError ConflictError ∉ es) /\
  (settled w l -> puts w' = puts w /\ store w' = store w).

(** An API server that answers every update with a conflict, and a
    cluster with one HostSubnet that is to get an egress IP. *)
Definition alwaysConflict (n : nat) (hs : HostSubnet) : option apiError :=
  Some ConflictError.

Definition noInformer (n : nat) (st : gmap string HostSubnet) : gmap string HostSubnet := st.

Definition oneSubnet : cluster :=
  {| store := <["nodeA" := {| Host := "nodeA"; HostIP := "10.0.0.2"; EgressIPs := [] |}]> ∅;
     gets := 0; puts := 0; effects := [] |}.

Definition newManager : egressIPManager :=
  {| updateState := {| updatePending := true; updatedAgain := false |};
     monitorNodes := ∅; stop := None; chans := 0 |}.

Definition oneAllocation : list (string * list string) :=
  [("nodeA", ["192.168.1.100"])].

(** *** Theorems *)

Lemma OnError_inv {State : Type} (I : nat -> State -> Prop) retriable
    (fn : State -> option apiError * State) :
  (forall k s, I k s -> I (S k) (fn s).2) ->
  forall steps lastErr s k, I k s ->
    exists j, (j <= steps)%nat /\ I (k + j)%nat (OnError steps retriable fn lastErr s).2.
Proof.
  intros Hfn. induction steps as [|steps IH]; intros lastErr s k Hs; cbn [OnError].
  - exists 0%nat. rewrite Nat.add_0_r. split; [lia|exact Hs].
  - specialize (Hfn k s Hs). destruct (fn s) as [[err|] s']; cbn [snd] in *.
    + destruct (retriable err).
      * destruct (IH (Some err) s' (S k) Hfn) as (j & Hj & HI).
        exists (S j). split; [lia|]. replace (k + S j)%nat with (S k + j)%nat by lia.
        exact HI.
      * exists 1%nat. split; [lia|]. replace (k + 1)%nat with (S k) by lia. exact Hfn.
    + exists 1%nat. split; [lia|]. replace (k + 1)%nat with (S k) by lia. exact Hfn.
Qed.

Lemma sets_Equal_refl l : sets_Equal l l = true.
Proof. unfold sets_Equal. apply bool_decide_eq_true. reflexivity. Qed.

Section WritebackFacts.
Variable informer : nat -> gmap string HostSubnet -> gmap string HostSubnet.
Variable HostSubnets_Update : nat -> HostSubnet -> option apiError.

(** The first attempt of a retry establishes what the later ones keep. *)
Lemma OnError_first {State : Type} (P Q : State -> Prop) retriable
    (fn : State -> option apiError * State) steps lastErr s :
  (forall s, P s -> Q (fn s).2) -> (forall s, Q s -> Q (fn s).2) ->
  P s -> Q (OnError (S steps) retriable fn lastErr s).2.
Proof.
  intros Hfirst Hkeep Hs. cbn [OnError]. specialize (Hfirst s Hs).
  destruct (fn s) as [[err|] s']; cbn [snd] in *; [|exact Hfirst].
  destruct (retriable err); [|exact Hfirst].
  destruct (OnError_inv (fun _ => Q) retriable fn (fun _ => Hkeep) steps (Some err) s' 0%nat
              Hfirst) as (j & _ & HQ).
  exact HQ.
Qed.

Lemma updateHostSubnet_rebuilt eim names nodeName egressIPs st :
  nodeName ∈ names -> rebuilt (monitorNodes eim) names st.1 ->
  rebuilt (monitorNodes eim) names
    (updateHostSubnet informer HostSubnets_Update eim nodeName egressIPs st).2.1.
Proof.
  intros Hname Hre. destruct st as [mn w]. cbn [fst snd] in *.
  unfold updateHostSubnet.
  destruct (informer (gets w) (store w) !! nodeName) as [hs|]; cbn [snd fst];
    [|exact Hre].
  assert (Hre' : rebuilt (monitorNodes eim) names
    (<[HostIP hs := match monitorNodes eim !! HostIP hs with
                    | Some node => node
                    | None => {| ip := HostIP hs; name := nodeName; offline := false;
                                 retries := 0 |}
                    end]> mn)).
  { intros hostIP node. destruct (decide (HostIP hs = hostIP)) as [<-|Hne].
    - rewrite lookup_insert_eq. intros [= <-].
      destruct (monitorNodes eim !! HostIP hs) as [old|]; [left; reflexivity|].
      right. split; [reflexivity|]. split; [reflexivity|]. split; [split; reflexivity|].
      exact Hname.
    - rewrite lookup_insert_ne by exact Hne. apply Hre. }
  destruct (sets_Equal (EgressIPs hs) egressIPs); exact Hre'.
Qed.

Lemma allocateNode_rebuilt eim names st entry :
  fst entry ∈ names -> rebuilt (monitorNodes eim) names st.1 ->
  rebuilt (monitorNodes eim) names (allocateNode informer HostSubnets_Update eim st entry).1.
Proof.
  intros Hname Hst. unfold allocateNode, RetryOnConflict.
  destruct (OnError_inv (fun _ st => rebuilt (monitorNodes eim) names st.1) IsConflict
              (updateHostSubnet informer HostSubnets_Update eim (fst entry) (snd entry))
              (fun _ s => updateHostSubnet_rebuilt eim names _ _ s Hname)
              DefaultBackoff_Steps None st 0%nat Hst) as (j & _ & HI).
  destruct (OnError _ _ _ _ _) as [[err|] [mn w]]; exact HI.
Qed.

Lemma allocation_rebuilt eim names l : forall st,
  (forall entry, entry ∈ l -> fst entry ∈ names) -> rebuilt (monitorNodes eim) names st.1 ->
  rebuilt (monitorNodes eim) names
    (fold_left (allocateNode informer HostSubnets_Update eim) l st).1.
Proof.
  induction l as [|entry l IH]; intros st Hnames Hst; cbn [fold_left]; [exact Hst|].
  apply IH; [intros e He; apply Hnames; right; exact He|].
  apply allocateNode_rebuilt; [apply Hnames; left|exact Hst].
Qed.

Lemma updates_app es es' : updates (es ++ es') = (updates es + updates es')%nat.
Proof. unfold updates. rewrite List.filter_app, length_app. reflexivity. Qed.

Lemma updates_updatesOf egressIPs ups : updatesOf egressIPs ups -> updates ups = length ups.
Proof.
  unfold updates. induction 1 as [|e ups (hs & -> & _) _ IH]; [reflexivity|].
  cbn [List.filter isUpdate length]. rewrite IH. reflexivity.
Qed.

Lemma updates_writebackOf entry seg :
  writebackOf entry seg -> (updates seg <= DefaultBackoff_Steps)%nat.
Proof.
  intros (ups & tail & -> & Hlen & Hups & Htail).
  rewrite updates_app, (updates_updatesOf _ _ Hups).
  destruct Htail as [->|(err & ->)]; cbn; lia.
Qed.

Lemma updateHostSubnet_tried eim w0 nodeName egressIPs k st :
  tried w0 egressIPs k st ->
  tried w0 egressIPs (S k)
    (updateHostSubnet informer HostSubnets_Update eim nodeName egressIPs st).2.
Proof.
  intros (ups & Hes & Hlen & Hups & Hputs). destruct st as [mn w]. cbn [fst snd] in *.
  unfold updateHostSubnet.
  destruct (informer (gets w) (store w) !! nodeName) as [hs|]; cbn [snd fst].
  2:{ exists ups. cbn. auto. }
  destruct (sets_Equal (EgressIPs hs) egressIPs); cbn [fst snd].
  { exists ups. cbn. auto. }
  eexists (ups ++ [Update _])%list. cbn [fst snd effects puts].
  rewrite Hes, <- app_assoc, length_app. cbn [length].
  split; [reflexivity|]. split; [lia|]. split; [|lia].
  apply Forall_app. split; [exact Hups|]. apply Forall_cons. split; [|constructor].
  eexists. split; reflexivity.
Qed.

(** One turn of the loop over the allocation. *)
Lemma allocateNode_effects eim st entry :
  exists seg,
    effects (allocateNode informer HostSubnets_Update eim st entry).2 =
      (effects st.2 ++ seg)%list /\
    writebackOf entry seg /\
    puts (allocateNode informer HostSubnets_Update eim st entry).2 =
      (puts st.2 + updates seg)%nat.
Proof.
  unfold allocateNode, RetryOnConflict.
  assert (H0 : tried st.2 (snd entry) 0 st).
  { exists []. rewrite app_nil_r. cbn. split; [reflexivity|]. split; [lia|].
    split; [constructor|lia]. }
  destruct (OnError_inv (tried st.2 (snd entry)) IsConflict
              (updateHostSubnet informer HostSubnets_Update eim (fst entry) (snd entry))
              (fun k s => updateHostSubnet_tried eim st.2 _ _ k s)
              DefaultBackoff_Steps None st 0%nat H0) as (j & Hj & ups & Hes & Hlen & Hups & Hputs).
  destruct (OnError _ _ _ _ _) as [[err|] [mn w]]; cbn [fst snd] in *.
  - exists (ups ++ [HandleError err])%list. cbn [emit effects puts].
    rewrite Hes, <- app_assoc. split; [reflexivity|]. split.
    + exists ups, [HandleError err]. split; [reflexivity|]. split; [lia|].
      split; [exact Hups|]. right. exists err. reflexivity.
    + rewrite updates_app, (updates_updatesOf _ _ Hups). cbn. lia.
  - exists ups. split; [exact Hes|]. split.
    + exists ups, []. rewrite app_nil_r. split; [reflexivity|]. split; [lia|].
      split; [exact Hups|]. left. reflexivity.
    + rewrite (updates_updatesOf _ _ Hups). exact Hputs.
Qed.

Lemma allocation_effects eim l : forall st,
  exists segs,
    effects (fold_left (allocateNode informer HostSubnets_Update eim) l st).2 =
      (effects st.2 ++ concat segs)%list /\
    Forall2 writebackOf l segs /\
    puts (fold_left (allocateNode informer HostSubnets_Update eim) l st).2 =
      (puts st.2 + updates (concat segs))%nat /\
    (updates (concat segs) <= DefaultBackoff_Steps * length l)%nat.
Proof.
  induction l as [|entry l IH]; intros st; cbn [fold_left].
  - exists []. cbn. rewrite app_nil_r. split; [reflexivity|]. split; [constructor|].
    split; lia.
  - destruct (allocateNode_effects eim st entry) as (seg & He & Hw & Hp).
    destruct (IH (allocateNode informer HostSubnets_Update eim st entry))
      as (segs & Hes & Hws & Hps & Hb).
    exists (seg :: segs). cbn [concat].
    rewrite Hes, He, <- app_assoc. split; [reflexivity|].
    split; [constructor; [exact Hw|exact Hws]|].
    pose proof (updates_writebackOf entry seg Hw) as Hseg.
    rewrite updates_app, Hps, Hp. cbn [length]. split; lia.
Qed.

Lemma monitorsAllocated_names old w names names' new :
  (forall n, n ∈ names <-> n ∈ names') ->
  monitorsAllocated old w names new -> monitorsAllocated old w names' new.
Proof.
  intros Hsame [Hin Hout]. split.
  - intros hostIP node Hl. destruct (Hin hostIP node Hl) as (n & (Hn & Hs) & Hname).
    exists n. split; [split; [apply Hsame, Hn|exact Hs]|exact Hname].
  - intros hostIP n (Hn & Hs). apply (Hout hostIP n). split; [apply Hsame, Hn|exact Hs].
Qed.

(** While the informer leaves the store alone, an attempt for a node adds
    the host IP of its stored HostSubnet, if it has one. *)
Lemma updateHostSubnet_gathered eim w0 done nodeName egressIPs st :
  quietInformer informer ->
  gathered (monitorNodes eim) w0 done st ->
  gathered (monitorNodes eim) w0 (nodeName :: done)
    (updateHostSubnet informer HostSubnets_Update eim nodeName egressIPs st).2.
Proof.
  intros Hquiet (Hhosts & Hin & Hout). destruct st as [mn w]. cbn [fst snd] in *.
  unfold updateHostSubnet. rewrite Hquiet.
  pose proof (Hhosts nodeName) as Hn.
  destruct (store w !! nodeName) as [hs|] eqn:Hs; cbn [fst snd store].
  2:{ split; [exact Hhosts|]. split.
      - intros hostIP node Hl. destruct (Hin hostIP node Hl) as (n & (Hd & Hst) & Hname).
        exists n. split; [split; [right; exact Hd|exact Hst]|exact Hname].
      - intros hostIP n ([->|Hd]%elem_of_cons & hs0 & Hst & Hip).
        + rewrite Hst in Hn. discriminate.
        + apply (Hout hostIP n). split; [exact Hd|]. exists hs0. auto. }
  destruct (store w0 !! nodeName) as [hs0|] eqn:Hs0; [|discriminate].
  injection Hn as Hip0.
  set (node := match monitorNodes eim !! HostIP hs with
               | Some node => node
               | None => {| ip := HostIP hs; name := nodeName; offline := false;
                            retries := 0 |}
               end).
  assert (Hmon : monitorsAllocated (monitorNodes eim) w0 (nodeName :: done)
                   (<[HostIP hs := node]> mn)).
  { split.
    - intros hostIP nd. destruct (decide (HostIP hs = hostIP)) as [<-|Hne].
      + rewrite lookup_insert_eq. intros [= <-]. exists nodeName. split.
        * split; [left|]. exists hs0. split; [exact Hs0|]. symmetry. exact Hip0.
        * intros Hold. subst node. rewrite Hold. reflexivity.
      + rewrite lookup_insert_ne by exact Hne. intros Hl.
        destruct (Hin hostIP nd Hl) as (n & (Hd & Hst) & Hname).
        exists n. split; [split; [right; exact Hd|exact Hst]|exact Hname].
    - intros hostIP n ([->|Hd]%elem_of_cons & hs1 & Hst & Hip).
      + rewrite Hs0 in Hst. injection Hst as <-. rewrite <- Hip, <- Hip0.
        rewrite lookup_insert_eq. eauto.
      + destruct (decide (HostIP hs = hostIP)) as [<-|Hne];
          [rewrite lookup_insert_eq; eauto|].
        rewrite lookup_insert_ne by exact Hne.
        apply (Hout hostIP n). split; [exact Hd|]. exists hs1. auto. }
  destruct (sets_Equal (EgressIPs hs) egressIPs); cbn [fst snd store].
  - split; [exact Hhosts|exact Hmon].
  - split; [|exact Hmon]. intros n. cbn [fst snd store].
    destruct (decide (n = nodeName)) as [->|Hne].
    + rewrite lookup_insert_eq, Hs0. cbn. rewrite Hip0. reflexivity.
    + rewrite lookup_insert_ne by congruence. apply Hhosts.
Qed.

Lemma allocateNode_gathered eim w0 done st entry :
  quietInformer informer ->
  gathered (monitorNodes eim) w0 done st ->
  gathered (monitorNodes eim) w0 (fst entry :: done)
    (allocateNode informer HostSubnets_Update eim st entry).
Proof.
  intros Hquiet Hst. unfold allocateNode, RetryOnConflict, DefaultBackoff_Steps.
  assert (Hret : gathered (monitorNodes eim) w0 (fst entry :: done)
    (OnError 4 IsConflict
       (updateHostSubnet informer HostSubnets_Update eim (fst entry) (snd entry)) None st).2).
  { apply (OnError_first (gathered (monitorNodes eim) w0 done)
             (gathered (monitorNodes eim) w0 (fst entry :: done))).
    - intros s Hs. apply updateHostSubnet_gathered; assumption.
    - intros s Hs.
      destruct (updateHostSubnet_gathered eim w0 _ (fst entry) (snd entry) s Hquiet Hs)
        as [Hh Hm].
      split; [exact Hh|].
      apply (monitorsAllocated_names _ _ (fst entry :: fst entry :: done)); [|exact Hm].
      intros n. rewrite !elem_of_cons. tauto.
    - exact Hst. }
  destruct (OnError 4 _ _ _ _) as [[err|] [mn w]]; cbn [snd] in Hret; exact Hret.
Qed.

Lemma allocation_gathered eim w0 l : forall done st,
  quietInformer informer ->
  gathered (monitorNodes eim) w0 done st ->
  gathered (monitorNodes eim) w0 (rev (map fst l) ++ done)
    (fold_left (allocateNode informer HostSubnets_Update eim) l st).
Proof.
  induction l as [|entry l IH]; intros done st Hquiet Hst; cbn [fold_left map rev];
    [exact Hst|].
  rewrite <- app_assoc. cbn [app]. apply IH; [exact Hquiet|].
  apply allocateNode_gathered; assumption.
Qed.

(** X24. A call that finds [updatedAgain] raised does nothing but lower it.
    Any other call builds the monitored nodes anew: every node of the new
    map is the record the old map had under this host IP, with its
    offline flag and retry count, or a fresh record for a node of the
    allocation. While the informer leaves the store alone, the new map
    has exactly the host IPs of the stored HostSubnets of the
    allocation's nodes, so that a node that is not in the allocation is
    no longer monitored. There is a stop channel afterwards exactly when
    the new map is not empty; the poller is started only when there was
    no channel and the map is not empty, the channel is closed only when
    the map has become empty, and either comes after all writebacks. The
    writebacks come node by node in the order of the allocation: for each
    node no more [Update]s than the backoff has steps, each with the
    egress IPs the node is to get, and then at most one reported error. *)
Theorem maybeDoUpdateEgressCIDRs_monitors allocation eim w :
  let r := maybeDoUpdateEgressCIDRs informer HostSubnets_Update allocation eim w in
  let eim' := r.1.1 in
  let w' := r.1.2 in
  if updatedAgain (updateState eim) then
    r.2 = false /\ w' = w /\ monitorNodes eim' = monitorNodes eim /\ stop eim' = stop eim
  else
    r.2 = true /\
    rebuilt (monitorNodes eim) (map fst allocation) (monitorNodes eim') /\
    (quietInformer informer ->
     monitorsAllocated (monitorNodes eim) w (map fst allocation) (monitorNodes eim')) /\
    (stop eim' = None <-> monitorNodes eim' = ∅) /\
    exists segs tail,
      effects w' = (effects w ++ concat segs ++ tail)%list /\
      Forall2 writebackOf allocation segs /\
      puts w' = (puts w + updates (concat segs))%nat /\
      (puts w' <= puts w + DefaultBackoff_Steps * length allocation)%nat /\
      ((stop eim = None /\ monitorNodes eim' <> ∅ /\ tail = [GoPoll (chans eim)] /\
        stop eim' = Some (chans eim)) \/
       (exists c, stop eim = Some c /\ monitorNodes eim' = ∅ /\ tail = [Close c]) \/
       (tail = [] /\ stop eim' = stop eim)).
Proof.
  intros r eim' w'. subst w' eim' r.
  unfold maybeDoUpdateEgressCIDRs, Master.maybeDoUpdateEgressCIDRs.
  destruct (updatedAgain (updateState eim)); cbn [negb fst snd]; [repeat split|].
  assert (Hre : rebuilt (monitorNodes eim) (map fst allocation)
                  (fold_left (allocateNode informer HostSubnets_Update eim) allocation (∅, w)).1).
  { apply allocation_rebuilt; [intros entry He; apply (list_elem_of_fmap_2 fst _ _ He)|].
    intros hostIP node Hl. cbn [fst] in Hl. rewrite lookup_empty in Hl. discriminate. }
  assert (Hmon : quietInformer informer ->
            monitorsAllocated (monitorNodes eim) w (map fst allocation)
              (fold_left (allocateNode informer HostSubnets_Update eim) allocation (∅, w)).1).
  { intros Hquiet.
    assert (H0 : gathered (monitorNodes eim) w [] (∅, w)).
    { split; [reflexivity|]. split.
      - intros hostIP node Hl. cbn [fst] in Hl. rewrite lookup_empty in Hl. discriminate.
      - intros hostIP n ([]%elem_of_nil & _). }
    destruct (allocation_gathered eim w allocation [] (∅, w) Hquiet H0) as [_ Hm].
    apply (monitorsAllocated_names _ _ _ (map fst allocation)) in Hm; [exact Hm|].
    intros n. rewrite app_nil_r, !list_elem_of_In. symmetry. apply in_rev. }
  destruct (allocation_effects eim allocation (∅, w)) as (segs & Hes & Hsegs & Hputs & Hb).
  destruct (fold_left _ allocation (∅, w)) as [mn w1]. cbn [fst snd] in *.
  assert (Hle : (puts w1 <= puts w + DefaultBackoff_Steps * length allocation)%nat) by lia.
  assert (Hsize : (0 <? size mn)%nat = false <-> mn = ∅).
  { rewrite Nat.ltb_ge, <- (map_size_empty_iff mn). lia. }
  destruct (0 <? size mn)%nat eqn:Hnz.
  - assert (Hne : mn <> ∅) by (intros He; apply Hsize in He; discriminate).
    destruct (stop eim) as [c|] eqn:Hstop; cbn [fst snd monitorNodes stop effects emit puts].
    + split; [reflexivity|]. split; [exact Hre|]. split; [exact Hmon|].
      split; [split; [discriminate|contradiction]|].
      exists segs, []. rewrite app_nil_r.
      split; [exact Hes|]. split; [exact Hsegs|]. split; [exact Hputs|]. split; [exact Hle|].
      right. right. split; reflexivity.
    + split; [reflexivity|]. split; [exact Hre|]. split; [exact Hmon|].
      split; [split; [discriminate|contradiction]|].
      exists segs, [GoPoll (chans eim)].
      rewrite Hes, <- app_assoc. split; [reflexivity|]. split; [exact Hsegs|].
      split; [exact Hputs|]. split; [exact Hle|]. left. auto.
  - assert (He : mn = ∅) by (apply Hsize; reflexivity).
    destruct (stop eim) as [c|] eqn:Hstop; cbn [fst snd monitorNodes stop effects emit puts].
    + split; [reflexivity|]. split; [exact Hre|]. split; [exact Hmon|]. split; [split; auto|].
      exists segs, [Close c].
      rewrite Hes, <- app_assoc. split; [reflexivity|]. split; [exact Hsegs|].
      split; [exact Hputs|]. split; [exact Hle|]. right. left. exists c. auto.
    + split; [reflexivity|]. split; [exact Hre|]. split; [exact Hmon|]. split; [split; auto|].
      exists segs, []. rewrite app_nil_r.
      split; [exact Hes|]. split; [exact Hsegs|]. split; [exact Hputs|]. split; [exact Hle|].
      right. right. split; reflexivity.
Qed.

Lemma written_Equal egressIPs hs : sets_Equal (EgressIPs (written egressIPs hs)) egressIPs = true.
Proof.
  unfold written. cbn. destruct (sets_Equal (EgressIPs hs) egressIPs) eqn:He;
    [exact He|apply sets_Equal_refl].
Qed.

Lemma updateHostSubnet_quiet eim nodeName egressIPs mn w :
  quietInformer informer ->
  updateHostSubnet informer HostSubnets_Update eim nodeName egressIPs (mn, w) =
    let w1 := {| store := store w; gets := S (gets w); puts := puts w;
                 effects := effects w |} in
    match store w !! nodeName with
    | None => (Some (NotFoundError nodeName), (mn, w1))
    | Some hs =>
        let mn1 :=
          <[HostIP hs := match monitorNodes eim !! HostIP hs with
                         | Some node => node
                         | None => {| ip := HostIP hs; name := nodeName; offline := false;
                                      retries := 0 |}
                         end]> mn in
        if sets_Equal (EgressIPs hs) egressIPs then (None, (mn1, w1))
        else
          let hs' := {| Host := Host hs; HostIP := HostIP hs; EgressIPs := egressIPs |} in
          (HostSubnets_Update (puts w) hs',
           (mn1, {| store := <[nodeName := hs']> (store w); gets := S (gets w);
                    puts := S (puts w); effects := (effects w ++ [Update hs'])%list |}))
    end.
Proof. intros Hquiet. unfold updateHostSubnet. rewrite Hquiet. reflexivity. Qed.

Lemma allocateNode_quiet eim mn w nodeName egressIPs :
  quietInformer informer ->
  quietly w [(nodeName, egressIPs)]
    (allocateNode informer HostSubnets_Update eim (mn, w) (nodeName, egressIPs)).2.
Proof.
  intros Hquiet. unfold quietly, settled, allocateNode, RetryOnConflict, DefaultBackoff_Steps.
  cbn [OnError fst snd map length].
  rewrite (updateHostSubnet_quiet eim nodeName egressIPs mn w Hquiet). cbv zeta.
  assert (Hother : forall (st : gmap string HostSubnet) hs' other,
            other ∉ [nodeName] -> <[nodeName := hs']> st !! other = st !! other).
  { intros st hs' other Hn. apply lookup_insert_ne. intros ->. apply Hn. left. }
  assert (Hone : forall P : string -> list string -> Prop,
            (forall n e, (n, e) ∈ [(nodeName, egressIPs)] -> P n e) <-> P nodeName egressIPs).
  { intros P. split; [intros HP; apply HP; left|].
    intros HP n e [= -> ->]%list_elem_of_singleton. exact HP. }
  destruct (store w !! nodeName) as [hs|] eqn:Hs.
  2:{ cbn. split; [lia|]. split; [reflexivity|]. split.
      { apply Hone. rewrite Hs. reflexivity. }
      split; [|auto].
      eexists. split; [reflexivity|]. intros [=]%list_elem_of_singleton. }
  destruct (sets_Equal (EgressIPs hs) egressIPs) eqn:Heq.
  { cbn. split; [lia|]. split; [reflexivity|]. split.
    { apply Hone. rewrite Hs. cbn. unfold written. rewrite Heq. destruct hs; reflexivity. }
    split; [|auto].
    exists []. rewrite app_nil_r. split; [reflexivity|]. intros []%elem_of_nil. }
  set (hs' := {| Host := Host hs; HostIP := HostIP hs; EgressIPs := egressIPs |}).
  set (mn1 := <[HostIP hs := _]> mn).
  assert (Hw : Some hs' = written egressIPs <$> Some hs).
  { cbn. unfold written. rewrite Heq. reflexivity. }
  assert (Hunsettled :
    (forall n e hs0, (n, e) ∈ [(nodeName, egressIPs)] -> store w !! n = Some hs0 ->
       sets_Equal (EgressIPs hs0) e = true) -> False).
  { intros Hset. specialize (Hset nodeName egressIPs hs ltac:(left) Hs). congruence. }
  destruct (HostSubnets_Update (puts w) hs') as [[n| |msg]|]; cbn [IsConflict].
  - cbn. split; [lia|]. split; [intros other Hn; apply Hother, Hn|]. split.
    { apply Hone. rewrite lookup_insert_eq, Hs. exact Hw. }
    split; [|intros Hset; destruct (Hunsettled Hset)].
    eexists [_; _]. rewrite <- app_assoc. split; [reflexivity|].
    intros [[=]|[[=]|[]%elem_of_nil]%elem_of_cons]%elem_of_cons.
  - (* a conflict: the next attempt finds the stored object changed *)
    cbn [OnError]. rewrite (updateHostSubnet_quiet eim nodeName egressIPs _ _ Hquiet).
    cbv zeta. cbn [store gets puts effects].
    rewrite lookup_insert_eq. cbn [EgressIPs hs']. rewrite sets_Equal_refl.
    cbn. split; [lia|]. split; [intros other Hn; apply Hother, Hn|]. split.
    { apply Hone. rewrite lookup_insert_eq, Hs. exact Hw. }
    split; [|intros Hset; destruct (Hunsettled Hset)].
    eexists [_]. split; [reflexivity|]. intros [=]%list_elem_of_singleton.
  - cbn. split; [lia|]. split; [intros other Hn; apply Hother, Hn|]. split.
    { apply Hone. rewrite lookup_insert_eq, Hs. exact Hw. }
    split; [|intros Hset; destruct (Hunsettled Hset)].
    eexists [_; _]. rewrite <- app_assoc. split; [reflexivity|].
    intros [[=]|[[=]|[]%elem_of_nil]%elem_of_cons]%elem_of_cons.
  - cbn. split; [lia|]. split; [intros other Hn; apply Hother, Hn|]. split.
    { apply Hone. rewrite lookup_insert_eq, Hs. exact Hw. }
    split; [|intros Hset; destruct (Hunsettled Hset)].
    eexists [_]. split; [reflexivity|]. intros [=]%list_elem_of_singleton.
Qed.

Lemma allocation_quiet eim l : forall mn w,
  quietInformer informer -> NoDup (map fst l) ->
  quietly w l (fold_left (allocateNode informer HostSubnets_Update eim) l (mn, w)).2.
Proof.
  induction l as [|[nodeName egressIPs] l IH]; intros mn w Hquiet Hnd; cbn [fold_left].
  - unfold quietly. cbn. split; [lia|]. split; [reflexivity|].
    split; [intros n e []%elem_of_nil|]. split; [|auto].
    exists []. rewrite app_nil_r. split; [reflexivity|]. intros []%elem_of_nil.
  - cbn [map] in Hnd. apply NoDup_cons in Hnd. destruct Hnd as [Hfresh Hnd].
    pose proof (allocateNode_quiet eim mn w nodeName egressIPs Hquiet) as H1.
    destruct (allocateNode informer HostSubnets_Update eim (mn, w) (nodeName, egressIPs))
      as [mn1 w1].
    specialize (IH mn1 w1 Hquiet Hnd).
    destruct (fold_left _ l (mn1, w1)) as [mn2 w2]. cbn [snd] in *.
    destruct H1 as (P1 & O1 & W1 & (es1 & E1 & C1) & S1).
    destruct IH as (P2 & O2 & W2 & (es2 & E2 & C2) & S2).
    assert (Hhead : store w1 !! nodeName = written egressIPs <$> store w !! nodeName)
      by (apply W1; left).
    assert (Hrest : forall n, n ∈ map fst l -> store w1 !! n = store w !! n).
    { intros n Hn. apply O1. intros ->%list_elem_of_singleton. contradiction. }
    split; [cbn [length] in *; lia|]. split; [|split; [|split]].
    + intros other Hn. cbn [map] in Hn. apply not_elem_of_cons in Hn.
      destruct Hn as [Hne Hn]. rewrite (O2 other Hn). apply O1.
      intros ->%list_elem_of_singleton. contradiction.
    + intros n e [[= -> ->]|Hin]%elem_of_cons.
      * rewrite (O2 nodeName Hfresh). exact Hhead.
      * rewrite (W2 n e Hin), (Hrest n); [reflexivity|].
        apply (list_elem_of_fmap_2 fst _ _ Hin).
    + exists (es1 ++ es2)%list. rewrite E2, E1, app_assoc. split; [reflexivity|].
      intros [?|?]%elem_of_app; contradiction.
    + intros Hset.
      destruct S1 as [Hp1 Hs1].
      { intros n e hs [= -> ->]%list_elem_of_singleton. apply Hset. left. }
      destruct S2 as [Hp2 Hs2].
      { intros n e hs Hin. rewrite Hs1. apply Hset. right. exact Hin. }
      split; congruence.
Qed.

(** X25. A conflict is neither retried nor reported. While the informer leaves
    the store alone, a call that does the work issues at most one
    [Update] for each node of the allocation and never logs a conflict:
    the attempt after a conflict finds the new egress IPs already in the
    stored object, which [Get] hands out by reference, and issues no
    [Update]. Whether or not its [Update] went through, every stored
    HostSubnet of the allocation holds the allocated egress IPs
    afterwards, so that the next call with the same allocation issues no
    [Update] at all. *)
Theorem maybeDoUpdateEgressCIDRs_conflict allocation eim w :
  quietInformer informer -> NoDup (map fst allocation) ->
  updatedAgain (updateState eim) = false ->
  let r1 := maybeDoUpdateEgressCIDRs informer HostSubnets_Update allocation eim w in
  let r2 := maybeDoUpdateEgressCIDRs informer HostSubnets_Update allocation r1.1.1 r1.1.2 in
  (puts r1.1.2 <= puts w + length allocation)%nat /\
  (exists es, effects r1.1.2 = (effects w ++ es)%list /\ HandleError ConflictError ∉ es) /\
  (forall nodeName egressIPs, (nodeName, egressIPs) ∈ allocation ->
     store r1.1.2 !! nodeName = written egressIPs <$> store w !! nodeName) /\
  r2.2 = true /\ puts r2.1.2 = puts r1.1.2 /\ store r2.1.2 = store r1.1.2.
Proof.
  intros Hquiet Hnd Hagain r1 r2.
  assert (Hrun : forall eim0 w0, updatedAgain (updateState eim0) = false ->
    let r := maybeDoUpdateEgressCIDRs informer HostSubnets_Update allocation eim0 w0 in
    r.2 = true /\ updatedAgain (updateState r.1.1) = false /\
    quietly w0 allocation r.1.2 /\
    (settled w0 allocation -> puts r.1.2 = puts w0 /\ store r.1.2 = store w0)).
  { intros eim0 w0 Ha. unfold maybeDoUpdateEgressCIDRs, Master.maybeDoUpdateEgressCIDRs.
    rewrite Ha. cbn [negb].
    pose proof (allocation_quiet eim0 allocation ∅ w0 Hquiet Hnd) as Hq.
    destruct (fold_left _ allocation (∅, w0)) as [mn w1]. cbn [snd] in Hq.
    assert (Hemit : forall e, e <> HandleError ConflictError ->
              quietly w0 allocation (emit e w1)).
    { intros e Hne. destruct Hq as (P & O & W & (es & E & C) & St).
      split; [exact P|]. split; [exact O|]. split; [exact W|]. split; [|exact St].
      exists (es ++ [e])%list. cbn. rewrite E, <- app_assoc. split; [reflexivity|].
      intros [Hin|Hin%list_elem_of_singleton]%elem_of_app; [contradiction|].
      apply Hne. symmetry. exact Hin. }
    destruct (0 <? size mn)%nat, (stop eim0) as [c|]; cbn [fst snd updateState updatedAgain];
      (split; [reflexivity|]); (split; [first [reflexivity|exact Ha]|]).
    - split; [exact Hq|apply Hq].
    - pose proof (Hemit (GoPoll (chans eim0)) ltac:(discriminate)) as He.
      split; [exact He|apply He].
    - pose proof (Hemit (Close c) ltac:(discriminate)) as He.
      split; [exact He|apply He].
    - split; [exact Hq|apply Hq]. }
  destruct (Hrun eim w Hagain) as (_ & Ha1 & (P1 & _ & W1 & E1 & _) & _).
  fold r1 in Ha1, P1, W1, E1.
  destruct (Hrun r1.1.1 r1.1.2 Ha1) as (D2 & _ & _ & S2). fold r2 in D2, S2.
  split; [exact P1|]. split; [exact E1|]. split; [exact W1|]. split; [exact D2|].
  apply S2. intros n e hs Hin Hs. rewrite (W1 n e Hin) in Hs.
  destruct (store w !! n) as [hs0|]; [|discriminate]. injection Hs as <-.
  apply written_Equal.
Qed.

End WritebackFacts.

Lemma maybeDoUpdateEgressCIDRs_monitors_witness :
  quietInformer noInformer /\
  let r := maybeDoUpdateEgressCIDRs noInformer alwaysConflict oneAllocation oldManager
             oneSubnet in
  monitorsAllocated (monitorNodes oldManager) oneSubnet (map fst oneAllocation)
    (monitorNodes r.1.1) /\
  monitorNodes r.1.1 !! "10.0.0.9" = None /\
  monitorNodes r.1.1 !! "10.0.0.2" =
    Some {| ip := "10.0.0.2"; name := "nodeA"; offline := false; retries := 0 |} /\
  stop r.1.1 = Some 0%nat.
Proof.
  assert (Hquiet : quietInformer noInformer) by (intros n st; reflexivity).
  split; [exact Hquiet|].
  pose proof (maybeDoUpdateEgressCIDRs_monitors noInformer alwaysConflict oneAllocation
                oldManager oneSubnet) as Hthm.
  cbv zeta in Hthm |- *.
  change (updatedAgain (updateState oldManager)) with false in Hthm. cbv iota in Hthm.
  destruct Hthm as (_ & _ & Hmon & _).
  split; [exact (Hmon Hquiet)|]. vm_compute. auto.
Defined.

Lemma maybeDoUpdateEgressCIDRs_conflict_witness :
  let r1 := maybeDoUpdateEgressCIDRs noInformer alwaysConflict oneAllocation newManager
              oneSubnet in
  let r2 := maybeDoUpdateEgressCIDRs noInformer alwaysConflict oneAllocation r1.1.1 r1.1.2 in
  effects r1.1.2 =
    [Update {| Host := "nodeA"; HostIP := "10.0.0.2"; EgressIPs := ["192.168.1.100"] |};
     GoPoll 0] /\
  puts r1.1.2 = 1%nat /\ puts r2.1.2 = puts r1.1.2.
Proof.
  assert (Hquiet : quietInformer noInformer) by (intros n st; reflexivity).
  assert (Hnd : NoDup (map fst oneAllocation)) by (apply NoDup_singleton).
  pose proof (maybeDoUpdateEgressCIDRs_conflict noInformer alwaysConflict oneAllocation
                newManager oneSubnet Hquiet Hnd eq_refl) as Hthm.
  cbv zeta in Hthm |- *. destruct Hthm as (_ & _ & _ & _ & Hp & _).
  split; [vm_compute; reflexivity|]. split; [vm_compute; reflexivity|exact Hp].
Defined.

End Reallocation.
